(** * AI meeting summarizer: the client-side logic, embedded and verified

    The development follows the TypeScript sources file by file:

    - [Js]            the fragment of the JavaScript runtime the code relies on
                      (UTF-16 strings, [trim], [endsWith], truthiness, values
                      produced by [JSON.parse], property reads and writes,
                      exceptions);
    - [Gemini]        [services/geminiService.ts]: the response schema,
                      [summarizeTranscript], [generateSpeech];
    - [FileUpload]    [components/FileUpload.tsx]: [handleFile];
    - [App]           [App.tsx]: the application state and its handlers;
    - [Calendar]      the date arithmetic of ECMAScript [Date] objects;
    - [ResultDisplay] [components/ResultDisplay.tsx]: [formatDate], [decode],
                      [decodeAudioData], the priority filter, the export
                      document and the playback state machine;
    - [AudioInput]    [components/AudioInput.tsx]: [blobToBase64], the
                      recorder's handlers, [processAudio], [formatTime].

    Asynchronous handlers are split at their [await]: the synchronous prefix
    is one function, the continuation that runs when the awaited promise
    settles is another, and the settlement is an explicit input.

    A handler is a closure of the render that created it.  Where that
    matters (two invocations with no render between them), the state the
    handler reads from its closure is a parameter of its own, apart from the
    cells and refs it reads and writes when it runs. *)

From Stdlib Require Import ZArith QArith Lia List String Ascii Bool.
From Stdlib Require Import Floats.SpecFloat.
From stdpp Require Import base tactics option list.

Close Scope Q_scope.
Open Scope Z_scope.

Set Warnings "-register-all".

(* ================================================================== *)
(** * The JavaScript runtime fragment                                   *)
(* ================================================================== *)

Module Js.

(** A JavaScript string is a sequence of UTF-16 code units. *)
Definition jsstring := list Z.

(** String literals of the sources are ASCII. *)
Definition lit (s : string) : jsstring :=
  List.map (fun a => Z.of_nat (nat_of_ascii a)) (list_ascii_of_string s).

Fixpoint str_eqb (a b : jsstring) : bool :=
  match a, b with
  | [], [] => true
  | x :: a', y :: b' => (x =? y) && str_eqb a' b'
  | _, _ => false
  end.

(** [WhiteSpace] and [LineTerminator] code points of ECMA-262, the set
    [String.prototype.trim] removes.  All of them are single code units. *)
Definition isWhiteSpace (c : Z) : bool :=
  (c =? 9) || (c =? 10) || (c =? 11) || (c =? 12) || (c =? 13) ||
  (c =? 32) || (c =? 160) || (c =? 5760) ||
  ((8192 <=? c) && (c <=? 8202)) ||
  (c =? 8232) || (c =? 8233) || (c =? 8239) || (c =? 8287) ||
  (c =? 12288) || (c =? 65279).

Fixpoint trimStart (s : jsstring) : jsstring :=
  match s with
  | c :: s' => if isWhiteSpace c then trimStart s' else s
  | [] => []
  end.

Definition trimEnd (s : jsstring) : jsstring := rev (trimStart (rev s)).

(** [s.trim()] *)
Definition trim (s : jsstring) : jsstring := trimEnd (trimStart s).

(** A string that is empty or made of white space only. *)
Definition blank (s : jsstring) : Prop :=
  Forall (fun c => isWhiteSpace c = true) s.

(** [s.endsWith(suffix)] *)
Definition endsWith (s suffix : jsstring) : bool :=
  (length suffix <=? length s)%nat &&
  str_eqb (drop (length s - length suffix) s) suffix.

(** [a + b] on strings *)
Definition cat (a b : jsstring) : jsstring := a ++ b.

(** [parts.join(sep)] *)
Fixpoint join (sep : jsstring) (parts : list jsstring) : jsstring :=
  match parts with
  | [] => []
  | [p] => p
  | p :: rest => p ++ sep ++ join sep rest
  end.

(** Decimal rendering of a non-negative integer, most significant digit
    first.  [fuel] bounds the number of digits. *)
Fixpoint digits_fuel (fuel : nat) (n : Z) (acc : jsstring) : jsstring :=
  match fuel with
  | O => acc
  | S fuel' =>
      let acc' := (48 + n mod 10) :: acc in
      if n / 10 =? 0 then acc' else digits_fuel fuel' (n / 10) acc'
  end.

Definition decimal (n : Z) : jsstring :=
  digits_fuel (S (Z.to_nat (Z.log2 n))) n [].

(** ** Values

    The values [JSON.parse] can produce, closed under the property writes the
    code performs on them.  An array is an object too: a write of a named
    property to an array succeeds and is kept in [props]; parsed arrays have
    no such properties.  Numbers are IEEE-754 doubles.  Property order is
    observable in JavaScript, so objects are association lists in insertion
    order, with at most one entry per key. *)
Inductive value : Type :=
| VNull
| VBool (b : bool)
| VNum (x : spec_float)
| VStr (s : jsstring)
| VArr (elems : list value) (props : list (jsstring * value))
| VObj (props : list (jsstring * value)).

(** Exceptions.  Every exception the modelled code can meet is an instance
    of [Error] ([Error], [TypeError], [SyntaxError], [RangeError],
    [DOMException]); [NotAnError] stands for any other thrown value, which
    the [instanceof Error] tests of the handlers provide for. *)
Inductive exn : Type :=
| Error (message : jsstring)
| NotAnError.

Inductive result (A : Type) : Type :=
| Ok (a : A)
| Throw (e : exn).
Arguments Ok {A} a.
Arguments Throw {A} e.

Definition bind {A B} (m : result A) (k : A -> result B) : result B :=
  match m with
  | Ok a => k a
  | Throw e => Throw e
  end.

(** The message of an engine-raised [TypeError] is engine-worded. *)
Definition TypeError : exn := Error (lit "TypeError").

(** ToBoolean on a present value; [undefined] is [None] and is falsy. *)
Definition truthy (v : value) : bool :=
  match v with
  | VNull => false
  | VBool b => b
  | VNum (S754_zero _) => false
  | VNum S754_nan => false
  | VNum _ => true
  | VStr s => negb (str_eqb s [])
  | VArr _ _ => true
  | VObj _ => true
  end.

Definition truthy_opt (o : option value) : bool :=
  match o with
  | Some v => truthy v
  | None => false
  end.

Fixpoint lookup_prop (k : jsstring) (ps : list (jsstring * value)) : option value :=
  match ps with
  | [] => None
  | (k', v) :: ps' => if str_eqb k k' then Some v else lookup_prop k ps'
  end.

(** Writing a property replaces the entry in place or appends a new one. *)
Fixpoint store_prop (k : jsstring) (v : value) (ps : list (jsstring * value))
  : list (jsstring * value) :=
  match ps with
  | [] => [(k, v)]
  | (k', v') :: ps' =>
      if str_eqb k k' then (k, v) :: ps' else (k', v') :: store_prop k v ps'
  end.

(** [v.k] for a key [k] that is none of the built-in properties of
    primitives and arrays ([length], indices, prototype methods): reading from
    [null] raises a [TypeError]; a primitive has no such property. *)
Definition getProp (k : jsstring) (v : value) : result (option value) :=
  match v with
  | VNull => Throw TypeError
  | VBool _ | VNum _ | VStr _ => Ok None
  | VArr _ ps => Ok (lookup_prop k ps)
  | VObj ps => Ok (lookup_prop k ps)
  end.

(** [v.k = x] in strict mode (ES modules are strict): writing to [null] or to
    a primitive raises a [TypeError]. *)
Definition setProp (k : jsstring) (x : value) (v : value) : result value :=
  match v with
  | VNull | VBool _ | VNum _ | VStr _ => Throw TypeError
  | VArr es ps => Ok (VArr es (store_prop k x ps))
  | VObj ps => Ok (VObj (store_prop k x ps))
  end.

(** ** Further string operations *)

(** [s.startsWith(prefix)] *)
Fixpoint startsWith (s prefix : jsstring) : bool :=
  match prefix, s with
  | [], _ => true
  | p :: prefix', c :: s' => (c =? p) && startsWith s' prefix'
  | _ :: _, [] => false
  end.

(** [s.indexOf(c)] for a search string of the one character [c]: the first
    position it occurs at, or -1. *)
Fixpoint indexOf (c : Z) (s : jsstring) : Z :=
  match s with
  | [] => -1
  | x :: s' =>
      if x =? c then 0
      else let i := indexOf c s' in if i <? 0 then -1 else i + 1
  end.

(** [s.substr(start)]: a negative [start] counts from the end. *)
Definition substr (s : jsstring) (start : Z) : jsstring :=
  if start <? 0 then drop (length s - Z.to_nat (- start)) s
  else drop (Z.to_nat start) s.

(** [s.padStart(targetLength, fill)] for a fill string of the one character
    [fill]. *)
Definition padStart (targetLength : nat) (fill : Z) (s : jsstring) : jsstring :=
  repeat fill (targetLength - length s) ++ s.

(** [Number.MAX_SAFE_INTEGER], 2^53 - 1: up to it in magnitude every
    integer is a Number, and arithmetic on integers that stays within it is
    exact. *)
Definition MAX_SAFE_INTEGER : Z := 9007199254740991.

Definition isSafeInteger (n : Z) : bool := Z.abs n <=? MAX_SAFE_INTEGER.

(** [n.toString()] for a safe integer [n]: all its digits, after a minus
    sign when it is negative.  Beyond the safe integers a Number is a double
    that need not be the integer meant, and from 10^21 on it is printed
    with an exponent; neither is modelled, and the result is [None]. *)
Definition numberToString (n : Z) : option jsstring :=
  if isSafeInteger n
  then Some (if n <? 0 then 45 :: decimal (- n) else decimal n)
  else None.

(** [s.replace(/\s/g, replacement)]: the class [\s] is the white space and
    line terminators [trim] removes. *)
Definition replaceWhiteSpace (replacement : jsstring) (s : jsstring) : jsstring :=
  flat_map (fun c => if isWhiteSpace c then replacement else [c]) s.

(** The value a string of decimal digits denotes. *)
Definition digitsValue (s : jsstring) : Z :=
  fold_left (fun acc c => 10 * acc + (c - 48)) s 0.

Definition isDecimalDigit (c : Z) : bool := (48 <=? c) && (c <=? 57).

(** A string with no white space at either end. *)
Definition edgeTrimmed (s : jsstring) : Prop :=
  match s with
  | [] => True
  | c :: _ => isWhiteSpace c = false
  end
  /\ match rev s with
     | [] => True
     | c :: _ => isWhiteSpace c = false
     end.

(** [result] is the error monad of the handlers: [x ← m; k] runs [k] when
    [m] returns and propagates what [m] throws. *)
#[global] Instance result_bind : MBind result :=
  fun A B k m => bind m k.
#[global] Instance result_ret : MRet result := @Ok.

End Js.

(* ================================================================== *)
(** * services/geminiService.ts                                        *)
(* ================================================================== *)

Module Gemini.
Import Js.

(** ** The response schema *)

Inductive schema : Type :=
| SString
| SArray (items : schema)
| SObject (properties : list (jsstring * schema)) (required : list jsstring).

Definition actionItemSchema : schema :=
  SObject
    [ (lit "task", SString); (lit "assignee", SString);
      (lit "priority", SString); (lit "dueDate", SString) ]
    [ lit "task"; lit "assignee"; lit "priority"; lit "dueDate" ].

Definition discussionPointSchema : schema :=
  SObject
    [ (lit "speaker", SString); (lit "points", SArray SString) ]
    [ lit "speaker"; lit "points" ].

Definition responseSchema : schema :=
  SObject
    [ (lit "title", SString);
      (lit "shortSummary", SString);
      (lit "detailedSummary", SArray SString);
      (lit "actionItems", SArray actionItemSchema);
      (lit "discussionBreakdown", SArray discussionPointSchema) ]
    [ lit "title"; lit "shortSummary"; lit "detailedSummary";
      lit "actionItems"; lit "discussionBreakdown" ].

(** A value conforms to a schema when it has the schema's type, an array's
    elements conform to the item schema, and an object carries every required
    property, each declared property that is present conforming to its own
    schema. *)
Fixpoint conforms (sc : schema) (v : value) {struct sc} : bool :=
  match sc with
  | SString => match v with VStr _ => true | _ => false end
  | SArray items =>
      match v with
      | VArr es [] => forallb (conforms items) es
      | _ => false
      end
  | SObject properties required =>
      match v with
      | VObj ps =>
          forallb (fun k => match lookup_prop k ps with
                            | Some _ => true
                            | None => false
                            end) required
          &&
          (fix declared (decls : list (jsstring * schema)) : bool :=
             match decls with
             | [] => true
             | (k, sck) :: decls' =>
                 match lookup_prop k ps with
                 | Some x => conforms sck x
                 | None => true
                 end && declared decls'
             end) properties
      | _ => false
      end
  end.

(** ** summarizeTranscript *)

(** What the awaited [ai.models.generateContent] call and the parse of its
    text come to.  [JSON.parse] belongs to the runtime; its outcome on the
    trimmed response text is part of the input. *)
Inductive summaryReply : Type :=
| CallRejected (e : exn)      (* the request promise rejects *)
| TextMissing                 (* [response.text] is undefined *)
| TextMalformed               (* [JSON.parse] raises a SyntaxError *)
| TextParsed (v : value).     (* [JSON.parse] returns [v] *)

Definition SyntaxError : exn := Error (lit "SyntaxError").

(** The callback of [result.actionItems.forEach]: the two fallbacks, written
    to the item in place. *)
Definition fillItem (item : value) : result value :=
  p ← getProp (lit "priority") item ;
  item1 ← (if negb (truthy_opt p)
            then setProp (lit "priority") (VStr (lit "Medium")) item
            else Ok item) ;
  d ← getProp (lit "dueDate") item1 ;
  match d with
  | None => setProp (lit "dueDate") (VStr []) item1
  | Some _ => Ok item1
  end.

Fixpoint forEachItem (f : value -> result value) (items : list value)
  : result (list value) :=
  match items with
  | [] => Ok []
  | item :: rest =>
      item' ← f item ;
      rest' ← forEachItem f rest ;
      Ok (item' :: rest')
  end.

(** [xs.forEach(f)] on a truthy value [xs]: only an array whose [forEach] is
    the prototype method can be iterated; calling anything else raises a
    [TypeError]. *)
Definition callForEach (f : value -> result value) (xs : value) : result value :=
  match xs with
  | VArr es ps =>
      match lookup_prop (lit "forEach") ps with
      | Some _ => Throw TypeError
      | None => es' ← forEachItem f es ; Ok (VArr es' ps)
      end
  | _ => Throw TypeError
  end.

(** The array is mutated through the reference held by the result, so the
    result sees the filled items at the same property. *)
Definition withProp (k : jsstring) (x : value) (v : value) : value :=
  match v with
  | VArr es ps => VArr es (store_prop k x ps)
  | VObj ps => VObj (store_prop k x ps)
  | _ => v
  end.

(** Lines 110-115: the fallbacks of the action items. *)
Definition itemsFallback (parsed : value) : result value :=
  ai ← getProp (lit "actionItems") parsed;
  match ai with
  | Some xs =>
      if truthy xs
      then xs' ← callForEach fillItem xs;
           Ok (withProp (lit "actionItems") xs' parsed)
      else Ok parsed
  | None => Ok parsed
  end.

(** Lines 116-118: the fallback of the discussion breakdown. *)
Definition breakdownFallback (r1 : value) : result value :=
  db ← getProp (lit "discussionBreakdown") r1;
  if negb (truthy_opt db)
  then setProp (lit "discussionBreakdown") (VArr [] []) r1
  else Ok r1.

(** Lines 109-120: the fallbacks applied to the parsed value. *)
Definition applyFallbacks (parsed : value) : result value :=
  r1 ← itemsFallback parsed;
  breakdownFallback r1.

Definition summaryFailure : jsstring :=
  lit "Failed to get summary from AI. Please check the transcript and try again.".

(** The body of the [try] block, from the settled request on. *)
Definition summarizeBody (reply : summaryReply) : result value :=
  match reply with
  | CallRejected e => Throw e
  | TextMissing => Throw TypeError
  | TextMalformed => Throw SyntaxError
  | TextParsed v => applyFallbacks v
  end.

(** [summarizeTranscript]: whatever the body raises is replaced by one
    [Error] with a fixed message. *)
Definition summarizeTranscript (reply : summaryReply) : result value :=
  match summarizeBody reply with
  | Ok v => Ok v
  | Throw _ => Throw (Error summaryFailure)
  end.

(** ** The behaviour of the fallbacks, stated on property reads *)

Definition isObject (v : value) : bool :=
  match v with
  | VArr _ _ | VObj _ => true
  | _ => false
  end.

Definition props (v : value) : list (jsstring * value) :=
  match v with
  | VArr _ ps | VObj ps => ps
  | _ => []
  end.

(** Two values are the same object under property writes: both plain
    objects, or arrays with the same elements. *)
Definition sameObject (a b : value) : Prop :=
  match a, b with
  | VObj _, VObj _ => True
  | VArr es _, VArr es' _ => es = es'
  | _, _ => False
  end.

(** The parsed values the fallbacks get through without raising: an object
    (or array) whose [actionItems] is absent, falsy, or an array of objects
    (or arrays). *)
Definition accepts (v : value) : bool :=
  isObject v &&
  match lookup_prop (lit "actionItems") (props v) with
  | None => true
  | Some xs =>
      if truthy xs then
        match xs with
        | VArr es ps =>
            match lookup_prop (lit "forEach") ps with
            | Some _ => false
            | None => forallb isObject es
            end
        | _ => false
        end
      else true
  end.

(** [item'] is [item] after the two item fallbacks: a falsy or absent
    priority reads "Medium", an absent due date reads the empty string, and
    every other read is as before. *)
Definition filledItem (item item' : value) : Prop :=
  sameObject item item'
  /\ lookup_prop (lit "priority") (props item')
     = (if truthy_opt (lookup_prop (lit "priority") (props item))
        then lookup_prop (lit "priority") (props item)
        else Some (VStr (lit "Medium")))
  /\ lookup_prop (lit "dueDate") (props item')
     = (match lookup_prop (lit "dueDate") (props item) with
        | Some d => Some d
        | None => Some (VStr [])
        end)
  /\ forall k, k <> lit "priority" -> k <> lit "dueDate" ->
               lookup_prop k (props item') = lookup_prop k (props item).

(** [r] is [v] after all three fallbacks. *)
Definition filled (v r : value) : Prop :=
  sameObject v r
  /\ match lookup_prop (lit "actionItems") (props v) with
     | Some (VArr es ps) =>
         exists es', lookup_prop (lit "actionItems") (props r) = Some (VArr es' ps)
                     /\ Forall2 filledItem es es'
     | other => lookup_prop (lit "actionItems") (props r) = other
     end
  /\ lookup_prop (lit "discussionBreakdown") (props r)
     = (if truthy_opt (lookup_prop (lit "discussionBreakdown") (props v))
        then lookup_prop (lit "discussionBreakdown") (props v)
        else Some (VArr [] []))
  /\ forall k, k <> lit "actionItems" -> k <> lit "discussionBreakdown" ->
               lookup_prop k (props r) = lookup_prop k (props v).

(** ** The two statements of the interface description, for one reply *)

(** "Fails on schema violation": a parsed value that does not conform to
    the response schema makes [summarizeTranscript] throw. *)
Definition rejectsViolation (v : value) : Prop :=
  conforms responseSchema v = false ->
  exists e, summarizeTranscript (TextParsed v) = Throw e.

(** The shape [YYYY-MM-DD]. *)
Definition isDigit (c : Z) : bool := (48 <=? c) && (c <=? 57).

Definition dateShaped (s : jsstring) : bool :=
  match s with
  | [y1; y2; y3; y4; h1; m1; m2; h2; d1; d2] =>
      isDigit y1 && isDigit y2 && isDigit y3 && isDigit y4 && (h1 =? 45)
      && isDigit m1 && isDigit m2 && (h2 =? 45) && isDigit d1 && isDigit d2
  | _ => false
  end.

(** "A non-empty priority and a due date that is empty or well-formed". *)
Definition wellFormedItem (item : value) : Prop :=
  (exists p, lookup_prop (lit "priority") (props item) = Some (VStr p) /\ p <> [])
  /\ (exists d, lookup_prop (lit "dueDate") (props item) = Some (VStr d)
                /\ (d = [] \/ dateShaped d = true)).

Definition yieldsWellFormedItems (reply : summaryReply) : Prop :=
  forall r es ps,
    summarizeTranscript reply = Ok r ->
    lookup_prop (lit "actionItems") (props r) = Some (VArr es ps) ->
    Forall wellFormedItem es.

(** What every returned action item satisfies: its priority is truthy (so
    not the empty string when it is a string) and its due date is present. *)
Definition filledOut (item : value) : Prop :=
  truthy_opt (lookup_prop (lit "priority") (props item)) = true
  /\ (forall p, lookup_prop (lit "priority") (props item) = Some (VStr p) -> p <> [])
  /\ lookup_prop (lit "dueDate") (props item) <> None.

(** A response of the shape the schema asks for, with a due date the model
    did not turn into a calendar date. *)
Definition fridayResponse : value :=
  VObj
    [ (lit "title", VStr (lit "Release planning"));
      (lit "shortSummary", VStr (lit "The team ships on Friday."));
      (lit "detailedSummary", VArr [VStr (lit "Shipping on Friday")] []);
      (lit "actionItems",
        VArr
          [ VObj [ (lit "task", VStr (lit "Write the report"));
                   (lit "assignee", VStr (lit "John"));
                   (lit "priority", VStr (lit "High"));
                   (lit "dueDate", VStr (lit "Friday")) ] ]
          []);
      (lit "discussionBreakdown",
        VArr
          [ VObj [ (lit "speaker", VStr (lit "Speaker 1"));
                   (lit "points", VArr [VStr (lit "We ship Friday.")] []) ] ]
          []) ].

(** A response whose only action item lacks priority and due date. *)
Definition bareItemResponse : value :=
  VObj
    [ (lit "title", VStr (lit "Release planning"));
      (lit "actionItems",
        VArr [ VObj [ (lit "task", VStr (lit "Write the report")) ] ] []) ].

(** ** generateSpeech *)

(** The awaited text-to-speech request: it rejects, or it answers with
    [response.candidates?.[0]?.content?.parts?.[0]?.inlineData?.data], which
    is undefined when any link of the chain is missing. *)
Inductive speechReply : Type :=
| SpeechRejected (e : exn)
| SpeechReplied (data : option jsstring).

Definition speechFailure : jsstring :=
  lit "Failed to generate speech. Please try again.".

Definition generateSpeechBody (reply : speechReply) : result jsstring :=
  match reply with
  | SpeechRejected e => Throw e
  | SpeechReplied None => Throw (Error (lit "No audio data received from API."))
  | SpeechReplied (Some base64Audio) =>
      if str_eqb base64Audio []
      then Throw (Error (lit "No audio data received from API."))
      else Ok base64Audio
  end.

Definition generateSpeech (reply : speechReply) : result jsstring :=
  match generateSpeechBody reply with
  | Ok a => Ok a
  | Throw _ => Throw (Error speechFailure)
  end.

(** ** transcribeAudio *)

(** The awaited transcription request: it rejects, or it answers with
    [response.text], which is undefined when the response carries no text. *)
Inductive transcriptionReply : Type :=
| TranscriptionRejected (e : exn)
| TranscriptionReplied (text : option jsstring).

Definition transcriptionFailure : jsstring :=
  lit "Failed to transcribe audio. The file may be too large or in an unsupported format. Please try again.".

Definition transcribeAudioBody (reply : transcriptionReply) : result jsstring :=
  match reply with
  | TranscriptionRejected e => Throw e
  | TranscriptionReplied None => Throw TypeError
  | TranscriptionReplied (Some text) => Ok (trim text)
  end.

Definition transcribeAudio (reply : transcriptionReply) : result jsstring :=
  match transcribeAudioBody reply with
  | Ok text => Ok text
  | Throw _ => Throw (Error transcriptionFailure)
  end.

End Gemini.

(* ================================================================== *)
(** * components/FileUpload.tsx                                        *)
(* ================================================================== *)

Module FileUpload.
Import Js.

(** A [File] as [handleFile] sees it.  [file_text] is what
    [reader.readAsText(file)] hands to [onload]; it is [None] when the read
    fails, in which case [onload] never runs. *)
Record file : Type := {
  file_name : jsstring;
  file_type : jsstring;
  file_text : option jsstring
}.

(** [file.type === 'text/plain' || file.name.endsWith('.vtt')] *)
Definition accepted (f : file) : bool :=
  str_eqb (file_type f) (lit "text/plain") || endsWith (file_name f) (lit ".vtt").

(** What [handleFile] does to the outside. *)
Inductive effect : Type :=
| OnFileUpload (content name : jsstring)   (* the [onFileUpload] prop is called *)
| Alert (message : jsstring)               (* [alert(...)] *)
| Silent.                                  (* the reader never loads *)

Definition handleFile (f : file) : effect :=
  if accepted f then
    match file_text f with
    | Some content => OnFileUpload content (file_name f)
    | None => Silent
    end
  else Alert (lit "Please upload a valid .txt or .vtt file.").

(** The supported files, in the words of the interface description: MIME
    type [text/plain], or a name with the suffix [.vtt]. *)
Definition supported (f : file) : Prop :=
  file_type f = lit "text/plain" \/ exists stem, file_name f = stem ++ lit ".vtt".

End FileUpload.

(* ================================================================== *)
(** * App.tsx                                                          *)
(* ================================================================== *)

Module App.
Import Js.

Inductive InputTab : Type := TextTab | AudioTab.

(** The [useState] cells of the component.  [summaryResult] holds whatever
    [summarizeTranscript] returned: the [SummaryResult] type is asserted, not
    checked, so the cell holds a runtime value. *)
Record state : Type := {
  transcript : jsstring;
  summaryResult : option value;
  isLoading : bool;
  error : option jsstring;
  fileName : jsstring;
  activeInputTab : InputTab;
  meetingTitle : jsstring
}.

Definition initial : state :=
  {| transcript := []; summaryResult := None; isLoading := false;
     error := None; fileName := []; activeInputTab := TextTab;
     meetingTitle := [] |}.

Definition setTranscript (x : jsstring) (st : state) : state :=
  {| transcript := x; summaryResult := summaryResult st;
     isLoading := isLoading st; error := error st; fileName := fileName st;
     activeInputTab := activeInputTab st; meetingTitle := meetingTitle st |}.

Definition setSummaryResult (x : option value) (st : state) : state :=
  {| transcript := transcript st; summaryResult := x;
     isLoading := isLoading st; error := error st; fileName := fileName st;
     activeInputTab := activeInputTab st; meetingTitle := meetingTitle st |}.

Definition setIsLoading (x : bool) (st : state) : state :=
  {| transcript := transcript st; summaryResult := summaryResult st;
     isLoading := x; error := error st; fileName := fileName st;
     activeInputTab := activeInputTab st; meetingTitle := meetingTitle st |}.

Definition setError (x : option jsstring) (st : state) : state :=
  {| transcript := transcript st; summaryResult := summaryResult st;
     isLoading := isLoading st; error := x; fileName := fileName st;
     activeInputTab := activeInputTab st; meetingTitle := meetingTitle st |}.

Definition setFileName (x : jsstring) (st : state) : state :=
  {| transcript := transcript st; summaryResult := summaryResult st;
     isLoading := isLoading st; error := error st; fileName := x;
     activeInputTab := activeInputTab st; meetingTitle := meetingTitle st |}.

Definition setActiveInputTab (x : InputTab) (st : state) : state :=
  {| transcript := transcript st; summaryResult := summaryResult st;
     isLoading := isLoading st; error := error st; fileName := fileName st;
     activeInputTab := x; meetingTitle := meetingTitle st |}.

Definition setMeetingTitle (x : jsstring) (st : state) : state :=
  {| transcript := transcript st; summaryResult := summaryResult st;
     isLoading := isLoading st; error := error st; fileName := fileName st;
     activeInputTab := activeInputTab st; meetingTitle := x |}.

Definition handleFileUpload (content name : jsstring) (st : state) : state :=
  setError None (setSummaryResult None (setFileName name (setTranscript content st))).

Definition handleTranscriptionComplete (transcribedText : jsstring) (st : state) : state :=
  setError None
    (setSummaryResult None
       (setActiveInputTab TextTab
          (setFileName (lit "audio_transcription.txt")
             (setTranscript transcribedText st)))).

Definition handleClear (st : state) : state :=
  setMeetingTitle []
    (setFileName [] (setError None (setSummaryResult None (setTranscript [] st)))).

(** The [FileUpload] component is mounted with [onFileUpload={handleFileUpload}];
    the second component is the alert raised, if any. *)
Definition upload (f : FileUpload.file) (st : state) : state * option jsstring :=
  match FileUpload.handleFile f with
  | FileUpload.OnFileUpload content name => (handleFileUpload content name st, None)
  | FileUpload.Alert message => (st, Some message)
  | FileUpload.Silent => (st, None)
  end.

Definition emptyTranscript : jsstring :=
  lit "Transcript is empty. Please upload, paste, or transcribe audio first.".

Definition unknownError : jsstring :=
  lit "An unknown error occurred while summarizing.".

(** The request [summarizeTranscript(transcript, meetingTitle)]. *)
Record request : Type := {
  req_transcript : jsstring;
  req_title : jsstring
}.

(** [handleSummarize], up to its [await]: the new state and the request
    issued to the gateway, if one is. *)
Definition handleSummarize (st : state) : state * option request :=
  if str_eqb (trim (transcript st)) [] then
    (setError (Some emptyTranscript) st, None)
  else
    (setSummaryResult None (setError None (setIsLoading true st)),
     Some {| req_transcript := transcript st; req_title := meetingTitle st |}).

(** [err instanceof Error ? err.message : '...'] *)
Definition catchMessage (fallback : jsstring) (e : exn) : jsstring :=
  match e with
  | Error message => message
  | NotAnError => fallback
  end.

(** [handleSummarize], from the settled [await] on: the [try] continues or
    the [catch] runs, then the [finally]. *)
Definition handleSummarize_settled (r : result value) (st : state) : state :=
  match r with
  | Ok res => setIsLoading false (setSummaryResult (Some res) st)
  | Throw err => setIsLoading false (setError (Some (catchMessage unknownError err)) st)
  end.

(** One whole summarization with nothing else happening in between. *)
Definition summarize (reply : Gemini.summaryReply) (st : state) : state :=
  match handleSummarize st with
  | (st1, None) => st1
  | (st1, Some _) => handleSummarize_settled (Gemini.summarizeTranscript reply) st1
  end.

(** ** What the output column renders (lines 155-174) *)

(** [{error && <p>{error}</p>}]: an empty message renders nothing. *)
Definition shownError (st : state) : option jsstring :=
  match error st with
  | Some m => if str_eqb m [] then None else Some m
  | None => None
  end.

(** [{!isLoading && !error && summaryResult && <ResultDisplay .../>}] *)
Definition shownResult (st : state) : option value :=
  if isLoading st then None
  else match shownError st with
       | Some _ => None
       | None =>
           match summaryResult st with
           | Some r => if truthy r then Some r else None
           | None => None
           end
       end.

(** "Summarization either fully succeeds and replaces the result, or the
    prior result is left untouched and an error is shown", for one run. *)
Definition succeedsOrKeepsPrior (reply : Gemini.summaryReply) (st : state) : Prop :=
  let st' := summarize reply st in
  (exists r, Gemini.summarizeTranscript reply = Ok r /\ summaryResult st' = Some r)
  \/ (summaryResult st' = summaryResult st /\ shownError st' <> None).

(** ** The controls and the events of the component *)

(** The Clear button:
    [disabled={!transcript && !summaryResult && !meetingTitle && !fileName}] *)
Definition clearDisabled (st : state) : bool :=
  str_eqb (transcript st) [] && negb (truthy_opt (summaryResult st))
  && str_eqb (meetingTitle st) [] && str_eqb (fileName st) [].

(** The Summarize button: [disabled={isLoading || !transcript}] *)
Definition summarizeDisabled (st : state) : bool :=
  isLoading st || str_eqb (transcript st) [].

(** [{!isLoading && !error && !summaryResult && ...}]: the placeholder. *)
Definition shownPlaceholder (st : state) : bool :=
  negb (isLoading st)
  && match shownError st with Some _ => false | None => true end
  && negb (truthy_opt (summaryResult st)).

(** [handleSummarize] as the closure it is
    ([useCallback(..., [transcript, meetingTitle])]): the handler of the
    render that showed [seen] reads the transcript and the title of that
    render, and writes to the cells [st] as they are when it runs.  With the
    render up to date it is [handleSummarize]. *)
Definition handleSummarizeOf (seen st : state) : state * option request :=
  if str_eqb (trim (transcript seen)) [] then
    (setError (Some emptyTranscript) st, None)
  else
    (setSummaryResult None (setError None (setIsLoading true st)),
     Some {| req_transcript := transcript seen; req_title := meetingTitle seen |}).

(** What can happen to the mounted component. *)
Inductive event : Type :=
| EditTranscript (text : jsstring)          (* the textarea's [onChange] *)
| EditTitle (text : jsstring)               (* the title input's [onChange] *)
| SelectTab (tab : InputTab)                (* a tab button *)
| FileChosen (f : FileUpload.file)          (* a file dropped or picked *)
| Transcribed (text : jsstring)             (* [onTranscriptionComplete] *)
| ClickSummarize
| ClickClear
| Settled (i : nat) (reply : Gemini.summaryReply)
                                            (* request [i] of those pending settles *)
| Render.                                   (* the component renders again *)

(** The component: its cells, the cells as the last render showed them
    (what the handlers in place have in their closures and the [disabled]
    attributes were computed from), and the requests issued and not yet
    settled, oldest first. *)
Record system : Type := {
  cells : state;
  shown : state;
  pending : list request
}.

Definition start : system := {| cells := initial; shown := initial; pending := [] |}.

Definition render (sys : system) : system :=
  {| cells := cells sys; shown := cells sys; pending := pending sys |}.

Definition withCells (st : state) (sys : system) : system :=
  {| cells := st; shown := shown sys; pending := pending sys |}.

(** One event.  A click reaches the handler of the last render, unless
    that render disabled the button; the setters write to the cells, and
    the next render shows them.  Nothing settles but a pending request. *)
Definition step (sys : system) (e : event) : system :=
  let st := cells sys in
  match e with
  | EditTranscript text => withCells (setTranscript text st) sys
  | EditTitle text => withCells (setMeetingTitle text st) sys
  | SelectTab tab => withCells (setActiveInputTab tab st) sys
  | FileChosen f => withCells (fst (upload f st)) sys
  | Transcribed text => withCells (handleTranscriptionComplete text st) sys
  | ClickSummarize =>
      if summarizeDisabled (shown sys) then sys
      else
        match handleSummarizeOf (shown sys) st with
        | (st', Some req) =>
            {| cells := st'; shown := shown sys; pending := pending sys ++ [req] |}
        | (st', None) => withCells st' sys
        end
  | ClickClear =>
      if clearDisabled (shown sys) then sys
      else withCells (handleClear st) sys
  | Settled i reply =>
      match pending sys !! i with
      | None => sys
      | Some _ =>
          {| cells := handleSummarize_settled (Gemini.summarizeTranscript reply) st;
             shown := shown sys;
             pending := delete i (pending sys) |}
      end
  | Render => render sys
  end.

Definition run (events : list event) : system := fold_left step events start.

(** Every click on Summarize is followed at once by a render: React renders
    the updates of a click before the next event is handled. *)
Fixpoint clicksRendered (events : list event) : bool :=
  match events with
  | [] => true
  | ClickSummarize :: rest =>
      match rest with
      | Render :: _ => clicksRendered rest
      | _ => false
      end
  | _ :: rest => clicksRendered rest
  end.

(** The bookkeeping of requests agrees with the loading flag, and a render
    made while a request is pending shows the flag set unless a click has
    yet to be rendered. *)
Definition inStep (sys : system) : Prop :=
  (pending sys = [] /\ isLoading (cells sys) = false)
  \/ (exists req, pending sys = [req] /\ isLoading (cells sys) = true
                  /\ isLoading (shown sys) = true
                  /\ ~ blank (req_transcript req)).

End App.

(* ================================================================== *)
(** * Date arithmetic of ECMAScript [Date] objects (ECMA-262, 21.4.1)  *)
(* ================================================================== *)

Module Calendar.

(** A time value is a count of milliseconds since the epoch, in UTC. *)
Definition msPerDay : Z := 86400000.
Definition msPerMinute : Z := 60000.

Definition Day (t : Z) : Z := t / msPerDay.
Definition TimeWithinDay (t : Z) : Z := t mod msPerDay.

Definition isLeap (y : Z) : bool :=
  if negb (y mod 4 =? 0) then false
  else if negb (y mod 100 =? 0) then true
  else y mod 400 =? 0.

Definition DaysInYear (y : Z) : Z := if isLeap y then 366 else 365.

Definition DayFromYear (y : Z) : Z :=
  365 * (y - 1970) + (y - 1969) / 4 - (y - 1901) / 100 + (y - 1601) / 400.

(** The year a day number falls in: the largest [y] with
    [DayFromYear y <= d].  The quotient by the mean year length is off by at
    most one. *)
Definition YearFromDay (d : Z) : Z :=
  let y := 1970 + (400 * d) / 146097 in
  if d <? DayFromYear y then y - 1
  else if DayFromYear (y + 1) <=? d then y + 1
  else y.

Definition YearFromTime (t : Z) : Z := YearFromDay (Day t).
Definition InLeapYear (t : Z) : bool := isLeap (YearFromTime t).
Definition DayWithinYear (t : Z) : Z := Day t - DayFromYear (YearFromTime t).

(** Day within the year on which month [m] (0 = January) starts. *)
Definition monthStart (leap : bool) (m : Z) : Z :=
  let l := if leap then 1 else 0 in
  match m with
  | 0 => 0
  | 1 => 31
  | 2 => 59 + l
  | 3 => 90 + l
  | 4 => 120 + l
  | 5 => 151 + l
  | 6 => 181 + l
  | 7 => 212 + l
  | 8 => 243 + l
  | 9 => 273 + l
  | 10 => 304 + l
  | _ => 334 + l
  end.

Definition monthOfYearDay (leap : bool) (d : Z) : Z :=
  if d <? monthStart leap 1 then 0
  else if d <? monthStart leap 2 then 1
  else if d <? monthStart leap 3 then 2
  else if d <? monthStart leap 4 then 3
  else if d <? monthStart leap 5 then 4
  else if d <? monthStart leap 6 then 5
  else if d <? monthStart leap 7 then 6
  else if d <? monthStart leap 8 then 7
  else if d <? monthStart leap 9 then 8
  else if d <? monthStart leap 10 then 9
  else if d <? monthStart leap 11 then 10
  else 11.

Definition MonthFromTime (t : Z) : Z :=
  monthOfYearDay (InLeapYear t) (DayWithinYear t).

Definition DateFromTime (t : Z) : Z :=
  DayWithinYear t - monthStart (InLeapYear t) (MonthFromTime t) + 1.

(** [MakeDay(year, month, date)]: the day number of the first of the month,
    plus [date - 1]; [month] may lie outside 0..11 and [date] outside the
    month. *)
Definition MakeDay (year month date : Z) : Z :=
  let ym := year + month / 12 in
  let mn := month mod 12 in
  DayFromYear ym + monthStart (isLeap ym) mn + date - 1.

Definition MakeDate (day time : Z) : Z := day * msPerDay + time.

(** [TimeClip]: time values beyond 8.64e15 ms are NaN. *)
Definition TimeClip (t : Z) : option Z :=
  if Z.abs t <=? 8640000000000000 then Some t else None.

Definition daysInMonth (y m : Z) : Z :=
  match m with
  | 1 => if isLeap y then 29 else 28
  | 3 | 5 | 8 | 10 => 30
  | _ => 31
  end.

(** A civil date: year, month (0 = January), day of the month. *)
Definition civil : Type := Z * Z * Z.

Definition civilOfDay (d : Z) : civil :=
  let t := d * msPerDay in
  (YearFromTime t, MonthFromTime t, DateFromTime t).

(** The day after a civil date, by the calendar's own rules. *)
Definition nextDay (c : civil) : civil :=
  let '(y, m, d) := c in
  if d <? daysInMonth y m then (y, m, d + 1)
  else if m <? 11 then (y, m + 1, 1)
  else (y + 1, 0, 1).

End Calendar.

(* ================================================================== *)
(** * components/ResultDisplay.tsx                                     *)
(* ================================================================== *)

Module ResultDisplay.
Import Js Calendar.

(** ** types.ts *)

(** [type Priority = 'High' | 'Medium' | 'Low'] *)
Inductive Priority : Type := High | Medium | Low.

Definition priorityName (p : Priority) : jsstring :=
  match p with
  | High => lit "High"
  | Medium => lit "Medium"
  | Low => lit "Low"
  end.

(** The interfaces of [types.ts].  The [priority] field is declared
    [Priority], which is a string at run time and is never checked, so the
    record holds the string itself. *)
Record ActionItem : Type := {
  task : jsstring;
  assignee : jsstring;
  priority : jsstring;
  dueDate : jsstring
}.

Record DiscussionPoint : Type := {
  speaker : jsstring;
  points : list jsstring
}.

Record SummaryResult : Type := {
  title : jsstring;
  shortSummary : jsstring;
  detailedSummary : list jsstring;
  actionItems : list ActionItem;
  discussionBreakdown : list DiscussionPoint
}.

(** ** formatDate *)

Section Dates.

(** The host's offset of local time from UTC, in milliseconds, taken to be
    the same on the days involved (no daylight-saving change in between). *)
Variable LocalTZA : Z.

(** [Date.parse] on every string that is not a date-only ISO form naming a
    day of the calendar: date-time forms and whatever else the engine
    accepts.  [None] is NaN. *)
Variable otherFormats : jsstring -> option Z.

Definition LocalTime (t : Z) : Z := t + LocalTZA.
Definition UTC (t : Z) : Z := t - LocalTZA.

Definition digit (c : Z) : option Z :=
  if (48 <=? c) && (c <=? 57) then Some (c - 48) else None.

(** The date-only form [YYYY-MM-DD]: year, month (1 = January), day. *)
Definition dateOnly (s : jsstring) : option (Z * Z * Z) :=
  match s with
  | [y1; y2; y3; y4; h1; m1; m2; h2; d1; d2] =>
      if (h1 =? 45) && (h2 =? 45) then
        a ← digit y1; b ← digit y2; c ← digit y3; d ← digit y4;
        e ← digit m1; f ← digit m2; g ← digit d1; h ← digit d2;
        Some (1000 * a + 100 * b + 10 * c + d, 10 * e + f, 10 * g + h)
      else None
  | _ => None
  end.

Definition validDate (y m d : Z) : bool :=
  (1 <=? m) && (m <=? 12) && (1 <=? d) && (d <=? daysInMonth y (m - 1)).

(** [new Date(dateString)]: a date-only form is midnight UTC of that day. *)
Definition Date_parse (s : jsstring) : option Z :=
  match dateOnly s with
  | Some (y, m, d) =>
      if validDate y m d then TimeClip (MakeDate (MakeDay y (m - 1) d) 0)
      else otherFormats s
  | None => otherFormats s
  end.

(** [date.getDate()]: the day of the month in local time. *)
Definition getDate (date : option Z) : option Z :=
  t ← date; Some (DateFromTime (LocalTime t)).

(** [date.setDate(dt)]: replaces the day of the month of the local time and
    keeps the time within the day. *)
Definition setDate (date : option Z) (dt : option Z) : option Z :=
  t0 ← date; d ← dt;
  let t := LocalTime t0 in
  let newDate :=
    MakeDate (MakeDay (YearFromTime t) (MonthFromTime t) d) (TimeWithinDay t) in
  TimeClip (UTC newDate).

Definition monthName (m : Z) : jsstring :=
  match m with
  | 0 => lit "January"
  | 1 => lit "February"
  | 2 => lit "March"
  | 3 => lit "April"
  | 4 => lit "May"
  | 5 => lit "June"
  | 6 => lit "July"
  | 7 => lit "August"
  | 8 => lit "September"
  | 9 => lit "October"
  | 10 => lit "November"
  | _ => lit "December"
  end.

(** The year as [year: 'numeric'] prints it: the year of the era, without
    the era.  Year 0 of the proleptic Gregorian calendar is the year 1 (BC),
    the year -1 is the year 2, and so on. *)
Definition yearOfEra (y : Z) : Z := if y <=? 0 then 1 - y else y.

(** The en-US long form of a civil date. *)
Definition longDate (c : civil) : jsstring :=
  let '(y, m, d) := c in
  monthName m ++ lit " " ++ decimal d ++ lit ", " ++ decimal (yearOfEra y).

(** [date.toLocaleDateString('en-US', {year: 'numeric', month: 'long',
    day: 'numeric'})]: the local civil date. *)
Definition toLocaleDateString (date : option Z) : jsstring :=
  match date with
  | None => lit "Invalid Date"
  | Some t0 => longDate (civilOfDay (Day (LocalTime t0)))
  end.

(** [formatDate].  Nothing in the [try] block throws ([new Date] of an
    unparseable string is an invalid date, not an exception), so the [catch]
    is never entered. *)
Definition formatDate (dateString : jsstring) : jsstring :=
  if str_eqb dateString [] then lit "N/A"
  else
    let date := Date_parse dateString in
    let date := setDate date (dt ← getDate date; Some (dt + 1)) in
    toLocaleDateString date.

(** ** The three places a due date is displayed *)

(** The [Due:] cell of an action item in the rendered list (line 480). *)
Definition dueCell (item : ActionItem) : jsstring := formatDate (dueDate item).

(** The action-item line of the exported document (line 290). *)
Definition actionItemLine (item : ActionItem) : jsstring :=
  lit "- [ ] " ++ task item ++ lit " (Assignee: " ++ assignee item ++
  lit ", Priority: " ++ priority item ++ lit ", Due: " ++
  formatDate (dueDate item) ++ lit ")".

(** [createNotificationText] (line 375). *)
Definition createNotificationText (item : ActionItem) : jsstring :=
  lit "Reminder: The task " ++ [34] ++ task item ++ [34] ++
  lit " is assigned to " ++ assignee item ++ lit ". Priority: " ++
  priority item ++ lit ". Due date: " ++ formatDate (dueDate item) ++ lit ".".

Definition bullet (point : jsstring) : jsstring := lit "- " ++ point.

Definition discussionBlock (d : DiscussionPoint) : jsstring :=
  lit "### " ++ speaker d ++ [10] ++ join [10] (List.map bullet (points d)).

(** The document [handleDownload] offers, after [content.trim()]. *)
Definition exportDocument (result : SummaryResult) : jsstring :=
  trim
    ([10] ++ lit "# Meeting Summary: " ++ title result ++ [10; 10] ++
     lit "## Short Summary" ++ [10] ++ shortSummary result ++ [10; 10] ++
     lit "## Detailed Summary" ++ [10] ++
     join [10] (List.map bullet (detailedSummary result)) ++ [10; 10] ++
     lit "## Discussion Breakdown" ++ [10] ++
     join [10; 10] (List.map discussionBlock (discussionBreakdown result)) ++
     [10; 10] ++
     lit "## Action Items" ++ [10] ++
     join [10] (List.map actionItemLine (actionItems result)) ++
     [10] ++ lit "    ").

(** "A parseable due date renders as the calendar day one day after the
    literal YYYY-MM-DD value", for one date string. *)
Definition rendersDayAfter (dateString : jsstring) : Prop :=
  forall y m d,
    dateOnly dateString = Some (y, m, d) -> validDate y m d = true ->
    formatDate dateString = longDate (nextDay (y, m - 1, d)).

End Dates.

(** ** The priority filter *)

(** [useState<Priority | 'All'>('All')] *)
Inductive Filter : Type :=
| All
| Only (p : Priority).

(** [items.filter(keep)] *)
Fixpoint Array_filter {A} (keep : A -> bool) (items : list A) : list A :=
  match items with
  | [] => []
  | item :: rest =>
      if keep item then item :: Array_filter keep rest
      else Array_filter keep rest
  end.

(** The [useMemo] of lines 266-271, a function of [result.actionItems] and
    [activeFilter]. *)
Definition filteredActionItems (result : SummaryResult) (activeFilter : Filter)
  : list ActionItem :=
  match activeFilter with
  | All => actionItems result
  | Only p =>
      Array_filter (fun item => str_eqb (priority item) (priorityName p))
                   (actionItems result)
  end.

(** ** Styling and export names *)

(** [getPriorityColor]: a [switch] on the priority string. *)
Definition getPriorityColor (priority : jsstring) : jsstring :=
  if str_eqb priority (lit "High")
  then lit "bg-red-500/20 text-red-400 border border-red-500/30"
  else if str_eqb priority (lit "Medium")
  then lit "bg-yellow-500/20 text-yellow-400 border border-yellow-500/30"
  else if str_eqb priority (lit "Low")
  then lit "bg-sky-500/20 text-sky-400 border border-sky-500/30"
  else lit "bg-slate-600/50 text-slate-400 border border-slate-600/50".

(** An item whose priority is one of the three the filter buttons offer. *)
Definition knownPriority (item : ActionItem) : bool :=
  str_eqb (priority item) (lit "High") || str_eqb (priority item) (lit "Medium")
  || str_eqb (priority item) (lit "Low").

(** The [download] attribute set by [handleDownload] (line 297). *)
Definition downloadName (result : SummaryResult) : jsstring :=
  replaceWhiteSpace (lit "_") (title result) ++ lit "_summary.md".

(** ** Decoding the synthesized audio *)

(** Faults the browser raises while the payload is decoded. *)
Inductive engineFault : Type :=
| InvalidCharacter      (* [atob]: the string is not base64 *)
| OddByteLength         (* [new Int16Array(buffer)]: RangeError *)
| NotSupported.         (* [createBuffer]: NotSupportedError *)

Definition base64Value (c : Z) : option Z :=
  if (65 <=? c) && (c <=? 90) then Some (c - 65)
  else if (97 <=? c) && (c <=? 122) then Some (c - 71)
  else if (48 <=? c) && (c <=? 57) then Some (c + 4)
  else if c =? 43 then Some 62
  else if c =? 47 then Some 63
  else None.

Fixpoint base64Values (s : jsstring) : option (list Z) :=
  match s with
  | [] => Some []
  | c :: s' => v ← base64Value c; vs ← base64Values s'; Some (v :: vs)
  end.

(** Four sextets give three bytes; a final group of three gives two, of two
    gives one, the spare bits being dropped. *)
Fixpoint sextetsToBytes (vs : list Z) : list Z :=
  match vs with
  | a :: b :: c :: d :: rest =>
      let n := 262144 * a + 4096 * b + 64 * c + d in
      (n / 65536) :: ((n / 256) mod 256) :: (n mod 256) :: sextetsToBytes rest
  | [a; b; c] =>
      let n := 4096 * a + 64 * b + c in
      [n / 1024; (n / 4) mod 256]
  | [a; b] => [(64 * a + b) / 16]
  | _ => []
  end.

Definition isAsciiWhitespace (c : Z) : bool :=
  (c =? 9) || (c =? 10) || (c =? 12) || (c =? 13) || (c =? 32).

Definition stripPadding (s : jsstring) : jsstring :=
  if (length s mod 4 =? 0)%nat then
    match rev s with
    | 61 :: 61 :: r => rev r
    | 61 :: r => rev r
    | _ => s
    end
  else s.

(** [atob] (the forgiving-base64 decode of the HTML standard): the binary
    string, one code unit per byte, or [None] for an
    [InvalidCharacterError]. *)
Definition atob (data : jsstring) : option jsstring :=
  let s := stripPadding (List.filter (fun c => negb (isAsciiWhitespace c)) data) in
  if (length s mod 4 =? 1)%nat then None
  else vs ← base64Values s; Some (sextetsToBytes vs).

(** Two's-complement reading of a 16-bit pattern. *)
Definition toInt16 (n : Z) : Z :=
  let m := n mod 65536 in
  if m <? 32768 then m else m - 65536.

(** The elements of [new Int16Array(buffer)] over the bytes given, low byte
    first (the byte order of every platform browsers run on). *)
Fixpoint int16Elements (bytes : list Z) : list Z :=
  match bytes with
  | lo :: hi :: rest => toInt16 (lo + 256 * hi) :: int16Elements rest
  | _ => []
  end.

(** An [AudioBuffer]: per channel, the samples of its [Float32Array].  A
    sample is a 16-bit integer over 2^15, which a 32-bit float holds exactly,
    so samples are kept as rationals. *)
Record AudioBuffer : Type := {
  buf_sampleRate : Z;
  buf_channels : list (list Q)
}.

(** A sample within the range of the Web Audio API, -1 to 1. *)
Definition unitSample (x : Q) : Prop := (-1 <= x /\ x <= 1)%Q.

(** The channel counts and sample rates every implementation of
    [createBuffer] supports (Web Audio API, [createBuffer]): up to 32 channels, and
    rates from 8000 Hz to 96000 Hz. *)
Definition inRequiredRanges (numChannels : nat) (sampleRate : Z) : bool :=
  (numChannels <=? 32)%nat && (8000 <=? sampleRate) && (sampleRate <=? 96000).

(** An engine that supports the required ranges and nothing beyond, and
    what Chromium supports beyond them (rates from 3000 Hz to 768000 Hz);
    used for examples. *)
Definition requiredOnly (numChannels frames : nat) (sampleRate : Z) : bool := false.

Definition chromiumRanges (numChannels frames : nat) (sampleRate : Z) : bool :=
  (numChannels <=? 32)%nat && (3000 <=? sampleRate) && (sampleRate <=? 768000).

(** The wording Chromium gives the three faults; used for examples. *)
Definition chromiumWording (f : engineFault) : jsstring :=
  match f with
  | InvalidCharacter =>
      lit "Failed to execute 'atob' on 'Window': The string to be decoded is not correctly encoded."
  | OddByteLength => lit "byte length of Int16Array should be a multiple of 2"
  | NotSupported =>
      lit "Failed to execute 'createBuffer' on 'BaseAudioContext': The number of frames provided (0) is less than or equal to the minimum bound (0)."
  end.

Section Audio.

(** The wording of the messages of engine-raised errors. *)
Variable engineMessage : engineFault -> jsstring.

(** What the engine's [createBuffer] accepts beyond the ranges required of
    every implementation, by channel count, length and sample rate. *)
Variable engineAccepts : nat -> nat -> Z -> bool.

Definition engineError (f : engineFault) : exn := Error (engineMessage f).

(** [decode]: the bytes of [atob(base64)], each [charCodeAt] stored in a
    [Uint8Array]. *)
Definition decode (base64 : jsstring) : result (list Z) :=
  match atob base64 with
  | None => Throw (engineError InvalidCharacter)
  | Some binaryString => Ok (List.map (fun c => c mod 256) binaryString)
  end.

(** [new Int16Array(data.buffer)] *)
Definition Int16Array_of (data : list Z) : result (list Z) :=
  if Nat.even (length data) then Ok (int16Elements data)
  else Throw (engineError OddByteLength).

(** The samples [decodeAudioData] writes to one channel: index [i] runs
    while [i * numChannels < length dataInt16]; writes past the buffer's
    [frames] elements are dropped by the typed array, and every write within
    it reads an element of [dataInt16]. *)
Definition channelSamples (dataInt16 : list Z) (numChannels frames channel : nat)
  : list Q :=
  List.map
    (fun i => Qmake (nth (i * numChannels + channel) dataInt16 0) 32768)
    (seq 0 frames).

(** [ctx.createBuffer(numChannels, frames, sampleRate)] throws a
    [NotSupportedError]: always for no channel and for an empty buffer,
    never within the required ranges, and otherwise as the engine has it. *)
Definition createBufferRefuses (numChannels frames : nat) (sampleRate : Z) : bool :=
  (numChannels =? 0)%nat || (frames =? 0)%nat
  || negb (inRequiredRanges numChannels sampleRate
           || engineAccepts numChannels frames sampleRate).

(** [decodeAudioData].  [ctx.createBuffer] converts [frameCount] to an
    integer, dropping the fraction. *)
Definition decodeAudioData (data : list Z) (sampleRate : Z) (numChannels : nat)
  : result AudioBuffer :=
  dataInt16 ← Int16Array_of data;
  let frames := (length dataInt16 / numChannels)%nat in
  if createBufferRefuses numChannels frames sampleRate
  then Throw (engineError NotSupported)
  else
    Ok {| buf_sampleRate := sampleRate;
          buf_channels :=
            List.map (channelSamples dataInt16 numChannels frames)
                     (seq 0 numChannels) |}.

(** ** The playback state machine *)

Inductive AudioState : Type := Idle | Loading | Playing.

Inductive ContextState : Type := Suspended | Running.

(** The component's playback cells: two [useState] cells, two refs, and the
    texts passed to [generateSpeech] so far (a history kept for the proofs,
    with no counterpart in the code). *)
Record player : Type := {
  audioState : AudioState;
  ttsError : option jsstring;
  audioContextRef : option ContextState;
  audioSourceRef : option AudioBuffer;
  speechRequests : list jsstring
}.

Definition initialPlayer : player :=
  {| audioState := Idle; ttsError := None; audioContextRef := None;
     audioSourceRef := None; speechRequests := [] |}.

Definition setAudioState (x : AudioState) (st : player) : player :=
  {| audioState := x; ttsError := ttsError st;
     audioContextRef := audioContextRef st; audioSourceRef := audioSourceRef st;
     speechRequests := speechRequests st |}.

Definition setTtsError (x : option jsstring) (st : player) : player :=
  {| audioState := audioState st; ttsError := x;
     audioContextRef := audioContextRef st; audioSourceRef := audioSourceRef st;
     speechRequests := speechRequests st |}.

Definition setContext (x : option ContextState) (st : player) : player :=
  {| audioState := audioState st; ttsError := ttsError st;
     audioContextRef := x; audioSourceRef := audioSourceRef st;
     speechRequests := speechRequests st |}.

Definition setSource (x : option AudioBuffer) (st : player) : player :=
  {| audioState := audioState st; ttsError := ttsError st;
     audioContextRef := audioContextRef st; audioSourceRef := x;
     speechRequests := speechRequests st |}.

Definition requestSpeech (text : jsstring) (st : player) : player :=
  {| audioState := audioState st; ttsError := ttsError st;
     audioContextRef := audioContextRef st; audioSourceRef := audioSourceRef st;
     speechRequests := speechRequests st ++ [text] |}.

(** [handleToggleAudio], up to its first [await]: the three cases of the
    handler, the third ending with the call of [generateSpeech(text)].  The
    handler is a closure of the render that created it
    ([useCallback(..., [audioState])]): [seen] is the [audioState] of that
    render, which the cases test; the refs are read, and the cells and refs
    written, as they are when the handler runs. *)
Definition handleToggleAudio (seen : AudioState) (text : jsstring) (st : player)
  : player :=
  match seen, audioSourceRef st with
  | Playing, Some _ => setAudioState Idle (setSource None st)
  | Loading, _ => st
  | _, _ => requestSpeech text (setTtsError None (setAudioState Loading st))
  end.

(** The speaker button of a render that showed [seen]:
    [onClick={() => handleToggleAudio(...)}],
    [disabled={audioState === 'loading'}]. *)
Definition toggleDisabled (seen : AudioState) : bool :=
  match seen with Loading => true | _ => false end.


(** What the host does while the [try] block runs: the outcome of the
    request and of each browser call that can throw or reject. *)
Record host : Type := {
  speech : Gemini.speechReply;        (* the text-to-speech request *)
  newContext : result ContextState;   (* [new AudioContext(...)] *)
  resume : option exn;                (* [audioContext.resume()] rejects *)
  outputNode : option exn;            (* [createGain()] or its [connect] throws *)
  sourceNode : option exn;            (* [createBufferSource()], the buffer
                                         assignment or [connect] throws *)
  start : option exn                  (* [source.start()] throws *)
}.

(** The [try] block keeps its writes to the refs when it throws, so its
    steps thread the cells along with the outcome. *)
Definition action (A : Type) : Type := player -> result A * player.

Definition lift {A} (r : result A) : action A := fun st => (r, st).

#[local] Instance action_bind : MBind action :=
  fun A B k m st =>
    match m st with
    | (Ok a, st') => k a st'
    | (Throw e, st') => (Throw e, st')
    end.

(** A browser call that returns nothing and may throw. *)
Definition browserCall (outcome : option exn) : action unit :=
  fun st =>
    match outcome with
    | None => (Ok tt, st)
    | Some e => (Throw e, st)
    end.

Definition ensureContext (h : host) : action ContextState :=
  fun st =>
    match audioContextRef st with
    | Some c => (Ok c, st)
    | None =>
        match newContext h with
        | Ok c => (Ok c, setContext (Some c) st)
        | Throw e => (Throw e, st)
        end
    end.

Definition resumeIfSuspended (h : host) (c : ContextState) : action unit :=
  fun st =>
    match c with
    | Running => (Ok tt, st)
    | Suspended =>
        match resume h with
        | None => (Ok tt, setContext (Some Running) st)
        | Some e => (Throw e, st)
        end
    end.

(** [audioSourceRef.current = source] *)
Definition attachSource (buffer : AudioBuffer) : action unit :=
  fun st => (Ok tt, setSource (Some buffer) st).

(** Lines 322-330: the payload is awaited and the audio context made
    ready. *)
Definition prepare (h : host) : action jsstring :=
  base64Audio ← lift (Gemini.generateSpeech (speech h));
  audioContext ← ensureContext h;
  _ ← resumeIfSuspended h audioContext;
  lift (Ok base64Audio).

(** Lines 332-351: the payload is decoded and the source node built,
    attached to the ref and started. *)
Definition play (h : host) (base64Audio : jsstring) : action unit :=
  _ ← browserCall (outputNode h);
  bytes ← lift (decode base64Audio);
  audioBuffer ← lift (decodeAudioData bytes 24000 1);
  _ ← browserCall (sourceNode h);
  _ ← attachSource audioBuffer;
  browserCall (start h).

(** The whole [try] block. *)
Definition playbackAttempt (h : host) : action unit :=
  base64Audio ← prepare h;
  play h base64Audio.

Definition audioFailure : jsstring := lit "Failed to generate audio.".

(** [handleToggleAudio], from the settled request on: the [try] block, then
    [setAudioState('playing')] or the [catch]. *)
Definition handleToggleAudio_settled (h : host) (st : player) : player :=
  match playbackAttempt h st with
  | (Ok _, st') => setAudioState Playing st'
  | (Throw e, st') =>
      setAudioState Idle (setTtsError (Some (App.catchMessage audioFailure e)) st')
  end.

(** [source.onended] *)
Definition onended (st : player) : player :=
  setSource None (setAudioState Idle st).

(** [{ttsError && <p>{ttsError}</p>}] *)
Definition shownTtsError (st : player) : option jsstring :=
  match ttsError st with
  | Some m => if str_eqb m [] then None else Some m
  | None => None
  end.

(** ** What counts as a failure of synthesis or decoding *)

(** The audio context is there and running by the time the payload is
    decoded. *)
Definition contextReady (h : host) (st : player) : Prop :=
  match audioContextRef st with
  | Some Running => True
  | Some Suspended => resume h = None
  | None =>
      newContext h = Ok Running
      \/ (newContext h = Ok Suspended /\ resume h = None)
  end.

(** The ways the steps between the request and the start of playback can
    fail, each with the exception it raises: the synthesis request, the
    creation of the audio context, its [resume()], the output node, the
    base64 decoding, the construction of the sample buffer, the source node,
    its [start()]. *)
Inductive playbackFailure (h : host) (st : player) : exn -> Prop :=
| SynthesisFails e :
    Gemini.generateSpeech (speech h) = Throw e ->
    playbackFailure h st e
| ContextFails base64Audio e :
    Gemini.generateSpeech (speech h) = Ok base64Audio ->
    audioContextRef st = None ->
    newContext h = Throw e ->
    playbackFailure h st e
| ResumeFails base64Audio e :
    Gemini.generateSpeech (speech h) = Ok base64Audio ->
    (audioContextRef st = Some Suspended
     \/ (audioContextRef st = None /\ newContext h = Ok Suspended)) ->
    resume h = Some e ->
    playbackFailure h st e
| OutputNodeFails base64Audio e :
    Gemini.generateSpeech (speech h) = Ok base64Audio ->
    contextReady h st ->
    outputNode h = Some e ->
    playbackFailure h st e
| DecodeFails base64Audio e :
    Gemini.generateSpeech (speech h) = Ok base64Audio ->
    contextReady h st ->
    outputNode h = None ->
    decode base64Audio = Throw e ->
    playbackFailure h st e
| BufferFails base64Audio bytes e :
    Gemini.generateSpeech (speech h) = Ok base64Audio ->
    contextReady h st ->
    outputNode h = None ->
    decode base64Audio = Ok bytes ->
    decodeAudioData bytes 24000 1 = Throw e ->
    playbackFailure h st e
| SourceNodeFails base64Audio bytes buffer e :
    Gemini.generateSpeech (speech h) = Ok base64Audio ->
    contextReady h st ->
    outputNode h = None ->
    decode base64Audio = Ok bytes ->
    decodeAudioData bytes 24000 1 = Ok buffer ->
    sourceNode h = Some e ->
    playbackFailure h st e
| StartFails base64Audio bytes buffer e :
    Gemini.generateSpeech (speech h) = Ok base64Audio ->
    contextReady h st ->
    outputNode h = None ->
    decode base64Audio = Ok bytes ->
    decodeAudioData bytes 24000 1 = Ok buffer ->
    sourceNode h = None ->
    start h = Some e ->
    playbackFailure h st e.

(** ** The playback machine, await by await *)

(** Where a call of [handleToggleAudio] that has entered its [try] block
    waits: for the synthesis request, for [audioContext.resume()], or for
    the promise [decodeAudioData] has returned, whose outcome is fixed when
    it is awaited. *)
Inductive stage : Type :=
| AwaitSpeech
| AwaitResume (base64Audio : jsstring)
| AwaitDecode (decoded : result AudioBuffer).

(** How a call goes on when what it waits for settles: it waits again; it
    ends in the [catch], having attached its source to the ref or not; or
    it ends with its source attached and started. *)
Inductive progress : Type :=
| Waits (s : stage)
| Caught (attached : bool)
| Started.

(** The [catch] block. *)
Definition caught (e : exn) (st : player) : player :=
  setAudioState Idle (setTtsError (Some (App.catchMessage audioFailure e)) st).

(** Lines 332-340: the output node, [decode], and the call of
    [decodeAudioData], whose promise is awaited. *)
Definition toDecode (h : host) (base64Audio : jsstring) (st : player)
  : player * progress :=
  match outputNode h with
  | Some e => (caught e st, Caught false)
  | None =>
      match decode base64Audio with
      | Throw e => (caught e st, Caught false)
      | Ok bytes => (st, Waits (AwaitDecode (decodeAudioData bytes 24000 1)))
      end
  end.

(** The call runs on from where it waited to its next [await] or to its
    end, in the host [h]. *)
Definition resumeCall (h : host) (s : stage) (st : player) : player * progress :=
  match s with
  | AwaitSpeech =>
      match Gemini.generateSpeech (speech h) with
      | Throw e => (caught e st, Caught false)
      | Ok base64Audio =>
          match ensureContext h st with
          | (Throw e, st1) => (caught e st1, Caught false)
          | (Ok Suspended, st1) => (st1, Waits (AwaitResume base64Audio))
          | (Ok Running, st1) => toDecode h base64Audio st1
          end
      end
  | AwaitResume base64Audio =>
      match resume h with
      | Some e => (caught e st, Caught false)
      | None => toDecode h base64Audio (setContext (Some Running) st)
      end
  | AwaitDecode decoded =>
      match decoded with
      | Throw e => (caught e st, Caught false)
      | Ok audioBuffer =>
          match sourceNode h with
          | Some e => (caught e st, Caught false)
          | None =>
              let st1 := setSource (Some audioBuffer) st in
              match start h with
              | Some e => (caught e st1, Caught true)
              | None => (setAudioState Playing st1, Started)
              end
          end
      end
  end.

(** The call run to its end with nothing else happening in between. *)
Fixpoint complete (awaits : nat) (h : host) (s : stage) (st : player) : player :=
  match awaits with
  | O => st
  | S awaits' =>
      match resumeCall h s st with
      | (st', Waits s') => complete awaits' h s' st'
      | (st', _) => st'
      end
  end.

(** What can happen to the mounted component: the speaker button is
    clicked; the component renders again; what call [i] of those under way
    waits for settles; a started source comes to its end, the one attached
    to the ref or another. *)
Inductive playbackEvent : Type :=
| Toggle (text : jsstring)
| Rendered
| Settle (i : nat) (h : host)
| SourceEnded (attached : bool).

(** The component: its cells and refs; the [audioState] of the last render,
    which the handler and the button in place were made from; the calls of
    [handleToggleAudio] under way, oldest first; whether the source in the
    ref has been started and still has its [onended]; and how many started
    sources with their [onended] are no longer in the ref. *)
Record session : Type := {
  cells : player;
  shown : AudioState;
  calls : list stage;
  sounding : bool;
  detached : nat
}.

Definition startSession : session :=
  {| cells := initialPlayer; shown := Idle; calls := [];
     sounding := false; detached := 0 |}.

(** One event.  A click reaches the handler of the last render unless that
    render disabled the button.  Case 1 of the handler takes the [onended]
    off the source it stops; a source in the ref that is not sounding is one
    whose [start()] threw, and [stop()] on a source never started throws in
    its turn, which ends the handler there.  A source attached over one
    that is sounding leaves that one sounding, with its [onended];
    [onended] empties the ref, whichever source it belongs to. *)
Definition stepSession (s : session) (e : playbackEvent) : session :=
  match e with
  | Toggle text =>
      if toggleDisabled (shown s) then s
      else
        let st' := handleToggleAudio (shown s) text (cells s) in
        match shown s, audioSourceRef (cells s) with
        | Playing, Some _ =>
            if sounding s
            then {| cells := st'; shown := shown s; calls := calls s;
                    sounding := false; detached := detached s |}
            else s
        | Loading, _ => s
        | _, _ =>
            {| cells := st'; shown := shown s; calls := calls s ++ [AwaitSpeech];
               sounding := sounding s; detached := detached s |}
        end
  | Rendered =>
      {| cells := cells s; shown := audioState (cells s); calls := calls s;
         sounding := sounding s; detached := detached s |}
  | Settle i h =>
      match calls s !! i with
      | None => s
      | Some waiting =>
          match resumeCall h waiting (cells s) with
          | (st', Waits next) =>
              {| cells := st'; shown := shown s; calls := <[i := next]> (calls s);
                 sounding := sounding s; detached := detached s |}
          | (st', Caught attached) =>
              {| cells := st'; shown := shown s; calls := delete i (calls s);
                 sounding := if attached then false else sounding s;
                 detached := if attached && sounding s
                             then S (detached s) else detached s |}
          | (st', Started) =>
              {| cells := st'; shown := shown s; calls := delete i (calls s);
                 sounding := true;
                 detached := if sounding s then S (detached s) else detached s |}
          end
      end
  | SourceEnded true =>
      if sounding s
      then {| cells := onended (cells s); shown := shown s; calls := calls s;
              sounding := false; detached := detached s |}
      else s
  | SourceEnded false =>
      match detached s with
      | O => s
      | S others =>
          {| cells := onended (cells s); shown := shown s; calls := calls s;
             sounding := false;
             detached := if sounding s then S others else others |}
      end
  end.

Definition runSession (events : list playbackEvent) : session :=
  fold_left stepSession events startSession.

(** Every click on the speaker button is followed at once by a render:
    React renders the updates of a click before the next event is
    handled. *)
Fixpoint togglesRendered (events : list playbackEvent) : bool :=
  match events with
  | [] => true
  | Toggle _ :: rest =>
      match rest with
      | Rendered :: _ => togglesRendered rest
      | _ => false
      end
  | _ :: rest => togglesRendered rest
  end.

(** What holds of the machine whenever clicks are rendered. *)
Definition consistent (s : session) : Prop :=
  ((calls s = [] /\ audioState (cells s) <> Loading)
   \/ (exists waiting, calls s = [waiting] /\ audioState (cells s) = Loading
                       /\ shown s = Loading))
  /\ (sounding s = true ->
      audioState (cells s) = Playing /\ audioSourceRef (cells s) <> None
      /\ shown s <> Idle)
  /\ detached s = 0%nat
  /\ (ttsError (cells s) <> None -> audioState (cells s) = Idle)
  /\ (audioState (cells s) = Playing -> audioSourceRef (cells s) <> None).

(** What holds of it in any case. *)
Definition sound (s : session) : Prop :=
  (calls s = [] -> audioState (cells s) <> Loading)
  /\ (audioState (cells s) = Loading -> ttsError (cells s) = None)
  /\ (audioState (cells s) = Playing -> audioSourceRef (cells s) <> None).

End Audio.

End ResultDisplay.

(* ================================================================== *)
(** * components/AudioInput.tsx                                        *)
(* ================================================================== *)

Module AudioInput.
Import Js.

(** A [Blob]: its bytes and its type.  ([new Blob] lower-cases the type it
    is given; the type plays no part below but in the data URL's prefix.) *)
Record blob : Type := {
  blob_bytes : list Z;
  blob_type : jsstring
}.

(** ** blobToBase64 *)

(** What the [FileReader] comes to: [onerror], which rejects with the event
    (no [Error]), or [onloadend] with the data URL in [reader.result]. *)
Inductive readOutcome : Type :=
| ReadFailed
| ReadDone (dataURL : jsstring).

(** [base64data.substr(base64data.indexOf(',') + 1)] *)
Definition afterComma (base64data : jsstring) : jsstring :=
  substr base64data (indexOf 44 base64data + 1).

Definition blobToBase64 (o : readOutcome) : result jsstring :=
  match o with
  | ReadFailed => Throw NotAnError
  | ReadDone base64data => Ok (afterComma base64data)
  end.

(** The base64 alphabet of RFC 4648. *)
Definition base64Char (v : Z) : Z :=
  if v <? 26 then v + 65
  else if v <? 52 then v + 71
  else if v <? 62 then v - 4
  else if v =? 62 then 43
  else 47.

(** The bytes cut into groups of six bits, three bytes giving four groups;
    a last group of two bytes gives three and of one byte two, filled up
    with zero bits. *)
Fixpoint bytesToSextets (bytes : list Z) : list Z :=
  match bytes with
  | a :: b :: c :: rest =>
      let n := 65536 * a + 256 * b + c in
      (n / 262144) :: ((n / 4096) mod 64) :: ((n / 64) mod 64) :: (n mod 64)
      :: bytesToSextets rest
  | [a; b] =>
      let n := 1024 * a + 4 * b in
      [n / 4096; (n / 64) mod 64; n mod 64]
  | [a] =>
      let n := 16 * a in
      [n / 64; n mod 64]
  | [] => []
  end.

(** The base64 text of a byte sequence (RFC 4648), padded with [=] to a
    multiple of four characters, as [readAsDataURL] produces it. *)
Definition base64Encode (bytes : list Z) : jsstring :=
  List.map base64Char (bytesToSextets bytes)
  ++ repeat 61 ((3 - length bytes mod 3) mod 3)%nat.

(** The data URL of RFC 2397 that [readAsDataURL] yields for a blob whose
    media type is [mediaType]. *)
Definition dataURL (mediaType : jsstring) (bytes : list Z) : jsstring :=
  lit "data:" ++ mediaType ++ lit ";base64," ++ base64Encode bytes.

(** ** The component *)

(** The [MediaRecorder] held in [mediaRecorderRef]: whether its [state] is
    ['recording'], and its [mimeType]. *)
Record recorder : Type := {
  rec_recording : bool;
  rec_mimeType : jsstring
}.

(** The [useState] cells and the refs of the component.  The last two
    fields count what the component has acquired and not released, the
    microphone streams with live tracks and the running intervals; they are
    kept for the proofs and have no counterpart in the code. *)
Record state : Type := {
  isRecording : bool;
  isTranscribing : bool;
  recordingTime : Z;
  error : option jsstring;
  isDragging : bool;
  mediaRecorderRef : option recorder;
  audioChunksRef : list blob;
  timerIntervalRef : bool;
  streamRef : bool;
  liveStreams : nat;
  liveTimers : nat
}.

Definition initial : state :=
  {| isRecording := false; isTranscribing := false; recordingTime := 0;
     error := None; isDragging := false; mediaRecorderRef := None;
     audioChunksRef := []; timerIntervalRef := false; streamRef := false;
     liveStreams := 0; liveTimers := 0 |}.

Definition setIsRecording (x : bool) (st : state) : state :=
  {| isRecording := x; isTranscribing := isTranscribing st;
     recordingTime := recordingTime st; error := error st;
     isDragging := isDragging st; mediaRecorderRef := mediaRecorderRef st;
     audioChunksRef := audioChunksRef st;
     timerIntervalRef := timerIntervalRef st; streamRef := streamRef st;
     liveStreams := liveStreams st; liveTimers := liveTimers st |}.

Definition setIsTranscribing (x : bool) (st : state) : state :=
  {| isRecording := isRecording st; isTranscribing := x;
     recordingTime := recordingTime st; error := error st;
     isDragging := isDragging st; mediaRecorderRef := mediaRecorderRef st;
     audioChunksRef := audioChunksRef st;
     timerIntervalRef := timerIntervalRef st; streamRef := streamRef st;
     liveStreams := liveStreams st; liveTimers := liveTimers st |}.

Definition setRecordingTime (x : Z) (st : state) : state :=
  {| isRecording := isRecording st; isTranscribing := isTranscribing st;
     recordingTime := x; error := error st;
     isDragging := isDragging st; mediaRecorderRef := mediaRecorderRef st;
     audioChunksRef := audioChunksRef st;
     timerIntervalRef := timerIntervalRef st; streamRef := streamRef st;
     liveStreams := liveStreams st; liveTimers := liveTimers st |}.

Definition setError (x : option jsstring) (st : state) : state :=
  {| isRecording := isRecording st; isTranscribing := isTranscribing st;
     recordingTime := recordingTime st; error := x;
     isDragging := isDragging st; mediaRecorderRef := mediaRecorderRef st;
     audioChunksRef := audioChunksRef st;
     timerIntervalRef := timerIntervalRef st; streamRef := streamRef st;
     liveStreams := liveStreams st; liveTimers := liveTimers st |}.

Definition setIsDragging (x : bool) (st : state) : state :=
  {| isRecording := isRecording st; isTranscribing := isTranscribing st;
     recordingTime := recordingTime st; error := error st;
     isDragging := x; mediaRecorderRef := mediaRecorderRef st;
     audioChunksRef := audioChunksRef st;
     timerIntervalRef := timerIntervalRef st; streamRef := streamRef st;
     liveStreams := liveStreams st; liveTimers := liveTimers st |}.

Definition setRecorder (x : option recorder) (st : state) : state :=
  {| isRecording := isRecording st; isTranscribing := isTranscribing st;
     recordingTime := recordingTime st; error := error st;
     isDragging := isDragging st; mediaRecorderRef := x;
     audioChunksRef := audioChunksRef st;
     timerIntervalRef := timerIntervalRef st; streamRef := streamRef st;
     liveStreams := liveStreams st; liveTimers := liveTimers st |}.


(** [timerIntervalRef.current = ...], with the count of running intervals. *)
Definition setTimer (held : bool) (running : nat) (st : state) : state :=
  {| isRecording := isRecording st; isTranscribing := isTranscribing st;
     recordingTime := recordingTime st; error := error st;
     isDragging := isDragging st; mediaRecorderRef := mediaRecorderRef st;
     audioChunksRef := audioChunksRef st;
     timerIntervalRef := held; streamRef := streamRef st;
     liveStreams := liveStreams st; liveTimers := running |}.

(** [streamRef.current = ...], with the count of live streams. *)
Definition setStream (held : bool) (live : nat) (st : state) : state :=
  {| isRecording := isRecording st; isTranscribing := isTranscribing st;
     recordingTime := recordingTime st; error := error st;
     isDragging := isDragging st; mediaRecorderRef := mediaRecorderRef st;
     audioChunksRef := audioChunksRef st;
     timerIntervalRef := timerIntervalRef st; streamRef := held;
     liveStreams := live; liveTimers := liveTimers st |}.



Definition stopTimer (st : state) : state :=
  setRecordingTime 0
    (if timerIntervalRef st then setTimer false (pred (liveTimers st)) st else st).

(** [mediaRecorderRef.current.stop()] when the recorder is recording. *)
Definition stopRecorder (st : state) : state :=
  match mediaRecorderRef st with
  | Some r =>
      if rec_recording r
      then setRecorder (Some {| rec_recording := false;
                                rec_mimeType := rec_mimeType r |}) st
      else st
  | None => st
  end.

Definition cleanup (st : state) : state :=
  stopTimer
    (stopRecorder
       (if streamRef st then setStream false (pred (liveStreams st)) st else st)).

(** [processAudio], up to its first [await]. *)
Definition processAudio (st : state) : state :=
  setError None (setIsTranscribing true st).

Definition unknownError : jsstring := lit "An unknown error occurred.".

(** [processAudio], from the [await]s on: the file read, the request, the
    callback.  The second component is the text [onTranscriptionComplete]
    is called with, if it is called. *)
Definition processAudio_settled
    (read : readOutcome) (reply : Gemini.transcriptionReply) (st : state)
  : state * option jsstring :=
  match (base64 ← blobToBase64 read; Gemini.transcribeAudio reply) with
  | Ok transcript => (setIsTranscribing false st, Some transcript)
  | Throw err =>
      (setIsTranscribing false
         (setError (Some (App.catchMessage unknownError err)) st), None)
  end.









Definition handleStopRecording (st : state) : state :=
  stopTimer (setIsRecording false (stopRecorder st)).

(** [formatTime], for a number of seconds that is a safe integer, as
    [recordingTime] is (the floor of a difference of two clock readings over
    1000): [Math.floor(seconds / 60)] is then the integer quotient rounded
    down and [seconds % 60] the remainder with the sign of [seconds]. *)
Definition formatTime (seconds : Z) : option jsstring :=
  if isSafeInteger seconds then
    mins ← numberToString (seconds / 60);
    secs ← numberToString (Z.rem seconds 60);
    Some (padStart 2 48 mins ++ lit ":" ++ padStart 2 48 secs)
  else None.

(** [handleAudioFile]: the new state, and the blob and type [processAudio]
    is called with, if it is. *)
Definition handleAudioFile (file : blob) (st : state) : state * option (blob * jsstring) :=
  if startsWith (blob_type file) (lit "audio/")
  then (processAudio st, Some (file, blob_type file))
  else (setError (Some (lit "Please upload a valid audio file.")) st, None).

(** [handleDrop] and [handleFileChange]: the first file, if there is one. *)
Definition handleDrop (files : list blob) (st : state) : state * option (blob * jsstring) :=
  match files with
  | file :: _ => handleAudioFile file (setIsDragging false st)
  | [] => (setIsDragging false st, None)
  end.

Definition handleFileChange (files : list blob) (st : state) : state * option (blob * jsstring) :=
  match files with
  | file :: _ => handleAudioFile file st
  | [] => (st, None)
  end.

(** A byte, and a group of six bits. *)
Definition isByte (b : Z) : Prop := 0 <= b < 256.
Definition isSextet (v : Z) : Prop := 0 <= v < 64.





End AudioInput.

(* ================================================================== *)
(** * Properties of the runtime fragment                               *)
(* ================================================================== *)

Section StringFacts.
Import Js.

Lemma str_eqb_eq (a b : jsstring) : str_eqb a b = true <-> a = b.
Proof.
  revert b; induction a as [|x a IH]; intros [|y b]; simpl; try (split; congruence).
  rewrite andb_true_iff, Z.eqb_eq, IH. split.
  - intros [-> ->]; reflexivity.
  - intros [= -> ->]; split; reflexivity.
Qed.

Lemma str_eqb_refl (a : jsstring) : str_eqb a a = true.
Proof. apply str_eqb_eq; reflexivity. Qed.

Lemma str_eqb_neq (a b : jsstring) : str_eqb a b = false <-> a <> b.
Proof.
  rewrite <- str_eqb_eq. destruct (str_eqb a b); split; congruence.
Qed.

Lemma trimStart_blank (s : jsstring) : trimStart s = [] <-> blank s.
Proof.
  unfold blank. induction s as [|c s IH]; simpl.
  - split; [constructor | reflexivity].
  - destruct (isWhiteSpace c) eqn:Hc.
    + rewrite IH. split; [intros H; constructor; assumption | ].
      intros H; inversion H; assumption.
    + split; [discriminate | ].
      intros H; inversion H; congruence.
Qed.

(** What [trimStart] keeps is empty or starts with a visible character. *)
Lemma trimStart_head (s : jsstring) :
  match trimStart s with
  | [] => True
  | c :: _ => isWhiteSpace c = false
  end.
Proof.
  induction s as [|c s IH]; simpl; [exact I | ].
  destruct (isWhiteSpace c) eqn:Hc; [exact IH | exact Hc].
Qed.

Lemma trim_blank (s : jsstring) : trim s = [] <-> blank s.
Proof.
  unfold trim, trimEnd. split.
  - intros H.
    assert (Hr : trimStart (rev (trimStart s)) = []).
    { destruct (trimStart (rev (trimStart s))) as [|c r] eqn:E; [reflexivity | ].
      simpl in H. destruct (rev r); discriminate. }
    apply trimStart_blank in Hr. unfold blank in Hr.
    apply Forall_rev in Hr. rewrite rev_involutive in Hr.
    pose proof (trimStart_head s) as Hh.
    destruct (trimStart s) as [|c t] eqn:E.
    + apply trimStart_blank; assumption.
    + inversion Hr; congruence.
  - intros H. apply trimStart_blank in H. rewrite H. reflexivity.
Qed.

Lemma endsWith_spec (s suffix : jsstring) :
  endsWith s suffix = true <-> exists stem, s = stem ++ suffix.
Proof.
  unfold endsWith. rewrite andb_true_iff, Nat.leb_le, str_eqb_eq. split.
  - intros [Hl Hd]. exists (take (length s - length suffix) s).
    transitivity (take (length s - length suffix) s
                  ++ drop (length s - length suffix) s).
    + symmetry. apply take_drop.
    + f_equal. exact Hd.
  - intros [stem ->]. rewrite length_app. split; [lia | ].
    replace (length stem + length suffix - length suffix)%nat
      with (length stem) by lia.
    apply drop_app_length.
Qed.

End StringFacts.

(* ================================================================== *)
(** * The application state machine (App.tsx, FileUpload.tsx)          *)
(* ================================================================== *)

Section AppFacts.
Import Js App.

Lemma handleSummarize_blank (st : state) :
  blank (transcript st) ->
  handleSummarize st = (setError (Some emptyTranscript) st, None).
Proof.
  intros H. unfold handleSummarize.
  apply trim_blank in H. rewrite H. reflexivity.
Qed.

Lemma handleSummarize_visible (st : state) :
  ~ blank (transcript st) ->
  handleSummarize st =
    (setSummaryResult None (setError None (setIsLoading true st)),
     Some {| req_transcript := transcript st; req_title := meetingTitle st |}).
Proof.
  intros H. unfold handleSummarize.
  destruct (str_eqb (trim (transcript st)) []) eqn:E; [ | reflexivity].
  apply str_eqb_eq, trim_blank in E. contradiction.
Qed.

Lemma blank_dec (s : jsstring) : blank s \/ ~ blank s.
Proof.
  destruct (str_eqb (trim s) []) eqn:E.
  - left. apply trim_blank, str_eqb_eq, E.
  - right. intros H. apply trim_blank in H. rewrite H in E. discriminate.
Qed.

(** The gateway either returns a value or fails with its one fixed error. *)
Lemma summarizeTranscript_outcome (reply : Gemini.summaryReply) :
  (exists r, Gemini.summarizeTranscript reply = Ok r)
  \/ Gemini.summarizeTranscript reply = Throw (Error Gemini.summaryFailure).
Proof.
  unfold Gemini.summarizeTranscript.
  destruct (Gemini.summarizeBody reply); [left; eexists; reflexivity | right; reflexivity].
Qed.

(** C2.  A transcript that is empty or all white space is rejected by
    [handleSummarize] itself: no request is issued to the gateway, whatever
    the gateway would have answered plays no part, the error cell holds the
    empty-transcript message, which is rendered, and the loading flag and
    every other cell are left as they were. *)
Theorem blank_transcript_rejected_locally (st : state) :
  blank (transcript st) ->
  snd (handleSummarize st) = None
  /\ fst (handleSummarize st) = setError (Some emptyTranscript) st
  /\ (forall reply, summarize reply st = setError (Some emptyTranscript) st)
  /\ shownError (fst (handleSummarize st)) = Some emptyTranscript
  /\ isLoading (fst (handleSummarize st)) = isLoading st
  /\ summaryResult (fst (handleSummarize st)) = summaryResult st
  /\ transcript (fst (handleSummarize st)) = transcript st.
Proof.
  intros H. pose proof (handleSummarize_blank st H) as E.
  unfold summarize. rewrite E. simpl. repeat split; reflexivity.
Qed.

Lemma blank_transcript_rejected_locally_witness :
  let st := setTranscript [32; 10; 9; 160; 8195] initial in
  blank (transcript st)
  /\ snd (handleSummarize st) = None
  /\ isLoading (fst (handleSummarize st)) = false.
Proof.
  assert (H : blank (transcript (setTranscript [32; 10; 9; 160; 8195] initial))).
  { simpl. repeat constructor. }
  split; [exact H | ].
  destruct (blank_transcript_rejected_locally _ H) as (H1 & _ & _ & _ & H5 & _).
  split; [exact H1 | exact H5].
Defined.

(** C9.  [handleFile] followed by the [handleFileUpload] it is mounted with:
    a file of MIME type [text/plain] or with a name ending in [.vtt] puts the
    text read from it in the transcript, its name in the file name, and
    clears result and error (when the reader fails to load, nothing is
    called); any other file raises the alert and leaves every cell of the
    state as it was. *)
Theorem upload_supported_or_rejected (f : FileUpload.file) (st : state) :
  (FileUpload.supported f /\
     match FileUpload.file_text f with
     | Some content =>
         snd (upload f st) = None
         /\ transcript (fst (upload f st)) = content
         /\ fileName (fst (upload f st)) = FileUpload.file_name f
         /\ summaryResult (fst (upload f st)) = None
         /\ error (fst (upload f st)) = None
         /\ isLoading (fst (upload f st)) = isLoading st
         /\ activeInputTab (fst (upload f st)) = activeInputTab st
         /\ meetingTitle (fst (upload f st)) = meetingTitle st
     | None => upload f st = (st, None)
     end)
  \/ (~ FileUpload.supported f /\
       upload f st = (st, Some (lit "Please upload a valid .txt or .vtt file."))).
Proof.
  unfold upload, FileUpload.handleFile.
  destruct (FileUpload.accepted f) eqn:E; unfold FileUpload.accepted in E.
  - left. split.
    + apply orb_true_iff in E. destruct E as [E | E].
      * left. apply str_eqb_eq, E.
      * right. apply endsWith_spec, E.
    + destruct (FileUpload.file_text f); simpl; repeat split; reflexivity.
  - right. apply orb_false_iff in E. destruct E as [E1 E2]. split; [ | reflexivity].
    intros [H | H].
    + apply str_eqb_eq in H. congruence.
    + apply endsWith_spec in H. congruence.
Qed.

(** C1, as stated, fails: with a result on display and a transcript to
    summarize, a failing gateway call leaves the result cell empty, not
    untouched. *)
Lemma failed_summary_clears_prior_result :
  let prior := VObj [(lit "title", VStr (lit "Weekly sync"))] in
  let st := setSummaryResult (Some prior) (setTranscript (lit "We ship Friday.") initial) in
  ~ succeedsOrKeepsPrior (Gemini.CallRejected NotAnError) st.
Proof.
  intros prior st [[r [H _]] | [H _]].
  - vm_compute in H. discriminate.
  - vm_compute in H. discriminate.
Qed.

(** C1, amended.  One run of summarization ends in exactly one of three
    ways.  A blank transcript is rejected before anything is changed but the
    error cell, so the prior result stays.  Otherwise the prior result is
    cleared as the request goes out; when the gateway returns, the result
    cell holds the returned value whole and no error; when the gateway
    fails, the result cell stays cleared, the gateway's message is shown and
    no result is rendered.  In every case loading has ended, and the result
    cell holds the prior value, nothing, or the gateway's whole value. *)
Theorem summarize_replaces_or_clears (reply : Gemini.summaryReply) (st : state) :
  let st' := summarize reply st in
  (blank (transcript st) /\ st' = setError (Some emptyTranscript) st
   /\ summaryResult st' = summaryResult st
   /\ shownError st' = Some emptyTranscript)
  \/ (~ blank (transcript st) /\
      exists r, Gemini.summarizeTranscript reply = Ok r
                /\ summaryResult st' = Some r
                /\ error st' = None /\ isLoading st' = false)
  \/ (~ blank (transcript st) /\
      Gemini.summarizeTranscript reply = Throw (Error Gemini.summaryFailure)
      /\ summaryResult st' = None
      /\ shownError st' = Some Gemini.summaryFailure
      /\ shownResult st' = None /\ isLoading st' = false).
Proof.
  intros st'. subst st'. destruct (blank_dec (transcript st)) as [Hb | Hb].
  - left. unfold summarize. rewrite (handleSummarize_blank st Hb).
    repeat split; try assumption; reflexivity.
  - right. unfold summarize. rewrite (handleSummarize_visible st Hb).
    destruct (summarizeTranscript_outcome reply) as [[r Hr] | Hf].
    + left. split; [assumption | ]. exists r. rewrite Hr. simpl.
      repeat split; reflexivity.
    + right. split; [assumption | ]. rewrite Hf. simpl.
      repeat split; reflexivity.
Qed.

End AppFacts.

(* ================================================================== *)
(** * The result view: priority filter (ResultDisplay.tsx)             *)
(* ================================================================== *)

Section FilterFacts.
Import Js ResultDisplay.
Context {A : Type} (keep : A -> bool).

Lemma Array_filter_sublist (items : list A) :
  Array_filter keep items `sublist_of` items.
Proof.
  induction items as [|x items IH]; simpl; [constructor | ].
  destruct (keep x); [apply sublist_skip | apply sublist_cons]; exact IH.
Qed.

Lemma Array_filter_keeps (items : list A) :
  Forall (fun x => keep x = true) (Array_filter keep items).
Proof.
  induction items as [|x items IH]; simpl; [constructor | ].
  destruct (keep x) eqn:E; [constructor; assumption | exact IH].
Qed.

Lemma Array_filter_greatest (items chosen : list A) :
  chosen `sublist_of` items ->
  Forall (fun x => keep x = true) chosen ->
  chosen `sublist_of` Array_filter keep items.
Proof.
  induction 1 as [ | x l1 l2 Hs IH | x l1 l2 Hs IH]; intros Hall; simpl.
  - constructor.
  - inversion Hall as [ | ? ? Hx Hrest]; subst. rewrite Hx.
    apply sublist_skip, IH, Hrest.
  - destruct (keep x); [apply sublist_cons | ]; apply IH, Hall.
Qed.

End FilterFacts.

Section ViewFacts.
Import Js ResultDisplay.

(** C5.  With the filter on [All] the items shown are the action items of
    the result, unchanged.  With the filter on a priority [p] they are taken
    from the full list of the result: they form a subsequence of it (so the
    original order is kept), each has priority [p], and every subsequence of
    the full list made of items of priority [p] is contained in them (so
    none is left out). *)
Theorem filter_selects_priority_in_order (result : SummaryResult) :
  filteredActionItems result All = actionItems result
  /\ forall p : Priority,
       let shown := filteredActionItems result (Only p) in
       shown `sublist_of` actionItems result
       /\ Forall (fun item => priority item = priorityName p) shown
       /\ (forall chosen,
             chosen `sublist_of` actionItems result ->
             Forall (fun item => priority item = priorityName p) chosen ->
             chosen `sublist_of` shown).
Proof.
  split; [reflexivity | ]. intros p shown. subst shown. simpl.
  split; [apply Array_filter_sublist | ]. split.
  - eapply Forall_impl; [apply Array_filter_keeps | ].
    intros item H. apply str_eqb_eq, H.
  - intros chosen Hs Hall. apply Array_filter_greatest; [exact Hs | ].
    eapply Forall_impl; [exact Hall | ].
    intros item H. apply str_eqb_eq, H.
Qed.

End ViewFacts.

(* ================================================================== *)
(** * Audio decoding and the playback state machine                    *)
(* ================================================================== *)

Section DecodeFacts.
Import Js ResultDisplay.
Variable engineMessage : engineFault -> jsstring.
Variable engineAccepts : nat -> nat -> Z -> bool.

Lemma toInt16_range (n : Z) : -32768 <= toInt16 n <= 32767.
Proof.
  unfold toInt16. pose proof (Z.mod_pos_bound n 65536 eq_refl) as H.
  destruct (n mod 65536 <? 32768) eqn:E; [apply Z.ltb_lt in E | apply Z.ltb_ge in E]; lia.
Qed.

(** Induction over a list two elements at a time. *)
Lemma pairwise_ind (P : list Z -> Prop) :
  P [] -> (forall x, P [x]) -> (forall x y l, P l -> P (x :: y :: l)) ->
  forall l, P l.
Proof.
  intros H0 H1 H2 l.
  assert (H : P l /\ forall x, P (x :: l)).
  { induction l as [|y l [IHl IHx]]; [split; [exact H0 | exact H1] | ].
    split; [apply IHx | intros x; apply H2, IHl]. }
  exact (proj1 H).
Qed.

Lemma int16Elements_range (bytes : list Z) :
  Forall (fun s => -32768 <= s <= 32767) (int16Elements bytes).
Proof.
  induction bytes as [ | x | lo hi rest IH] using pairwise_ind; simpl;
    try constructor; [apply toInt16_range | exact IH].
Qed.

Lemma int16Elements_length (bytes : list Z) :
  length (int16Elements bytes) = (length bytes / 2)%nat.
Proof.
  induction bytes as [ | x | lo hi rest IH] using pairwise_ind; try reflexivity.
  cbn [int16Elements length]. rewrite IH.
  change (S (S (length rest))) with (1 * 2 + length rest)%nat.
  rewrite Nat.div_add_l by lia. reflexivity.
Qed.

Lemma nth_range (l : list Z) (i : nat) :
  Forall (fun s => -32768 <= s <= 32767) l ->
  -32768 <= nth i l 0 <= 32767.
Proof.
  intros H. revert i. induction H as [|x l Hx _ IH]; intros [|i]; simpl; try lia.
  apply IH.
Qed.

Lemma sample_unit (s : Z) : -32768 <= s <= 32767 -> unitSample (Qmake s 32768).
Proof.
  intros H. unfold unitSample, Qle; simpl. lia.
Qed.

Lemma channelSamples_unit (dataInt16 : list Z) (numChannels frames channel : nat) :
  Forall (fun s => -32768 <= s <= 32767) dataInt16 ->
  Forall unitSample (channelSamples dataInt16 numChannels frames channel).
Proof.
  intros H. unfold channelSamples. apply Forall_map, Forall_forall.
  intros i _. apply sample_unit, nth_range, H.
Qed.

(** Every sample kept in a channel is read from within [dataInt16]: no
    read falls outside the array. *)
Lemma channel_read_in_range (dataInt16 : list Z) (numChannels channel i : nat) :
  (channel < numChannels)%nat ->
  (i < length dataInt16 / numChannels)%nat ->
  (i * numChannels + channel < length dataInt16)%nat.
Proof.
  intros Hc Hi.
  pose proof (Nat.Div0.mul_div_le (length dataInt16) numChannels) as Hle.
  nia.
Qed.

Lemma int16Elements_nth (bytes : list Z) :
  forall k, (k < length bytes / 2)%nat ->
  nth k (int16Elements bytes) 0
  = toInt16 (nth (2 * k) bytes 0 + 256 * nth (2 * k + 1) bytes 0).
Proof.
  induction bytes as [ | x | lo hi rest IH] using pairwise_ind; intros k Hk.
  - simpl in Hk. lia.
  - simpl in Hk. lia.
  - change (length (lo :: hi :: rest)) with (1 * 2 + length rest)%nat in Hk.
    rewrite Nat.div_add_l in Hk by lia.
    destruct k as [|k].
    + reflexivity.
    + cbn [int16Elements nth]. rewrite IH by lia.
      replace (2 * S k)%nat with (S (S (2 * k))) by lia.
      replace (S (S (2 * k)) + 1)%nat with (S (S (2 * k + 1))) by lia.
      reflexivity.
Qed.

(** The two's-complement reading: a signed 16-bit number that differs from
    the pattern by a multiple of 2^16. *)
Lemma toInt16_congruent (n : Z) : (toInt16 n - n) mod 65536 = 0.
Proof.
  unfold toInt16. destruct (n mod 65536 <? 32768).
  - rewrite Zminus_mod, Z.mod_mod, Z.sub_diag by lia. reflexivity.
  - replace (n mod 65536 - 65536 - n) with (n mod 65536 - n + (-1) * 65536) by lia.
    rewrite Z.mod_add by lia.
    rewrite Zminus_mod, Z.mod_mod, Z.sub_diag by lia. reflexivity.
Qed.

(** C8.  Whatever bytes [decodeAudioData] is given, and for any sample rate
    and channel count, the buffer it returns has the channels asked for,
    each with one sample per whole frame of the payload, and at least one;
    sample [i] of channel [c] is the payload's 16-bit number [i n + c] ([n]
    the number of channels), read low byte first as a signed
    two's-complement number, divided by 32768.  So every sample of every
    channel is a signed 16-bit integer over 32768 and lies between -1 and
    1. *)
Theorem decoded_samples_in_unit_range
    (data : list Z) (sampleRate : Z) (numChannels : nat) (buffer : AudioBuffer) :
  decodeAudioData engineMessage engineAccepts data sampleRate numChannels = Ok buffer ->
  let frames := (length data / 2 / numChannels)%nat in
  (0 < numChannels)%nat /\ (0 < frames)%nat
  /\ length (buf_channels buffer) = numChannels
  /\ (forall c i, (c < numChannels)%nat -> (i < frames)%nat ->
        let k := (i * numChannels + c)%nat in
        let pattern := nth (2 * k) data 0 + 256 * nth (2 * k + 1) data 0 in
        length (nth c (buf_channels buffer) []) = frames
        /\ nth i (nth c (buf_channels buffer) []) (Qmake 0 1)
           = Qmake (toInt16 pattern) 32768
        /\ -32768 <= toInt16 pattern <= 32767
        /\ (toInt16 pattern - pattern) mod 65536 = 0)
  /\ Forall (Forall unitSample) (buf_channels buffer)
  /\ Forall (Forall (fun x => exists s, -32768 <= s <= 32767 /\ x = Qmake s 32768))
       (buf_channels buffer).
Proof.
  intros H frames. unfold decodeAudioData, Int16Array_of in H.
  destruct (Nat.even (length data)); [ | discriminate H].
  unfold mbind, result_bind, bind in H. cbv zeta in H.
  rewrite int16Elements_length in H. fold frames in H.
  destruct (createBufferRefuses engineAccepts numChannels frames sampleRate) eqn:Hc;
    [discriminate H | ].
  injection H as <-. cbn [buf_channels].
  unfold createBufferRefuses in Hc.
  apply orb_false_iff in Hc. destruct Hc as [Hc _].
  apply orb_false_iff in Hc. destruct Hc as [Hn Hf].
  apply Nat.eqb_neq in Hn, Hf.
  pose proof (int16Elements_range data) as Hr.
  split; [lia | ]. split; [unfold frames; lia | ].
  split; [rewrite length_map, length_seq; reflexivity | ].
  split; [ | split].
  - intros c i Hlt Hi. cbv zeta.
    rewrite (nth_indep _ [] (channelSamples (int16Elements data) numChannels frames 0))
      by (rewrite length_map, length_seq; exact Hlt).
    rewrite (map_nth (channelSamples (int16Elements data) numChannels frames)).
    rewrite seq_nth by exact Hlt. cbn [Nat.add].
    unfold channelSamples.
    split; [rewrite length_map, length_seq; reflexivity | ].
    split; [ | split; [apply toInt16_range | apply toInt16_congruent]].
    rewrite (nth_indep _ (Qmake 0 1)
               (Qmake (nth (0 * numChannels + c) (int16Elements data) 0) 32768))
      by (rewrite length_map, length_seq; exact Hi).
    rewrite (map_nth (fun i0 => Qmake (nth (i0 * numChannels + c) (int16Elements data) 0) 32768)).
    rewrite seq_nth by exact Hi. cbn [Nat.add].
    rewrite int16Elements_nth; [reflexivity | ].
    rewrite <- (int16Elements_length data).
    apply channel_read_in_range; [exact Hlt | ].
    rewrite int16Elements_length. exact Hi.
  - apply Forall_map, Forall_forall. intros ch _.
    apply channelSamples_unit, Hr.
  - apply Forall_map, Forall_forall. intros ch _.
    unfold channelSamples. apply Forall_map, Forall_forall. intros i _.
    eexists. split; [ | reflexivity]. apply nth_range, Hr.
Qed.

(** Within the ranges every engine supports, a buffer is returned for every
    even number of bytes that holds a whole frame. *)
Lemma decodeAudioData_required (data : list Z) (sampleRate : Z) (numChannels : nat) :
  Nat.even (length data) = true ->
  (0 < numChannels <= 32)%nat -> 8000 <= sampleRate <= 96000 ->
  (2 * numChannels <= length data)%nat ->
  exists buffer,
    decodeAudioData engineMessage engineAccepts data sampleRate numChannels = Ok buffer
    /\ buf_sampleRate buffer = sampleRate.
Proof.
  intros He Hn Hr Hd. unfold decodeAudioData, Int16Array_of. rewrite He.
  unfold mbind, result_bind, bind. cbv zeta. rewrite int16Elements_length.
  assert (E : createBufferRefuses engineAccepts numChannels
                (length data / 2 / numChannels) sampleRate = false).
  { unfold createBufferRefuses, inRequiredRanges.
    assert (H1 : (numChannels =? 0)%nat = false) by (apply Nat.eqb_neq; lia).
    assert (H2 : (length data / 2 / numChannels =? 0)%nat = false).
    { apply Nat.eqb_neq. rewrite Nat.Div0.div_div.
      intros H0. apply Nat.div_small_iff in H0; lia. }
    assert (H3 : (numChannels <=? 32)%nat = true) by (apply Nat.leb_le; lia).
    assert (H4 : (8000 <=? sampleRate) = true) by (apply Z.leb_le; lia).
    assert (H5 : (sampleRate <=? 96000) = true) by (apply Z.leb_le; lia).
    rewrite H1, H2, H3, H4, H5. reflexivity. }
  rewrite E. eexists. split; reflexivity.
Qed.

(** For the call site's parameters (one channel, 24 kHz) a buffer is
    returned for every even, non-zero number of bytes, with one sample per
    pair of bytes. *)
Lemma decodeAudioData_returns (data : list Z) :
  Nat.even (length data) = true -> data <> [] ->
  exists buffer,
    decodeAudioData engineMessage engineAccepts data 24000 1 = Ok buffer
    /\ buf_sampleRate buffer = 24000
    /\ exists samples, buf_channels buffer = [samples]
                       /\ length samples = (length data / 2)%nat.
Proof.
  intros He Hne. unfold decodeAudioData, Int16Array_of. rewrite He.
  unfold mbind, result_bind, bind. cbv zeta.
  rewrite Nat.div_1_r, int16Elements_length.
  assert (E : (length data / 2 =? 0)%nat = false).
  { apply Nat.eqb_neq. destruct data as [|a [|b rest]]; try congruence.
    - discriminate He.
    - change (length (a :: b :: rest)) with (1 * 2 + length rest)%nat.
      rewrite Nat.div_add_l by lia. lia. }
  unfold createBufferRefuses. rewrite E.
  change (inRequiredRanges 1 24000) with true. cbn [orb negb Nat.eqb].
  eexists. split; [reflexivity | ]. split; [reflexivity | ].
  eexists. split; [reflexivity | ].
  unfold channelSamples. rewrite length_map, length_seq. reflexivity.
Qed.

End DecodeFacts.

Lemma decoded_samples_in_unit_range_witness :
  exists buffer,
    ResultDisplay.decodeAudioData ResultDisplay.chromiumWording ResultDisplay.requiredOnly
      [0; 0; 255; 127; 0; 128; 1; 0] 24000 1 = Js.Ok buffer
    /\ ResultDisplay.buf_channels buffer
       = [[Qmake 0 32768; Qmake 32767 32768; Qmake (-32768) 32768; Qmake 1 32768]]
    /\ nth 2 (nth 0 (ResultDisplay.buf_channels buffer) []) (Qmake 0 1)
       = Qmake (ResultDisplay.toInt16 (0 + 256 * 128)) 32768
    /\ Forall (Forall ResultDisplay.unitSample) (ResultDisplay.buf_channels buffer).
Proof.
  eexists. split; [reflexivity | ]. split; [reflexivity | ].
  destruct (decoded_samples_in_unit_range ResultDisplay.chromiumWording
              ResultDisplay.requiredOnly
              [0; 0; 255; 127; 0; 128; 1; 0] 24000 1 _ eq_refl)
    as (_ & _ & _ & Hs & Hu & _).
  split; [ | exact Hu].
  exact (proj1 (proj2 (Hs 0%nat 2%nat ltac:(lia) ltac:(simpl; lia)))).
Defined.

Section PlaybackFacts.
Import Js ResultDisplay.
Variable engineMessage : engineFault -> jsstring.
Variable engineAccepts : nat -> nat -> Z -> bool.





(** When the [try] block throws, the state is [idle] and the error cell
    holds the message of what was thrown. *)
Lemma settled_after_throw (h : host) (st st1 : player) (e : exn) :
  playbackAttempt engineMessage engineAccepts h st = (Throw e, st1) ->
  audioState (handleToggleAudio_settled engineMessage engineAccepts h st) = Idle
  /\ ttsError (handleToggleAudio_settled engineMessage engineAccepts h st)
     = Some (App.catchMessage audioFailure e).
Proof.
  intros H. unfold handleToggleAudio_settled. rewrite H.
  split; reflexivity.
Qed.

Lemma settled_never_loading (h : host) (st : player) :
  audioState (handleToggleAudio_settled engineMessage engineAccepts h st) <> Loading.
Proof.
  unfold handleToggleAudio_settled.
  destruct (playbackAttempt engineMessage engineAccepts h st) as [[u | e] st1]; simpl; discriminate.
Qed.

(** With the payload received and a context that can be made ready, the
    first part of the [try] block goes through. *)
Lemma prepare_ready (h : host) (st : player) (base64Audio : jsstring) :
  Gemini.generateSpeech (speech h) = Ok base64Audio ->
  contextReady h st ->
  exists st1, prepare h st = (Ok base64Audio, st1).
Proof.
  intros Hs Hc. unfold prepare, mbind, action_bind, lift, ensureContext,
    resumeIfSuspended. rewrite Hs. unfold contextReady in Hc.
  destruct (audioContextRef st) as [[ | ] | ].
  - rewrite Hc. eexists; reflexivity.
  - eexists; reflexivity.
  - destruct Hc as [Hc | [Hc Hr]].
    + rewrite Hc. eexists; reflexivity.
    + rewrite Hc, Hr. eexists; reflexivity.
Qed.

(** Every listed failure makes the [try] block throw its exception. *)
Lemma failure_throws (h : host) (st : player) (e : exn) :
  playbackFailure engineMessage engineAccepts h st e ->
  exists st1, playbackAttempt engineMessage engineAccepts h st = (Throw e, st1).
Proof.
  intros Hf. unfold playbackAttempt.
  destruct Hf as [e Hs | b e Hs Hc Hn | b e Hs Hc Hr | b e Hs Hc Ho
                  | b e Hs Hc Ho Hd | b bytes e Hs Hc Ho Hd Hb
                  | b bytes buffer e Hs Hc Ho Hd Hb Hn
                  | b bytes buffer e Hs Hc Ho Hd Hb Hn Hst].
  - unfold prepare, mbind, action_bind, lift. rewrite Hs. eexists; reflexivity.
  - unfold prepare, mbind, action_bind, lift, ensureContext.
    rewrite Hs, Hc, Hn. eexists; reflexivity.
  - unfold prepare, mbind, action_bind, lift, ensureContext, resumeIfSuspended.
    rewrite Hs. destruct Hc as [Hc | [Hc Hn]].
    + rewrite Hc, Hr. eexists; reflexivity.
    + rewrite Hc, Hn, Hr. eexists; reflexivity.
  - destruct (prepare_ready h st b Hs Hc) as [st1 Hp].
    unfold mbind, action_bind at 1. rewrite Hp.
    unfold play, mbind, action_bind, browserCall. rewrite Ho. eexists; reflexivity.
  - destruct (prepare_ready h st b Hs Hc) as [st1 Hp].
    unfold mbind, action_bind at 1. rewrite Hp.
    unfold play, mbind, action_bind, browserCall, lift. rewrite Ho, Hd.
    eexists; reflexivity.
  - destruct (prepare_ready h st b Hs Hc) as [st1 Hp].
    unfold mbind, action_bind at 1. rewrite Hp.
    unfold play, mbind, action_bind, browserCall, lift. rewrite Ho, Hd, Hb.
    eexists; reflexivity.
  - destruct (prepare_ready h st b Hs Hc) as [st1 Hp].
    unfold mbind, action_bind at 1. rewrite Hp.
    unfold play, mbind, action_bind, browserCall, lift. rewrite Ho, Hd, Hb, Hn.
    eexists; reflexivity.
  - destruct (prepare_ready h st b Hs Hc) as [st1 Hp].
    unfold mbind, action_bind at 1. rewrite Hp.
    unfold play, mbind, action_bind, browserCall, lift, attachSource.
    rewrite Ho, Hd, Hb, Hn, Hst. eexists; reflexivity.
Qed.

Lemma generateSpeech_outcome (reply : Gemini.speechReply) :
  (exists a, Gemini.generateSpeech reply = Ok a /\ a <> [])
  \/ Gemini.generateSpeech reply = Throw (Error Gemini.speechFailure).
Proof.
  unfold Gemini.generateSpeech, Gemini.generateSpeechBody.
  destruct reply as [e | [a | ]]; try (right; reflexivity).
  destruct (str_eqb a []) eqn:E; [right; reflexivity | ].
  left. exists a. split; [reflexivity | apply str_eqb_neq, E].
Qed.

(** C7.  Whichever step fails between the synthesis request and the start
    of playback (the request itself, the audio context, the base64 decoding,
    the sample buffer, the audio nodes), once the handler has run to its end
    the state is [idle], not [loading], the error cell holds the message of
    the exception (the fallback text for a thrown non-error), and that
    message is rendered unless it is the empty string.  A failed synthesis
    request always shows the gateway's fixed message.  After the handler has
    run to its end the state is never [loading], failure or not. *)
Theorem playback_failure_returns_to_idle (h : host) (st : player) (e : exn) :
  playbackFailure engineMessage engineAccepts h st e ->
  let st' := handleToggleAudio_settled engineMessage engineAccepts h st in
  audioState st' = Idle
  /\ audioState st' <> Loading
  /\ ttsError st' = Some (App.catchMessage audioFailure e)
  /\ (App.catchMessage audioFailure e <> [] ->
      shownTtsError st' = Some (App.catchMessage audioFailure e))
  /\ (forall e', Gemini.generateSpeech (speech h) = Throw e' ->
      shownTtsError st' = Some Gemini.speechFailure)
  /\ (forall h0 st0,
      audioState (handleToggleAudio_settled engineMessage engineAccepts h0 st0) <> Loading).
Proof.
  intros Hf st'. destruct (failure_throws h st e Hf) as (st1 & Ht).
  destruct (settled_after_throw h st st1 e Ht) as (Ha & Hm).
  subst st'. repeat split.
  - exact Ha.
  - rewrite Ha. discriminate.
  - exact Hm.
  - intros Hne. unfold shownTtsError. rewrite Hm.
    destruct (str_eqb (App.catchMessage audioFailure e) []) eqn:E;
      [apply str_eqb_eq in E; contradiction | reflexivity].
  - intros e' He'.
    unfold handleToggleAudio_settled, playbackAttempt, prepare, mbind,
      action_bind, lift.
    destruct (generateSpeech_outcome (speech h)) as [[a [Hok _]] | Hthrow];
      [congruence | ].
    rewrite Hthrow. reflexivity.
  - apply settled_never_loading.
Qed.

(** Without a failure the handler ends in [playing], the decoded buffer
    attached as the source. *)
Lemma playback_success (h : host) (st : player)
    (base64Audio : jsstring) (bytes : list Z) (buffer : AudioBuffer) :
  Gemini.generateSpeech (speech h) = Ok base64Audio ->
  contextReady h st ->
  outputNode h = None ->
  decode engineMessage base64Audio = Ok bytes ->
  decodeAudioData engineMessage engineAccepts bytes 24000 1 = Ok buffer ->
  sourceNode h = None ->
  start h = None ->
  audioState (handleToggleAudio_settled engineMessage engineAccepts h st) = Playing
  /\ audioSourceRef (handleToggleAudio_settled engineMessage engineAccepts h st) = Some buffer.
Proof.
  intros Hs Hc Ho Hd Hb Hn Hst.
  destruct (prepare_ready h st base64Audio Hs Hc) as [st1 Hp].
  assert (E : handleToggleAudio_settled engineMessage engineAccepts h st
              = setAudioState Playing (setSource (Some buffer) st1)).
  { unfold handleToggleAudio_settled, playbackAttempt.
    unfold mbind, action_bind at 1. rewrite Hp.
    unfold play, mbind, action_bind, browserCall, lift, attachSource.
    rewrite Ho, Hd, Hb, Hn, Hst. reflexivity. }
  rewrite E. split; reflexivity.
Qed.

End PlaybackFacts.

Lemma playback_failure_returns_to_idle_witness :
  let h := {| ResultDisplay.speech := Gemini.SpeechReplied (Some (Js.lit "AAD/fwCAAQ=="));
              ResultDisplay.newContext := Js.Ok ResultDisplay.Suspended;
              ResultDisplay.resume := None;
              ResultDisplay.outputNode := None;
              ResultDisplay.sourceNode := None;
              ResultDisplay.start := None |} in
  let st := ResultDisplay.handleToggleAudio ResultDisplay.Idle
              (Js.lit "Summary: shipping on Friday") ResultDisplay.initialPlayer in
  let e := Js.Error (ResultDisplay.chromiumWording ResultDisplay.OddByteLength) in
  ResultDisplay.playbackFailure ResultDisplay.chromiumWording ResultDisplay.requiredOnly h st e
  /\ ResultDisplay.audioState
       (ResultDisplay.handleToggleAudio_settled ResultDisplay.chromiumWording ResultDisplay.requiredOnly h st)
     = ResultDisplay.Idle.
Proof.
  intros h st e.
  assert (H : ResultDisplay.playbackFailure ResultDisplay.chromiumWording ResultDisplay.requiredOnly h st e).
  { eapply ResultDisplay.BufferFails.
    - reflexivity.
    - simpl. right. split; reflexivity.
    - reflexivity.
    - reflexivity.
    - reflexivity. }
  split; [exact H | ].
  exact (proj1 (playback_failure_returns_to_idle ResultDisplay.chromiumWording
                  ResultDisplay.requiredOnly h st e H)).
Defined.


(* ================================================================== *)
(** * The gateway (geminiService.ts)                                   *)
(* ================================================================== *)

Section GatewayFacts.
Import Js Gemini.

Lemma lookup_store (k k' : jsstring) (x : value) (ps : list (jsstring * value)) :
  lookup_prop k (store_prop k' x ps)
  = if str_eqb k k' then Some x else lookup_prop k ps.
Proof.
  induction ps as [|[k0 v0] ps IH]; simpl.
  - destruct (str_eqb k k'); reflexivity.
  - destruct (str_eqb k' k0) eqn:E0; simpl.
    + apply str_eqb_eq in E0. subst k0.
      destruct (str_eqb k k'); reflexivity.
    + rewrite IH. destruct (str_eqb k k0) eqn:E1; [ | reflexivity].
      apply str_eqb_eq in E1. subst k0.
      destruct (str_eqb k k') eqn:E2; [ | reflexivity].
      apply str_eqb_eq in E2. subst k'. rewrite str_eqb_refl in E0. discriminate.
Qed.

Lemma lookup_store_eq (k : jsstring) (x : value) (ps : list (jsstring * value)) :
  lookup_prop k (store_prop k x ps) = Some x.
Proof. rewrite lookup_store, str_eqb_refl. reflexivity. Qed.

Lemma lookup_store_ne (k k' : jsstring) (x : value) (ps : list (jsstring * value)) :
  k <> k' -> lookup_prop k (store_prop k' x ps) = lookup_prop k ps.
Proof.
  intros H. rewrite lookup_store. apply str_eqb_neq in H. rewrite H. reflexivity.
Qed.

(** Writing back what a property already holds changes nothing. *)
Lemma store_same (k : jsstring) (x : value) (ps : list (jsstring * value)) :
  lookup_prop k ps = Some x -> store_prop k x ps = ps.
Proof.
  induction ps as [|[k0 v0] ps IH]; simpl; [discriminate | ].
  destruct (str_eqb k k0) eqn:E.
  - apply str_eqb_eq in E. subst k0. intros [= ->]. reflexivity.
  - intros H. rewrite IH by exact H. reflexivity.
Qed.

Lemma sameObject_refl (v : value) : isObject v = true -> sameObject v v.
Proof. destruct v; simpl; try discriminate; auto. Qed.

Lemma fillItem_object (item : value) :
  isObject item = true ->
  exists item', fillItem item = Ok item' /\ filledItem item item'.
Proof.
  assert (Hne : lit "dueDate" <> lit "priority") by (vm_compute; discriminate).
  intros Hobj. unfold fillItem, filledItem.
  destruct item as [ | | | | es ps | ps]; try discriminate Hobj;
    unfold getProp, setProp, mbind, result_bind, bind; simpl props;
    destruct (truthy_opt (lookup_prop (lit "priority") ps)) eqn:Hp; simpl negb; cbv iota;
    try rewrite (lookup_store_ne _ _ _ _ Hne);
    destruct (lookup_prop (lit "dueDate") ps) as [d | ] eqn:Hd;
    eexists; (split; [reflexivity | ]); simpl props; simpl sameObject;
    repeat split;
    repeat first
      [ rewrite lookup_store_eq
      | rewrite lookup_store_ne by (try assumption; vm_compute; discriminate) ];
    try assumption; try reflexivity; intros; 
    repeat rewrite lookup_store_ne by assumption; reflexivity.
Qed.

Lemma fillItem_primitive (item : value) :
  isObject item = false -> exists e, fillItem item = Throw e.
Proof.
  intros H. destruct item; try discriminate H; eexists; reflexivity.
Qed.

Lemma forEachItem_objects (es : list value) :
  forallb isObject es = true ->
  exists es', forEachItem fillItem es = Ok es' /\ Forall2 filledItem es es'.
Proof.
  induction es as [|item es IH]; simpl.
  - intros _. exists []. split; [reflexivity | constructor].
  - rewrite andb_true_iff. intros [Hi Hes].
    destruct (fillItem_object item Hi) as (item' & Hf & Hfi).
    destruct (IH Hes) as (es' & He & Hfe).
    exists (item' :: es'). unfold mbind, result_bind, bind in *.
    rewrite Hf, He. split; [reflexivity | constructor; assumption].
Qed.

Lemma forEachItem_primitive (es : list value) :
  forallb isObject es = false -> exists e, forEachItem fillItem es = Throw e.
Proof.
  induction es as [|item es IH]; simpl; [discriminate | ].
  unfold mbind, result_bind, bind in *.
  destruct (isObject item) eqn:Hi; simpl.
  - intros Hes. destruct (fillItem_object item Hi) as (item' & Hf & _).
    destruct (IH Hes) as (e & He). rewrite Hf, He. eexists; reflexivity.
  - intros _. destruct (fillItem_primitive item Hi) as (e & He).
    rewrite He. eexists; reflexivity.
Qed.

Lemma props_withProp (k : jsstring) (x v : value) :
  isObject v = true -> props (withProp k x v) = store_prop k x (props v).
Proof. destruct v; simpl; try discriminate; reflexivity. Qed.

Lemma withProp_object (k : jsstring) (x v : value) :
  isObject v = true -> isObject (withProp k x v) = true /\ sameObject v (withProp k x v).
Proof. destruct v; simpl; try discriminate; auto. Qed.

Lemma getProp_object (k : jsstring) (v : value) :
  isObject v = true -> getProp k v = Ok (lookup_prop k (props v)).
Proof. destruct v; simpl; try discriminate; reflexivity. Qed.

Lemma setProp_object (k : jsstring) (x v : value) :
  isObject v = true -> setProp k x v = Ok (withProp k x v).
Proof. destruct v; simpl; try discriminate; reflexivity. Qed.

Lemma sameObject_trans (a b c : value) :
  sameObject a b -> sameObject b c -> sameObject a c.
Proof. destruct a, b, c; simpl; try contradiction; auto; congruence. Qed.

Lemma breakdownFallback_object (r1 : value) :
  isObject r1 = true ->
  exists r, breakdownFallback r1 = Ok r
    /\ sameObject r1 r
    /\ lookup_prop (lit "discussionBreakdown") (props r)
       = (if truthy_opt (lookup_prop (lit "discussionBreakdown") (props r1))
          then lookup_prop (lit "discussionBreakdown") (props r1)
          else Some (VArr [] []))
    /\ forall k, k <> lit "discussionBreakdown" ->
                 lookup_prop k (props r) = lookup_prop k (props r1).
Proof.
  intros Hobj. unfold breakdownFallback, mbind, result_bind, bind.
  rewrite (getProp_object _ _ Hobj).
  destruct (truthy_opt (lookup_prop (lit "discussionBreakdown") (props r1))) eqn:Hdb;
    simpl negb; cbv iota.
  - exists r1. repeat split; auto using sameObject_refl.
  - rewrite (setProp_object _ _ _ Hobj). eexists. split; [reflexivity | ].
    rewrite (props_withProp _ _ _ Hobj). split; [ | split].
    + apply withProp_object, Hobj.
    + apply lookup_store_eq.
    + intros k Hk. apply lookup_store_ne, Hk.
Qed.

Lemma breakdownFallback_primitive (r1 : value) :
  isObject r1 = false -> exists e, breakdownFallback r1 = Throw e.
Proof.
  intros H. destruct r1; try discriminate H; eexists; reflexivity.
Qed.

Lemma applyFallbacks_accepted (v : value) :
  accepts v = true -> exists r, applyFallbacks v = Ok r /\ filled v r.
Proof.
  assert (Hne : lit "discussionBreakdown" <> lit "actionItems")
    by (vm_compute; discriminate).
  unfold accepts. rewrite andb_true_iff. intros [Hobj Hai].
  unfold applyFallbacks, itemsFallback.
  unfold mbind at 1 2, result_bind, bind. rewrite (getProp_object _ _ Hobj).
  destruct (lookup_prop (lit "actionItems") (props v)) as [xs | ] eqn:Hxs.
  - destruct (truthy xs) eqn:Ht.
    + destruct xs as [ | | | | es ps | ]; try discriminate Hai.
      unfold callForEach.
      destruct (lookup_prop (lit "forEach") ps); [discriminate Hai | ].
      destruct (forEachItem_objects es Hai) as (es' & Hes & Hfill).
      unfold mbind at 1 2, result_bind, bind. rewrite Hes.
      destruct (withProp_object (lit "actionItems") (VArr es' ps) v Hobj) as [Hobj' Hsame].
      destruct (breakdownFallback_object _ Hobj') as (r & Hr & Hs & Hdb & Hother).
      exists r. split; [exact Hr | ]. unfold filled.
      rewrite (props_withProp _ _ _ Hobj) in Hdb, Hother.
      rewrite Hxs. repeat split.
      * exact (sameObject_trans _ _ _ Hsame Hs).
      * exists es'. split; [ | exact Hfill].
        rewrite Hother by (intros E; symmetry in E; contradiction).
        apply lookup_store_eq.
      * rewrite Hdb. rewrite !(lookup_store_ne _ _ _ _ Hne). reflexivity.
      * intros k Hk1 Hk2. rewrite (Hother k Hk2). apply lookup_store_ne, Hk1.
    + destruct (breakdownFallback_object _ Hobj) as (r & Hr & Hs & Hdb & Hother).
      exists r. split; [exact Hr | ]. unfold filled. rewrite Hxs. repeat split.
      * exact Hs.
      * destruct xs; try discriminate Ht;
          rewrite Hother by (intros E; symmetry in E; contradiction); exact Hxs.
      * exact Hdb.
      * intros k _ Hk2. apply Hother, Hk2.
  - destruct (breakdownFallback_object _ Hobj) as (r & Hr & Hs & Hdb & Hother).
    exists r. split; [exact Hr | ]. unfold filled. rewrite Hxs. repeat split.
    + exact Hs.
    + rewrite Hother by (intros E; symmetry in E; contradiction). exact Hxs.
    + exact Hdb.
    + intros k _ Hk2. apply Hother, Hk2.
Qed.

Lemma applyFallbacks_refused (v : value) :
  accepts v = false -> exists e, applyFallbacks v = Throw e.
Proof.
  unfold accepts. destruct (isObject v) eqn:Hobj; simpl andb.
  - intros Hai. unfold applyFallbacks, itemsFallback.
    unfold mbind at 1 2, result_bind, bind. rewrite (getProp_object _ _ Hobj).
    destruct (lookup_prop (lit "actionItems") (props v)) as [xs | ]; [ | discriminate].
    destruct (truthy xs); [ | discriminate].
    unfold callForEach.
    destruct xs as [ | | | | es ps | ]; try (eexists; reflexivity).
    destruct (lookup_prop (lit "forEach") ps); [eexists; reflexivity | ].
    destruct (forEachItem_primitive es Hai) as (e & He).
    unfold mbind at 1 2, result_bind, bind. rewrite He. eexists; reflexivity.
  - intros _. destruct v; try discriminate Hobj; eexists; reflexivity.
Qed.

Ltac split_andb :=
  repeat match goal with
         | H : _ && _ = true |- _ => apply andb_true_iff in H; destruct H
         end.

Lemma conforms_response (v : value) :
  conforms responseSchema v = true ->
  exists ps es dbs,
    v = VObj ps
    /\ lookup_prop (lit "actionItems") ps = Some (VArr es [])
    /\ forallb (conforms actionItemSchema) es = true
    /\ lookup_prop (lit "discussionBreakdown") ps = Some (VArr dbs []).
Proof.
  destruct v as [ | | | | | ps]; try discriminate.
  unfold responseSchema. cbn [conforms forallb]. intros H. split_andb.
  destruct (lookup_prop (lit "actionItems") ps)
    as [[ | | | | es [|] | ] | ] eqn:Hai; try discriminate.
  destruct (lookup_prop (lit "discussionBreakdown") ps)
    as [[ | | | | dbs [|] | ] | ] eqn:Hdb; try discriminate.
  exists ps, es, dbs. repeat split; assumption.
Qed.

Lemma conforms_item (item : value) :
  conforms actionItemSchema item = true ->
  exists ps p d,
    item = VObj ps
    /\ lookup_prop (lit "priority") ps = Some (VStr p)
    /\ lookup_prop (lit "dueDate") ps = Some (VStr d).
Proof.
  destruct item as [ | | | | | ps]; try discriminate.
  unfold actionItemSchema. cbn [conforms forallb]. intros H. split_andb.
  destruct (lookup_prop (lit "priority") ps) as [[ | | | p | | ] | ] eqn:Hp;
    try discriminate.
  destruct (lookup_prop (lit "dueDate") ps) as [[ | | | d | | ] | ] eqn:Hd;
    try discriminate.
  exists ps, p, d. repeat split; assumption.
Qed.

Lemma conforms_accepts (v : value) :
  conforms responseSchema v = true -> accepts v = true.
Proof.
  intros H. destruct (conforms_response v H) as (ps & es & dbs & -> & Hai & Hes & _).
  unfold accepts. simpl isObject. simpl props. rewrite Hai. simpl.
  rewrite forallb_forall in *. intros item Hin.
  destruct (conforms_item item (Hes item Hin)) as (ips & _ & _ & -> & _).
  reflexivity.
Qed.

(** An item the fallbacks leave as it is. *)
Lemma fillItem_same (item : value) :
  isObject item = true ->
  truthy_opt (lookup_prop (lit "priority") (props item)) = true ->
  lookup_prop (lit "dueDate") (props item) <> None ->
  fillItem item = Ok item.
Proof.
  intros Hobj Hp Hd. unfold fillItem, mbind, result_bind, bind.
  rewrite (getProp_object _ _ Hobj), Hp. simpl negb. cbv iota.
  rewrite (getProp_object _ _ Hobj).
  destruct (lookup_prop (lit "dueDate") (props item)); [reflexivity | contradiction].
Qed.

Lemma forEachItem_same (es : list value) :
  Forall (fun item => fillItem item = Ok item) es ->
  forEachItem fillItem es = Ok es.
Proof.
  induction 1 as [|item es Hi _ IH]; simpl; [reflexivity | ].
  unfold mbind, result_bind, bind in *. rewrite Hi, IH. reflexivity.
Qed.

Lemma withProp_same (k : jsstring) (x v : value) :
  lookup_prop k (props v) = Some x -> withProp k x v = v.
Proof.
  destruct v; simpl; try reflexivity; intros H; rewrite (store_same _ _ _ H); reflexivity.
Qed.

Lemma conformant_unchanged (v : value) :
  conforms responseSchema v = true ->
  (forall es ps, lookup_prop (lit "actionItems") (props v) = Some (VArr es ps) ->
     Forall (fun item => lookup_prop (lit "priority") (props item) <> Some (VStr [])) es) ->
  summarizeTranscript (TextParsed v) = Ok v.
Proof.
  intros H Hprio.
  destruct (conforms_response v H) as (ps & es & dbs & -> & Hai & Hes & Hdb).
  specialize (Hprio es [] Hai).
  unfold summarizeTranscript, summarizeBody, applyFallbacks, itemsFallback.
  unfold mbind at 1 2, result_bind, bind. simpl getProp. rewrite Hai. simpl truthy. cbv iota.
  unfold callForEach. simpl lookup_prop.
  rewrite forEachItem_same.
  - unfold mbind, result_bind, bind. rewrite (withProp_same (lit "actionItems") (VArr es []) (VObj ps) Hai).
    unfold breakdownFallback, mbind, result_bind, bind. simpl getProp. rewrite Hdb.
    reflexivity.
  - rewrite forallb_forall in Hes. rewrite Forall_forall in *. intros item Hin.
    destruct (conforms_item item (Hes item (proj1 (list_elem_of_In _ _) Hin)))
      as (ips & p & d & -> & Hp & Hd).
    apply fillItem_same; simpl props; [reflexivity | | congruence].
    rewrite Hp. simpl. specialize (Hprio _ Hin). simpl in Hprio. rewrite Hp in Hprio.
    destruct p; [congruence | reflexivity].
Qed.

(** The sample response has the shape the schema asks for. *)
Lemma fridayResponse_conforms : conforms responseSchema fridayResponse = true.
Proof. reflexivity. Qed.

(** C3, as stated, fails: a response that lacks four of the five required
    properties of the schema is returned, with an empty breakdown added. *)
Lemma partial_response_returned :
  ~ rejectsViolation (VObj [(lit "title", VStr (lit "Weekly sync"))]).
Proof.
  intros H. destruct H as [e He]; [reflexivity | ].
  vm_compute in He. discriminate.
Qed.

(** C3, amended.  [summarizeTranscript] fails, always with the one fixed
    error, when the request is rejected, the response has no text, the text
    is not JSON, or the parsed value is not accepted: it is [null] or a
    primitive, or its [actionItems] is truthy but not an array of objects.
    Every other parsed value is returned, conforming to the schema or not,
    with exactly the three fallbacks applied and every other property as
    parsed.  A response that conforms to the schema is accepted, and is
    returned unchanged when none of its priorities is the empty string. *)
Theorem summarize_fails_or_fills (reply : summaryReply) :
  (match reply with
   | TextParsed v =>
       if accepts v
       then exists r, summarizeTranscript reply = Ok r /\ filled v r
       else summarizeTranscript reply = Throw (Error summaryFailure)
   | _ => summarizeTranscript reply = Throw (Error summaryFailure)
   end)
  /\ (forall v, reply = TextParsed v -> conforms responseSchema v = true ->
      accepts v = true
      /\ ((forall es ps,
             lookup_prop (lit "actionItems") (props v) = Some (VArr es ps) ->
             Forall (fun item =>
                       lookup_prop (lit "priority") (props item) <> Some (VStr [])) es) ->
          summarizeTranscript reply = Ok v)).
Proof.
  split.
  - destruct reply as [e | | | v]; try reflexivity.
    unfold summarizeTranscript, summarizeBody.
    destruct (accepts v) eqn:Ha.
    + destruct (applyFallbacks_accepted v Ha) as (r & Hr & Hf).
      exists r. rewrite Hr. split; [reflexivity | exact Hf].
    + destruct (applyFallbacks_refused v Ha) as (e & He). rewrite He. reflexivity.
  - intros v -> Hc. split; [apply conforms_accepts, Hc | ].
    apply conformant_unchanged, Hc.
Qed.

Lemma summarize_returns_filled (reply : summaryReply) (r : value) :
  summarizeTranscript reply = Ok r ->
  exists v, reply = TextParsed v /\ accepts v = true /\ filled v r.
Proof.
  intros H. destruct reply as [e | | | v]; try discriminate H.
  exists v. unfold summarizeTranscript, summarizeBody in H.
  destruct (accepts v) eqn:Ha.
  - destruct (applyFallbacks_accepted v Ha) as (r' & Hr & Hf).
    rewrite Hr in H. injection H as <-.
    split; [reflexivity | split; [reflexivity | exact Hf]].
  - destruct (applyFallbacks_refused v Ha) as (e & He). rewrite He in H. discriminate.
Qed.

Lemma filledItem_filledOut (item item' : value) :
  filledItem item item' -> filledOut item'.
Proof.
  intros (_ & Hp & Hd & _). unfold filledOut.
  assert (Ht : truthy_opt (lookup_prop (lit "priority") (props item')) = true).
  { rewrite Hp.
    destruct (truthy_opt (lookup_prop (lit "priority") (props item))) eqn:E;
      [exact E | reflexivity]. }
  split; [exact Ht | ]. split.
  - intros p Hl. rewrite Hl in Ht. simpl in Ht. intros ->. discriminate.
  - rewrite Hd. destruct (lookup_prop (lit "dueDate") (props item)); discriminate.
Qed.

(** C4, as stated, fails: the due date "Friday" of a response of the right
    shape comes back as it is, neither empty nor of the form YYYY-MM-DD. *)
Lemma unchecked_due_date_returned :
  ~ yieldsWellFormedItems (TextParsed fridayResponse).
Proof.
  intros H.
  pose proof (H fridayResponse _ _ eq_refl eq_refl) as Hall.
  apply Forall_cons_1 in Hall. destruct Hall as [[_ (d & Hd & Hshape)] _].
  vm_compute in Hd. injection Hd as <-.
  destruct Hshape as [Hshape | Hshape]; vm_compute in Hshape; discriminate.
Qed.

(** C4, amended.  When [summarizeTranscript] returns a value whose
    [actionItems] is an array, the reply was a parsed value with an array of
    as many items at that property, and each returned item is the parsed one
    after the two item fallbacks: its priority is truthy, reading "Medium"
    where the parsed one was absent or falsy and the parsed value otherwise;
    its due date is present, reading the empty string where the parsed one
    was absent and the parsed value otherwise, whatever its form. *)
Theorem returned_items_filled
    (reply : summaryReply) (r : value) (es' : list value)
    (ps : list (jsstring * value)) :
  summarizeTranscript reply = Ok r ->
  lookup_prop (lit "actionItems") (props r) = Some (VArr es' ps) ->
  exists v es,
    reply = TextParsed v
    /\ lookup_prop (lit "actionItems") (props v) = Some (VArr es ps)
    /\ Forall2 filledItem es es'
    /\ Forall filledOut es'.
Proof.
  intros Hr Hai. destruct (summarize_returns_filled reply r Hr) as (v & -> & _ & Hf).
  destruct Hf as (_ & Hitems & _). exists v.
  destruct (lookup_prop (lit "actionItems") (props v)) as [[ | | | | es ps0 | ] | ];
    try (rewrite Hai in Hitems; discriminate).
  destruct Hitems as (es0 & Hl & Hfill). rewrite Hai in Hl. injection Hl as <- <-.
  exists es. repeat split; try assumption.
  clear -Hfill. induction Hfill as [|item item' es es' Hi _ IH]; constructor.
  - eapply filledItem_filledOut, Hi.
  - exact IH.
Qed.

Lemma returned_items_filled_witness :
  exists r es',
    summarizeTranscript (TextParsed bareItemResponse) = Ok r
    /\ lookup_prop (lit "actionItems") (props r) = Some (VArr es' [])
    /\ Forall filledOut es'.
Proof.
  eexists. eexists. split; [reflexivity | ]. split; [reflexivity | ].
  destruct (returned_items_filled (TextParsed bareItemResponse) _ _ _ eq_refl eq_refl)
    as (v & es & _ & _ & _ & H).
  exact H.
Defined.

End GatewayFacts.

(* ================================================================== *)
(** * The calendar                                                     *)
(* ================================================================== *)

Section CalendarFacts.
Import Js Calendar.

Lemma DayFromYear_step (y : Z) : DayFromYear (y + 1) = DayFromYear y + DaysInYear y.
Proof.
  unfold DayFromYear, DaysInYear, isLeap.
  destruct (y mod 4 =? 0) eqn:E4; simpl negb; cbv iota.
  - destruct (y mod 100 =? 0) eqn:E100; simpl negb; cbv iota.
    + destruct (y mod 400 =? 0) eqn:E400;
        [apply Z.eqb_eq in E400 | apply Z.eqb_neq in E400];
        apply Z.eqb_eq in E4; apply Z.eqb_eq in E100;
        Z.div_mod_to_equations; lia.
    + apply Z.eqb_eq in E4; apply Z.eqb_neq in E100;
        Z.div_mod_to_equations; lia.
  - apply Z.eqb_neq in E4. Z.div_mod_to_equations; lia.
Qed.

Lemma DaysInYear_pos (y : Z) : 365 <= DaysInYear y <= 366.
Proof. unfold DaysInYear. destruct (isLeap y); lia. Qed.

Lemma DayFromYear_mono (a b : Z) : a <= b -> DayFromYear a <= DayFromYear b.
Proof.
  intros H. unfold DayFromYear. Z.div_mod_to_equations. lia.
Qed.

Lemma DayFromYear_lt (a b : Z) : DayFromYear a < DayFromYear (b + 1) -> a <= b.
Proof.
  intros H. destruct (Z_le_gt_dec a b) as [|Hgt]; [assumption | exfalso].
  pose proof (DayFromYear_mono (b + 1) a ltac:(lia)). lia.
Qed.

Lemma YearFromDay_spec (d : Z) :
  DayFromYear (YearFromDay d) <= d < DayFromYear (YearFromDay d + 1).
Proof.
  unfold YearFromDay.
  set (y := 1970 + 400 * d / 146097).
  assert (Hlo : DayFromYear (y - 1) <= d).
  { subst y. unfold DayFromYear. Z.div_mod_to_equations. lia. }
  assert (Hhi : d < DayFromYear (y + 2)).
  { subst y. unfold DayFromYear. Z.div_mod_to_equations. lia. }
  destruct (d <? DayFromYear y) eqn:E1.
  - apply Z.ltb_lt in E1. replace (y - 1 + 1) with y by lia. lia.
  - apply Z.ltb_ge in E1. destruct (DayFromYear (y + 1) <=? d) eqn:E2.
    + apply Z.leb_le in E2. replace (y + 1 + 1) with (y + 2) by lia. lia.
    + apply Z.leb_gt in E2. lia.
Qed.

Lemma YearFromDay_unique (d y : Z) :
  DayFromYear y <= d < DayFromYear (y + 1) -> YearFromDay d = y.
Proof.
  intros H. pose proof (YearFromDay_spec d) as Hs.
  assert (YearFromDay d <= y) by (apply DayFromYear_lt; lia).
  assert (y <= YearFromDay d) by (apply DayFromYear_lt; lia).
  lia.
Qed.

Ltac cases_ltb :=
  repeat match goal with
         | |- context [?a <? ?b] => destruct (Z.ltb_spec a b); try lia
         end.

Ltac month_cases m :=
  let H := fresh in
  assert (H : m = 0 \/ m = 1 \/ m = 2 \/ m = 3 \/ m = 4 \/ m = 5 \/ m = 6
              \/ m = 7 \/ m = 8 \/ m = 9 \/ m = 10 \/ m = 11) by lia;
  repeat (destruct H as [-> | H]); [ .. | subst m ].

Lemma yearDay_bounds (y m d : Z) :
  0 <= m <= 11 -> 1 <= d <= daysInMonth y m ->
  0 <= monthStart (isLeap y) m + d - 1 < DaysInYear y.
Proof.
  intros Hm Hd. unfold DaysInYear. month_cases m;
    unfold daysInMonth, monthStart in *; destruct (isLeap y); lia.
Qed.

Lemma monthOfYearDay_start (y m d : Z) :
  0 <= m <= 11 -> 1 <= d <= daysInMonth y m ->
  monthOfYearDay (isLeap y) (monthStart (isLeap y) m + d - 1) = m.
Proof.
  intros Hm Hd. month_cases m;
    unfold daysInMonth, monthOfYearDay, monthStart in *; destruct (isLeap y);
    cases_ltb; reflexivity.
Qed.

Lemma monthOfYearDay_range (leap : bool) (d : Z) : 0 <= monthOfYearDay leap d <= 11.
Proof. unfold monthOfYearDay. cases_ltb. Qed.

Lemma Day_of_midnight (n : Z) : Day (n * msPerDay) = n.
Proof. unfold Day, msPerDay. apply Z.div_mul. discriminate. Qed.

Lemma MakeDay_inMonth (y m d : Z) :
  0 <= m <= 11 -> MakeDay y m d = DayFromYear y + monthStart (isLeap y) m + d - 1.
Proof.
  intros Hm. unfold MakeDay.
  rewrite (Z.div_small m 12), (Z.mod_small m 12) by lia.
  rewrite Z.add_0_r. reflexivity.
Qed.

Lemma civilOfDay_MakeDay (y m d : Z) :
  0 <= m <= 11 -> 1 <= d <= daysInMonth y m ->
  civilOfDay (MakeDay y m d) = (y, m, d).
Proof.
  intros Hm Hd. pose proof (yearDay_bounds y m d Hm Hd) as Hb.
  rewrite (MakeDay_inMonth y m d Hm).
  unfold civilOfDay, DateFromTime, MonthFromTime, InLeapYear, DayWithinYear, YearFromTime.
  rewrite Day_of_midnight.
  assert (Hy : YearFromDay (DayFromYear y + monthStart (isLeap y) m + d - 1) = y).
  { apply YearFromDay_unique. rewrite DayFromYear_step. lia. }
  rewrite Hy.
  replace (DayFromYear y + monthStart (isLeap y) m + d - 1 - DayFromYear y)
    with (monthStart (isLeap y) m + d - 1) by lia.
  rewrite (monthOfYearDay_start y m d Hm Hd).
  f_equal. lia.
Qed.

Lemma nextDay_MakeDay (y m d : Z) :
  0 <= m <= 11 -> 1 <= d <= daysInMonth y m ->
  civilOfDay (MakeDay y m d + 1) = nextDay (y, m, d).
Proof.
  intros Hm Hd. unfold nextDay.
  destruct (Z.ltb_spec d (daysInMonth y m)) as [Hlt | Hge].
  - rewrite <- (civilOfDay_MakeDay y m (d + 1)) by lia.
    f_equal. rewrite !MakeDay_inMonth by lia. lia.
  - assert (d = daysInMonth y m) by lia. subst d.
    destruct (Z.ltb_spec m 11) as [Hm11 | Hm11].
    + rewrite <- (civilOfDay_MakeDay y (m + 1) 1).
      * f_equal. rewrite !MakeDay_inMonth by lia.
        month_cases m; unfold daysInMonth, monthStart; simpl; destruct (isLeap y); lia.
      * lia.
      * month_cases m; unfold daysInMonth; simpl; destruct (isLeap y); lia.
    + assert (m = 11) by lia. subst m.
      rewrite <- (civilOfDay_MakeDay (y + 1) 0 1).
      * f_equal. rewrite !MakeDay_inMonth by lia. rewrite DayFromYear_step.
        unfold DaysInYear, daysInMonth, monthStart.
        destruct (isLeap y), (isLeap (y + 1)); lia.
      * lia.
      * unfold daysInMonth. lia.
Qed.

End CalendarFacts.

(* ================================================================== *)
(** * Displayed due dates (formatDate)                                 *)
(* ================================================================== *)

Section DateFacts.
Import Js Calendar ResultDisplay.
Variable LocalTZA : Z.
Variable otherFormats : jsstring -> option Z.

Lemma digit_range (c v : Z) : digit c = Some v -> 0 <= v <= 9.
Proof.
  unfold digit. destruct (Z.leb_spec 48 c), (Z.leb_spec c 57); simpl;
    intros [= <-]; lia.
Qed.

Lemma dateOnly_range (s : jsstring) (y m d : Z) :
  dateOnly s = Some (y, m, d) ->
  0 <= y <= 9999 /\ length s = 10%nat.
Proof.
  unfold dateOnly.
  destruct s as [|y1 [|y2 [|y3 [|y4 [|h1 [|m1 [|m2 [|h2 [|d1 [|d2 [|x s]]]]]]]]]]];
    try discriminate.
  destruct ((h1 =? 45) && (h2 =? 45)); [ | discriminate].
  destruct (digit y1) as [a|] eqn:Ha; [ | discriminate].
  destruct (digit y2) as [b|] eqn:Hb; [ | discriminate].
  destruct (digit y3) as [c|] eqn:Hc; [ | discriminate].
  destruct (digit y4) as [e|] eqn:He; [ | discriminate].
  destruct (digit m1) as [f|]; [ | discriminate].
  destruct (digit m2) as [g|]; [ | discriminate].
  destruct (digit d1) as [i|]; [ | discriminate].
  destruct (digit d2) as [j|]; [ | discriminate].
  simpl. intros [= <- <- <-].
  apply digit_range in Ha, Hb, Hc, He. split; [lia | reflexivity].
Qed.

Lemma DateFromTime_MakeDay (t : Z) :
  MakeDay (YearFromTime t) (MonthFromTime t) (DateFromTime t + 1) = Day t + 1.
Proof.
  rewrite MakeDay_inMonth by apply monthOfYearDay_range.
  unfold DateFromTime, DayWithinYear, InLeapYear. lia.
Qed.

(** Setting the day of the month to the next one moves the date by one day
    of absolute time, whatever the zone. *)
Lemma setDate_next (t0 : Z) :
  setDate LocalTZA (Some t0) (dt ← getDate LocalTZA (Some t0); Some (dt + 1))
  = TimeClip (t0 + msPerDay).
Proof.
  unfold setDate, getDate. simpl. f_equal.
  rewrite DateFromTime_MakeDay.
  unfold UTC, LocalTime, MakeDate, TimeWithinDay, Day, msPerDay.
  Z.div_mod_to_equations. lia.
Qed.

Lemma MakeDay_size (y m d : Z) :
  0 <= y <= 9999 -> validDate y m d = true ->
  -1000000 <= MakeDay y (m - 1) d <= 3000000
  /\ 0 <= m - 1 <= 11 /\ 1 <= d <= daysInMonth y (m - 1).
Proof.
  intros Hy Hv. unfold validDate in Hv.
  repeat (apply andb_true_iff in Hv; destruct Hv as [Hv ?]).
  repeat match goal with H : (_ <=? _) = true |- _ => apply Z.leb_le in H end.
  assert (Hm : 0 <= m - 1 <= 11) by lia.
  assert (Hd : 1 <= d <= daysInMonth y (m - 1)) by lia.
  split; [ | split; assumption].
  rewrite MakeDay_inMonth by assumption.
  pose proof (yearDay_bounds y (m - 1) d Hm Hd) as Hb.
  pose proof (DaysInYear_pos y).
  unfold DayFromYear. Z.div_mod_to_equations. lia.
Qed.

(** A date-only string for a day of the calendar is rendered as the local
    civil date of the instant one day after midnight UTC of that day. *)
Lemma formatDate_dateOnly (s : jsstring) (y m d : Z) :
  dateOnly s = Some (y, m, d) -> validDate y m d = true ->
  formatDate LocalTZA otherFormats s
  = longDate (civilOfDay (Day ((MakeDay y (m - 1) d + 1) * msPerDay + LocalTZA))).
Proof.
  intros Hs Hv. destruct (dateOnly_range s y m d Hs) as [Hy Hlen].
  destruct (MakeDay_size y m d Hy Hv) as (Hn & _ & _).
  unfold formatDate.
  assert (Hne : str_eqb s [] = false).
  { apply str_eqb_neq. intros ->. discriminate Hlen. }
  rewrite Hne. unfold Date_parse. rewrite Hs, Hv.
  assert (Hclip : forall n, -1000000 <= n <= 3000001 ->
                            TimeClip (n * msPerDay) = Some (n * msPerDay)).
  { intros n Hb. unfold TimeClip, msPerDay.
    destruct (Z.leb_spec (Z.abs (n * 86400000)) 8640000000000000); [reflexivity | lia]. }
  unfold MakeDate. rewrite Z.add_0_r, Hclip by lia.
  rewrite setDate_next.
  replace (MakeDay y (m - 1) d * msPerDay + msPerDay)
    with ((MakeDay y (m - 1) d + 1) * msPerDay) by lia.
  rewrite Hclip by lia. reflexivity.
Qed.

(** C10, amended.  The due date of an action item is displayed through
    [formatDate] in the rendered list, in the exported document and in the
    notification text.  An empty due date is displayed as "N/A".  A due date
    of the form YYYY-MM-DD naming a day of the calendar (year 1 or later) is
    displayed as the local civil date of the instant one day after midnight
    UTC of that day: the day after the literal date where local time is at
    or ahead of UTC, and the literal date itself where local time is behind
    UTC. *)
Theorem due_date_display_by_zone (item : ActionItem) :
  (dueCell LocalTZA otherFormats item = formatDate LocalTZA otherFormats (dueDate item)
   /\ actionItemLine LocalTZA otherFormats item
      = lit "- [ ] " ++ task item ++ lit " (Assignee: " ++ assignee item ++
        lit ", Priority: " ++ priority item ++ lit ", Due: " ++
        formatDate LocalTZA otherFormats (dueDate item) ++ lit ")"
   /\ createNotificationText LocalTZA otherFormats item
      = lit "Reminder: The task " ++ [34] ++ task item ++ [34] ++
        lit " is assigned to " ++ assignee item ++ lit ". Priority: " ++
        priority item ++ lit ". Due date: " ++
        formatDate LocalTZA otherFormats (dueDate item) ++ lit ".")
  /\ (dueDate item = [] -> formatDate LocalTZA otherFormats (dueDate item) = lit "N/A")
  /\ (forall y m d,
        dateOnly (dueDate item) = Some (y, m, d) -> validDate y m d = true ->
        1 <= y ->
        (0 <= LocalTZA < msPerDay ->
         formatDate LocalTZA otherFormats (dueDate item)
         = longDate (nextDay (y, m - 1, d)))
        /\ (- msPerDay <= LocalTZA < 0 ->
            formatDate LocalTZA otherFormats (dueDate item)
            = longDate (y, m - 1, d))).
Proof.
  split; [repeat split | split].
  - intros ->. reflexivity.
  - intros y m d Hs Hv _.
    rewrite (formatDate_dateOnly _ y m d Hs Hv).
    destruct (dateOnly_range _ y m d Hs) as [Hy _].
    destruct (MakeDay_size y m d Hy Hv) as (_ & Hm & Hd).
    split; intros Hz.
    + replace (Day ((MakeDay y (m - 1) d + 1) * msPerDay + LocalTZA))
        with (MakeDay y (m - 1) d + 1)
        by (unfold Day, msPerDay in *; Z.div_mod_to_equations; lia).
      rewrite nextDay_MakeDay by assumption. reflexivity.
    + replace (Day ((MakeDay y (m - 1) d + 1) * msPerDay + LocalTZA))
        with (MakeDay y (m - 1) d)
        by (unfold Day, msPerDay in *; Z.div_mod_to_equations; lia).
      rewrite civilOfDay_MakeDay by assumption. reflexivity.
Qed.

End DateFacts.

(** C10, as stated, fails: five hours behind UTC the due date 2024-01-15 is
    displayed as January 15, the literal date, not the day after. *)
Lemma literal_date_shown_west_of_utc :
  ~ ResultDisplay.rendersDayAfter (-18000000) (fun _ => None) (Js.lit "2024-01-15").
Proof.
  intros H. specialize (H 2024 1 15 eq_refl eq_refl).
  vm_compute in H. discriminate.
Qed.

Example formatDate_new_york :
  ResultDisplay.formatDate (-18000000) (fun _ => None) (Js.lit "2024-01-15")
  = Js.lit "January 15, 2024".
Proof. vm_compute. reflexivity. Qed.

Example formatDate_utc :
  ResultDisplay.formatDate 0 (fun _ => None) (Js.lit "2024-01-15")
  = Js.lit "January 16, 2024".
Proof. vm_compute. reflexivity. Qed.

(** The year 0000 is shown as the year 1 (of the era before). *)
Example formatDate_year_zero :
  ResultDisplay.formatDate 0 (fun _ => None) (Js.lit "0000-01-01")
  = Js.lit "January 2, 1".
Proof. vm_compute. reflexivity. Qed.

(* ================================================================== *)
(** * Further properties of the application state machine              *)
(* ================================================================== *)

Section SessionFacts.
Import Js App.

Lemma upload_keeps_loading (f : FileUpload.file) (st : state) :
  isLoading (fst (upload f st)) = isLoading st.
Proof.
  unfold upload. destruct (FileUpload.handleFile f); reflexivity.
Qed.

Lemma event_eq_click (e : event) : e = ClickSummarize \/ e <> ClickSummarize.
Proof. destruct e; (left; reflexivity) || (right; discriminate). Qed.

Lemma handleSummarizeOf_current (st : state) :
  handleSummarizeOf st st = handleSummarize st.
Proof. reflexivity. Qed.

(** Rendering keeps the bookkeeping in step. *)
Lemma render_inStep (sys : system) : inStep sys -> inStep (render sys).
Proof.
  intros [[Hp Hl] | (req & Hp & Hl & _ & Hb)].
  - left. split; assumption.
  - right. exists req. repeat split; assumption.
Qed.

(** So does every event but a click on Summarize. *)
Lemma step_inStep (sys : system) (e : event) :
  e <> ClickSummarize -> inStep sys -> inStep (step sys e).
Proof.
  intros He Hinv.
  destruct e as [text | text | tab | f | text | | | i reply | ]; simpl.
  - exact Hinv.
  - exact Hinv.
  - exact Hinv.
  - unfold inStep in *. simpl. rewrite upload_keeps_loading. exact Hinv.
  - exact Hinv.
  - congruence.
  - destruct (clearDisabled (shown sys)); exact Hinv.
  - destruct Hinv as [[Hp Hl] | (req & Hp & Hl & Hs & Hb)]; rewrite Hp.
    + simpl. left. split; assumption.
    + destruct i as [|i]; simpl.
      * left. simpl. split; [reflexivity | ].
        destruct (Gemini.summarizeTranscript reply); reflexivity.
      * right. exists req. repeat split; assumption.
  - apply render_inStep, Hinv.
Qed.

(** A click on Summarize, once rendered, leaves one request pending at
    most: the button of a render that shows the loading flag is disabled. *)
Lemma click_render_inStep (sys : system) :
  inStep sys -> inStep (render (step sys ClickSummarize)).
Proof.
  intros Hinv. simpl. unfold summarizeDisabled.
  destruct (isLoading (shown sys) || str_eqb (transcript (shown sys)) []) eqn:Hd;
    [apply render_inStep, Hinv | ].
  apply orb_false_iff in Hd. destruct Hd as [Hl He].
  destruct Hinv as [[Hp Hc] | (req & _ & _ & Hs & _)]; [ | congruence].
  unfold handleSummarizeOf.
  destruct (blank_dec (transcript (shown sys))) as [Hb | Hb].
  - rewrite (proj2 (trim_blank _) Hb). simpl. left. split; assumption.
  - destruct (str_eqb (trim (transcript (shown sys))) []) eqn:Et.
    + exfalso. apply Hb, trim_blank, str_eqb_eq, Et.
    + right. simpl. rewrite Hp. eexists. split; [reflexivity | ].
      repeat split; [exact Hb].
Qed.

Lemma fold_inStep (events : list event) :
  forall sys,
  clicksRendered events = true ->
  inStep sys \/ (exists rest, events = Render :: rest /\ inStep (render sys)) ->
  inStep (fold_left step events sys).
Proof.
  induction events as [|e events IH]; intros sys Hr Hinv.
  - destruct Hinv as [H | (rest & Habs & _)]; [exact H | discriminate Habs].
  - destruct (event_eq_click e) as [-> | Hne].
    + destruct Hinv as [Hinv | (rest & Habs & _)]; [ | discriminate Habs].
      destruct events as [|e' rest]; [discriminate Hr | ].
      destruct e'; try discriminate Hr.
      apply IH; [exact Hr | ].
      right. exists rest. split; [reflexivity | ].
      apply click_render_inStep, Hinv.
    + assert (Hr' : clicksRendered events = true)
        by (destruct e; try exact Hr; congruence).
      cbn [fold_left]. apply IH; [exact Hr' | ]. left.
      destruct Hinv as [Hinv | (rest & [= -> ->] & Hinv)].
      * apply step_inStep; assumption.
      * exact Hinv.
Qed.

(** X1.  As long as every click on Summarize is rendered before the next
    event is handled, then whatever the user and the gateway do, and
    whenever else the component renders, at most one summarization request
    is awaited at any time; the loading flag is set exactly while one is;
    and a request awaited was issued for a transcript that is not blank. *)
Theorem at_most_one_summary_pending (events : list event) :
  clicksRendered events = true ->
  (pending (run events) = [] /\ isLoading (cells (run events)) = false)
  \/ (exists req, pending (run events) = [req]
                  /\ isLoading (cells (run events)) = true
                  /\ ~ blank (req_transcript req)).
Proof.
  intros Hr.
  assert (H : inStep (run events)).
  { apply fold_inStep; [exact Hr | ]. left. left. split; reflexivity. }
  destruct H as [H | (req & Hp & Hl & _ & Hb)]; [left; exact H | ].
  right. exists req. repeat split; assumption.
Qed.

(** Without the render in between it is otherwise: [handleSummarize] has no
    guard of its own, and the handler and the button of the earlier render
    are still in place, so a second click issues a second request. *)
Lemma unrendered_click_requests_again :
  let events := [EditTranscript (lit "We ship Friday."); Render;
                 ClickSummarize; ClickSummarize] in
  clicksRendered events = false
  /\ length (pending (run events)) = 2%nat.
Proof. split; reflexivity. Qed.

(** X2.  [handleClear] empties transcript, result, error, file name and title in
    one step and leaves the tab and the loading flag alone; afterwards the
    Clear and Summarize buttons are disabled, neither an error nor a result
    is rendered, and clearing again changes nothing. *)
Theorem clear_resets_session (st : state) :
  transcript (handleClear st) = []
  /\ summaryResult (handleClear st) = None
  /\ error (handleClear st) = None
  /\ fileName (handleClear st) = []
  /\ meetingTitle (handleClear st) = []
  /\ isLoading (handleClear st) = isLoading st
  /\ activeInputTab (handleClear st) = activeInputTab st
  /\ clearDisabled (handleClear st) = true
  /\ summarizeDisabled (handleClear st) = true
  /\ shownError (handleClear st) = None
  /\ shownResult (handleClear st) = None
  /\ handleClear (handleClear st) = handleClear st.
Proof.
  unfold summarizeDisabled, shownResult. simpl.
  rewrite orb_true_r. destruct (isLoading st); repeat split; reflexivity.
Qed.

(** X3.  Clear does not cancel a summarization that is under way: when the
    request settles with a value after the Clear button of the current
    render was clicked, the value is stored and rendered over an empty
    transcript. *)
Theorem clear_keeps_pending_request (sys : system) (req : request)
    (reply : Gemini.summaryReply) (r : value) :
  pending sys = [req] ->
  Gemini.summarizeTranscript reply = Ok r ->
  let sys' := step (step (render sys) ClickClear) (Settled 0 reply) in
  pending sys' = []
  /\ transcript (cells sys') = []
  /\ summaryResult (cells sys') = Some r
  /\ isLoading (cells sys') = false.
Proof.
  intros Hp Hr sys'. subst sys'. simpl.
  destruct (clearDisabled (cells sys)) eqn:Hc.
  - simpl. rewrite Hp. simpl. rewrite Hr. simpl. repeat split; try reflexivity.
    unfold clearDisabled in Hc.
    repeat (apply andb_true_iff in Hc; destruct Hc as [Hc ?]).
    apply str_eqb_eq. assumption.
  - simpl. rewrite Hp. simpl. rewrite Hr. simpl. repeat split; reflexivity.
Qed.

End SessionFacts.

Lemma at_most_one_summary_pending_witness :
  let events := [App.EditTranscript (Js.lit "We ship Friday."); App.Render;
                 App.ClickSummarize; App.Render; App.ClickSummarize; App.Render;
                 App.EditTitle (Js.lit "Weekly sync")] in
  App.clicksRendered events = true
  /\ length (App.pending (App.run events)) = 1%nat.
Proof.
  intros events. split; [reflexivity | ].
  destruct (at_most_one_summary_pending events eq_refl)
    as [[Hp Hl] | (req & Hp & _)].
  - discriminate Hl.
  - rewrite Hp. reflexivity.
Defined.

Lemma clear_keeps_pending_request_witness :
  let sys := App.run [App.EditTranscript (Js.lit "We ship Friday."); App.Render;
                      App.ClickSummarize] in
  let reply := Gemini.TextParsed Gemini.fridayResponse in
  let sys' := App.step (App.step (App.render sys) App.ClickClear) (App.Settled 0 reply) in
  exists req,
    App.pending sys = [req]
    /\ App.transcript (App.cells sys') = []
    /\ App.summaryResult (App.cells sys') = Some Gemini.fridayResponse.
Proof.
  intros sys reply sys'. eexists. split; [reflexivity | ].
  destruct (clear_keeps_pending_request sys _ reply Gemini.fridayResponse
              eq_refl eq_refl) as (_ & Ht & Hr & _).
  split; [exact Ht | exact Hr].
Defined.

(* ================================================================== *)
(** * Further properties of the runtime fragment                       *)
(* ================================================================== *)

Section TrimFacts.
Import Js.

Lemma trimStart_split (s : jsstring) :
  exists lead, s = lead ++ trimStart s /\ blank lead.
Proof.
  induction s as [|c s (lead & Hs & Hb)]; simpl.
  - exists []. split; [reflexivity | constructor].
  - destruct (isWhiteSpace c) eqn:Hc.
    + exists (c :: lead). split; [simpl; f_equal; exact Hs | constructor; assumption].
    + exists []. split; [reflexivity | constructor].
Qed.

Lemma trimStart_app_visible (x y : jsstring) (c : Z) :
  isWhiteSpace c = false -> trimStart (x ++ c :: y) = trimStart x ++ c :: y.
Proof.
  intros Hc. induction x as [|a x IH]; simpl.
  - rewrite Hc. reflexivity.
  - destruct (isWhiteSpace a); [exact IH | reflexivity].
Qed.

Lemma trimEnd_split (s : jsstring) :
  exists tail, s = trimEnd s ++ tail /\ blank tail.
Proof.
  unfold trimEnd. destruct (trimStart_split (rev s)) as (lead & Hs & Hb).
  exists (rev lead). split.
  - rewrite <- rev_app_distr, <- Hs. symmetry. apply rev_involutive.
  - apply Forall_rev. exact Hb.
Qed.

Lemma trimEnd_cons_visible (c : Z) (s : jsstring) :
  isWhiteSpace c = false -> trimEnd (c :: s) = c :: trimEnd s.
Proof.
  intros Hc. unfold trimEnd. simpl rev.
  rewrite (trimStart_app_visible (rev s) [] c Hc), rev_app_distr. reflexivity.
Qed.

(** [trim] cuts a blank stretch off each end and nothing else. *)
Lemma trim_split (s : jsstring) :
  exists lead tail, s = lead ++ trim s ++ tail /\ blank lead /\ blank tail.
Proof.
  unfold trim. destruct (trimStart_split s) as (lead & Hs & Hl).
  destruct (trimEnd_split (trimStart s)) as (tail & Ht & Hb).
  exists lead, tail. split; [ | split; assumption].
  rewrite <- Ht. exact Hs.
Qed.

Lemma trim_edges (s : jsstring) : edgeTrimmed (trim s).
Proof.
  unfold edgeTrimmed, trim. split.
  - pose proof (trimStart_head s) as H.
    destruct (trimStart s) as [|c t]; [exact I | ].
    rewrite (trimEnd_cons_visible c t H). exact H.
  - unfold trimEnd. rewrite rev_involutive. apply trimStart_head.
Qed.

Lemma edgeTrimmed_trim (s : jsstring) : edgeTrimmed s -> trim s = s.
Proof.
  intros [Hh Hl]. unfold trim.
  assert (E : trimStart s = s).
  { destruct s as [|c t]; [reflexivity | ]. simpl. rewrite Hh. reflexivity. }
  rewrite E. unfold trimEnd.
  destruct (rev s) as [|c t] eqn:Er.
  - apply (f_equal (@rev Z)) in Er. rewrite rev_involutive in Er. rewrite Er. reflexivity.
  - simpl. rewrite Hl. rewrite <- Er. apply rev_involutive.
Qed.

End TrimFacts.

(* ================================================================== *)
(** * Further properties of the gateway                                *)
(* ================================================================== *)

Section TranscriptionFacts.
Import Js Gemini.

(** X4.  [transcribeAudio] returns the response text with the white space cut
    off both ends and nothing else removed (an all-blank text comes back
    empty), and otherwise fails with its one fixed error, whatever went
    wrong. *)
Theorem transcribeAudio_returns_trimmed_text (reply : transcriptionReply) :
  (exists raw lead tail,
      reply = TranscriptionReplied (Some raw)
      /\ transcribeAudio reply = Ok (trim raw)
      /\ raw = lead ++ trim raw ++ tail /\ blank lead /\ blank tail
      /\ edgeTrimmed (trim raw)
      /\ (blank raw -> transcribeAudio reply = Ok []))
  \/ ((forall raw, reply <> TranscriptionReplied (Some raw))
      /\ transcribeAudio reply = Throw (Error transcriptionFailure)).
Proof.
  destruct reply as [e | [raw | ]].
  - right. split; [intros raw; discriminate | reflexivity].
  - left. destruct (trim_split raw) as (lead & tail & Hs & Hl & Ht).
    exists raw, lead, tail. repeat split; try assumption; try reflexivity.
    + pose proof (trim_edges raw) as [H _]. exact H.
    + pose proof (trim_edges raw) as [_ H]. exact H.
    + intros Hb. apply trim_blank in Hb. unfold transcribeAudio. simpl.
      rewrite Hb. reflexivity.
  - right. split; [intros raw; discriminate | reflexivity].
Qed.

(** [generateSpeech] returns the payload only when the response carries one
    that is not the empty string, and returns it as it is; a rejected
    request, a response without payload and an empty payload all fail with
    the one fixed error. *)
Theorem generateSpeech_payload_or_fixed_error (reply : speechReply) :
  match reply with
  | SpeechReplied (Some data) =>
      if str_eqb data []
      then generateSpeech reply = Throw (Error speechFailure)
      else generateSpeech reply = Ok data
  | _ => generateSpeech reply = Throw (Error speechFailure)
  end
  /\ (forall a, generateSpeech reply = Ok a -> a <> [] /\ reply = SpeechReplied (Some a)).
Proof.
  split.
  - destruct reply as [e | [data | ]]; try reflexivity.
    unfold generateSpeech, generateSpeechBody. destruct (str_eqb data []); reflexivity.
  - intros a H. destruct reply as [e | [data | ]]; try discriminate H.
    unfold generateSpeech, generateSpeechBody in H.
    destruct (str_eqb data []) eqn:E; [discriminate H | ].
    injection H as ->. split; [apply str_eqb_neq, E | reflexivity].
Qed.

End TranscriptionFacts.

Section FallbackFacts.
Import Js Gemini.

Lemma sameObject_isObject (a b : value) : sameObject a b -> isObject b = true.
Proof. destruct a, b; simpl; try contradiction; reflexivity. Qed.

Lemma filledItem_settled (item item' : value) :
  filledItem item item' -> fillItem item' = Ok item'.
Proof.
  intros H. pose proof (filledItem_filledOut item item' H) as (Hp & _ & Hd).
  destruct H as (Hs & _). apply fillItem_same; [ | assumption | assumption].
  exact (sameObject_isObject _ _ Hs).
Qed.

(** X5.  A value [summarizeTranscript] has returned needs no fallback any more:
    given back as the parsed response, it is returned as it is. *)
Theorem fallbacks_settle (reply : summaryReply) (r : value) :
  summarizeTranscript reply = Ok r ->
  summarizeTranscript (TextParsed r) = Ok r.
Proof.
  intros H. destruct (summarize_returns_filled reply r H) as (v & _ & Hacc & Hf).
  destruct Hf as (Hs & Hitems & Hdb & _).
  pose proof (sameObject_isObject _ _ Hs) as Hobj.
  unfold accepts in Hacc. apply andb_true_iff in Hacc. destruct Hacc as [_ Hacc].
  unfold summarizeTranscript, summarizeBody, applyFallbacks.
  assert (H1 : itemsFallback r = Ok r).
  { unfold itemsFallback, mbind, result_bind, bind.
    rewrite (getProp_object _ _ Hobj).
    destruct (lookup_prop (lit "actionItems") (props v)) as [xs | ] eqn:Hv.
    - destruct xs as [ | b | x | s | es ps | ps0].
      + rewrite Hitems. reflexivity.
      + rewrite Hitems. destruct (truthy (VBool b)) eqn:Ht;
          [simpl in Hacc; discriminate Hacc | reflexivity].
      + rewrite Hitems. destruct (truthy (VNum x)) eqn:Ht;
          [simpl in Hacc; discriminate Hacc | reflexivity].
      + rewrite Hitems. destruct (truthy (VStr s)) eqn:Ht;
          [simpl in Hacc; discriminate Hacc | reflexivity].
      + destruct Hitems as (es' & Hr & Hfill). rewrite Hr. simpl truthy. cbv iota.
        simpl in Hacc. unfold callForEach.
        destruct (lookup_prop (lit "forEach") ps); [discriminate Hacc | ].
        unfold mbind, result_bind, bind. rewrite forEachItem_same.
        * rewrite (withProp_same (lit "actionItems") (VArr es' ps) r Hr). reflexivity.
        * clear -Hfill. induction Hfill as [|item item' es es' Hi _ IH]; constructor.
          -- exact (filledItem_settled _ _ Hi).
          -- exact IH.
      + simpl in Hacc. discriminate Hacc.
    - rewrite Hitems. reflexivity. }
  unfold mbind, result_bind, bind. rewrite H1.
  unfold breakdownFallback, mbind, result_bind, bind.
  rewrite (getProp_object _ _ Hobj), Hdb.
  destruct (truthy_opt (lookup_prop (lit "discussionBreakdown") (props v))) eqn:E.
  - rewrite E. reflexivity.
  - reflexivity.
Qed.

End FallbackFacts.

Lemma fallbacks_settle_witness :
  exists r,
    Gemini.summarizeTranscript (Gemini.TextParsed Gemini.bareItemResponse) = Js.Ok r
    /\ Gemini.summarizeTranscript (Gemini.TextParsed r) = Js.Ok r.
Proof.
  eexists. split; [reflexivity | ].
  apply (fallbacks_settle (Gemini.TextParsed Gemini.bareItemResponse)).
  reflexivity.
Defined.

(* ================================================================== *)
(** * Further properties of the playback machine                       *)
(* ================================================================== *)

Section SessionPlaybackFacts.
Import Js ResultDisplay.

Lemma toggle_from_idle (text : jsstring) (st : player) :
  handleToggleAudio Idle text st
  = requestSpeech text (setTtsError None (setAudioState Loading st)).
Proof. unfold handleToggleAudio. destruct (audioSourceRef st); reflexivity. Qed.

Lemma toggle_while_playing (text : jsstring) (st : player) (source : AudioBuffer) :
  audioSourceRef st = Some source ->
  handleToggleAudio Playing text st = setAudioState Idle (setSource None st).
Proof. intros H. unfold handleToggleAudio. rewrite H. reflexivity. Qed.

Lemma toggle_after_stop (text : jsstring) (st : player) :
  audioSourceRef st = None ->
  handleToggleAudio Playing text st
  = requestSpeech text (setTtsError None (setAudioState Loading st)).
Proof. intros H. unfold handleToggleAudio. rewrite H. reflexivity. Qed.

(** X7.  Stopping a playing source detaches it and issues no request, and the
    next click starts afresh: it issues a new synthesis request for its own
    text, with no source attached.  It does so whether it comes through the
    handler of the render that shows the stop or through the handler of the
    earlier render, which finds the source gone. *)
Theorem stop_then_toggle_requests_afresh
    (st : player) (source : AudioBuffer) (t1 t2 : jsstring) :
  audioState st = Playing -> audioSourceRef st = Some source ->
  let stopped := handleToggleAudio (audioState st) t1 st in
  let again := handleToggleAudio (audioState stopped) t2 stopped in
  audioState stopped = Idle
  /\ audioSourceRef stopped = None
  /\ speechRequests stopped = speechRequests st
  /\ audioState again = Loading
  /\ audioSourceRef again = None
  /\ speechRequests again = speechRequests st ++ [t2]
  /\ handleToggleAudio (audioState st) t2 stopped = again.
Proof.
  intros Hs Hsrc stopped again. subst again stopped.
  rewrite Hs, (toggle_while_playing t1 st source Hsrc).
  cbn [audioState setAudioState].
  rewrite toggle_from_idle, toggle_after_stop by reflexivity.
  repeat split; reflexivity.
Qed.

End SessionPlaybackFacts.

Lemma stop_then_toggle_requests_afresh_witness :
  let buffer := {| ResultDisplay.buf_sampleRate := 24000;
                   ResultDisplay.buf_channels := [[Qmake 1 32768]] |} in
  let st := ResultDisplay.setAudioState ResultDisplay.Playing
              (ResultDisplay.setSource (Some buffer)
                 (ResultDisplay.requestSpeech (Js.lit "first") ResultDisplay.initialPlayer)) in
  let stopped := ResultDisplay.handleToggleAudio ResultDisplay.Playing (Js.lit "stop") st in
  ResultDisplay.audioState st = ResultDisplay.Playing
  /\ ResultDisplay.speechRequests
       (ResultDisplay.handleToggleAudio (ResultDisplay.audioState stopped)
          (Js.lit "again") stopped)
     = [Js.lit "first"; Js.lit "again"].
Proof.
  intros buffer st stopped. split; [reflexivity | ].
  destruct (stop_then_toggle_requests_afresh st buffer (Js.lit "stop") (Js.lit "again")
              eq_refl eq_refl) as (_ & _ & _ & _ & _ & H & _).
  exact H.
Defined.

(* ================================================================== *)
(** * The playback machine under interleaving                          *)
(* ================================================================== *)

Section InterleavingFacts.
Import Js ResultDisplay.
Variable engineMessage : engineFault -> jsstring.
Variable engineAccepts : nat -> nat -> Z -> bool.


(** What one stretch of a call, from one [await] to the next, does to the
    cells. *)
Lemma resumeCall_cases (h : host) (waiting : stage) (st : player) :
  match resumeCall engineMessage engineAccepts h waiting st with
  | (st', Waits _) =>
      audioState st' = audioState st /\ ttsError st' = ttsError st
      /\ audioSourceRef st' = audioSourceRef st
  | (st', Caught attached) =>
      audioState st' = Idle /\ ttsError st' <> None
      /\ (if attached then audioSourceRef st' <> None
          else audioSourceRef st' = audioSourceRef st)
  | (st', Started) =>
      audioState st' = Playing /\ ttsError st' = ttsError st
      /\ audioSourceRef st' <> None
  end.
Proof.
  destruct waiting as [ | base64Audio | [audioBuffer | e]];
    unfold ResultDisplay.resumeCall, toDecode, ensureContext.
  - destruct (Gemini.generateSpeech (speech h)) as [base64Audio | e];
      [ | simpl; repeat split; discriminate].
    destruct (audioContextRef st) as [[ | ] | ].
    + simpl. repeat split.
    + destruct (outputNode h); [simpl; repeat split; discriminate | ].
      destruct (decode engineMessage base64Audio);
        simpl; repeat split; discriminate.
    + destruct (newContext h) as [[ | ] | e].
      * simpl. repeat split.
      * destruct (outputNode h); [simpl; repeat split; discriminate | ].
        destruct (decode engineMessage base64Audio);
          simpl; repeat split; discriminate.
      * simpl. repeat split; discriminate.
  - destruct (resume h); [simpl; repeat split; discriminate | ].
    destruct (outputNode h); [simpl; repeat split; discriminate | ].
    destruct (decode engineMessage base64Audio);
      simpl; repeat split; discriminate.
  - destruct (sourceNode h); [simpl; repeat split; discriminate | ].
    destruct (start h); simpl; repeat split; discriminate.
  - simpl. repeat split; discriminate.
Qed.

(** Run without interruption, the stretches make up the continuation
    [handleToggleAudio_settled]. *)
Lemma complete_settled (h : host) (st : player) :
  complete engineMessage engineAccepts 3 h AwaitSpeech st
  = handleToggleAudio_settled engineMessage engineAccepts h st.
Proof.
  unfold handleToggleAudio_settled, playbackAttempt, prepare, play, mbind,
    action_bind, lift, ensureContext, resumeIfSuspended, browserCall, attachSource.
  cbn [ResultDisplay.complete ResultDisplay.resumeCall].
  unfold toDecode, ensureContext, caught.
  destruct (Gemini.generateSpeech (speech h)) as [base64Audio | e]; [ | reflexivity].
  destruct (audioContextRef st) as [[ | ] | ];
    try destruct (newContext h) as [[ | ] | ];
    try reflexivity;
    cbn [ResultDisplay.resumeCall]; unfold toDecode;
    try (destruct (resume h); [reflexivity | ]);
    (destruct (outputNode h); [reflexivity | ]);
    (destruct (decode engineMessage base64Audio) as [bytes | ]; [ | reflexivity]);
    cbn [ResultDisplay.complete ResultDisplay.resumeCall];
    (destruct (decodeAudioData engineMessage engineAccepts bytes 24000 1);
       [ | reflexivity]);
    (destruct (sourceNode h); [reflexivity | ]);
    (destruct (start h); reflexivity).
Qed.

(** Every event keeps what holds in any case. *)
Lemma step_sound (s : session) (e : playbackEvent) :
  sound s -> sound (stepSession engineMessage engineAccepts s e).
Proof.
  destruct s as [st seen cs snd det]. unfold sound. simpl.
  intros (H1 & H2 & H3).
  destruct e as [text | | i h | [ | ]]; simpl.
  - assert (Hnew : forall P : Prop,
              ((cs ++ [AwaitSpeech] = [] -> Loading <> Loading)
               /\ (Loading = Loading -> @None jsstring = None)
               /\ (Loading = Playing -> P))).
    { intros P. split; [intros H; destruct cs; discriminate H | ].
      split; [reflexivity | discriminate]. }
    destruct seen; simpl; [ | repeat split; assumption | ].
    + destruct (audioSourceRef st); simpl; apply Hnew.
    + destruct (audioSourceRef st) as [source | ] eqn:Hsrc; simpl;
        [ | apply Hnew].
      destruct snd; simpl; [ | rewrite Hsrc; repeat split; assumption].
      split; [discriminate | ]. split; discriminate.
  - repeat split; assumption.
  - destruct (cs !! i) as [waiting | ] eqn:Hi; [ | simpl; repeat split; assumption].
    pose proof (resumeCall_cases h waiting st) as Hc.
    destruct (resumeCall engineMessage engineAccepts h waiting st) as [st' [next | attached | ]];
      simpl.
    + destruct Hc as (Ha & He & Hr). rewrite Ha, He, Hr.
      split; [ | split; assumption].
      intros Hnil. exfalso.
      apply (f_equal length) in Hnil. rewrite length_insert in Hnil.
      apply lookup_lt_Some in Hi. simpl in Hnil. lia.
    + destruct Hc as (Ha & _). rewrite Ha.
      split; [discriminate | ]. split; discriminate.
    + destruct Hc as (Ha & _ & Hr). rewrite Ha.
      split; [discriminate | ]. split; [discriminate | intros _; exact Hr].
  - destruct snd; simpl; [ | repeat split; assumption].
    split; [discriminate | ]. split; discriminate.
  - destruct det; simpl; [repeat split; assumption | ].
    split; [discriminate | ]. split; discriminate.
Qed.

Lemma fold_sound (events : list playbackEvent) (s : session) :
  sound s -> sound (fold_left (stepSession engineMessage engineAccepts) events s).
Proof.
  revert s. induction events as [|e events IH]; intros s H; simpl.
  - exact H.
  - apply IH, step_sound, H.
Qed.

Lemma render_consistent (s : session) :
  consistent s -> consistent (stepSession engineMessage engineAccepts s Rendered).
Proof.
  destruct s as [st seen cs snd det]. unfold consistent. simpl.
  intros (H1 & H2 & H3 & H4 & H5).
  split; [ | split; [ | repeat split; assumption]].
  - destruct H1 as [H1 | (w & Hc & Hl & _)]; [left; exact H1 | ].
    right. exists w. repeat split; assumption.
  - intros Hs. destruct (H2 Hs) as (Ha & Hr & _).
    repeat split; try assumption. rewrite Ha. discriminate.
Qed.

(** So does every event but a click, whenever clicks are rendered. *)
Lemma step_consistent (s : session) (e : playbackEvent) :
  (forall text, e <> Toggle text) ->
  consistent s -> consistent (stepSession engineMessage engineAccepts s e).
Proof.
  intros Hne Hinv. destruct e as [text | | i h | [ | ]].
  - exfalso. exact (Hne text eq_refl).
  - apply render_consistent, Hinv.
  - destruct s as [st seen cs snd det]. unfold consistent in *. simpl in *.
    destruct Hinv as (H1 & H2 & H3 & H4 & H5).
    destruct H1 as [[Hc Hl] | (w & Hc & Hl & Hsh)]; subst cs.
    + simpl. split; [left; split; [reflexivity | exact Hl] | ].
      repeat split; try assumption; apply H2; assumption.
    + assert (Hsnd : snd = false).
      { destruct snd; [ | reflexivity].
        destruct (H2 eq_refl) as (Ha & _). congruence. }
      assert (Herr : ttsError st = None).
      { destruct (ttsError st) eqn:E; [ | reflexivity].
        assert (audioState st = Idle) by (apply H4; discriminate). congruence. }
      subst snd det. destruct i as [|i]; simpl.
      * pose proof (resumeCall_cases h w st) as Hcs.
        destruct (resumeCall engineMessage engineAccepts h w st)
          as [st' [next | attached | ]]; simpl.
        -- destruct Hcs as (Ha & He & Hr). rewrite Ha, He, Hr.
           split; [right; exists next; repeat split; assumption | ].
           split; [discriminate | ]. split; [reflexivity | ].
           split; assumption.
        -- destruct Hcs as (Ha & He & Hr). rewrite Ha.
           split; [left; split; [reflexivity | discriminate] | ].
           split; [destruct attached; discriminate | ].
           split; [destruct attached; reflexivity | ].
           split; [reflexivity | discriminate].
        -- destruct Hcs as (Ha & He & Hr). rewrite Ha, He.
           split; [left; split; [reflexivity | discriminate] | ].
           split; [intros _; repeat split; [exact Hr | rewrite Hsh; discriminate] | ].
           split; [reflexivity | ].
           split; [rewrite Herr; intros H; contradiction | intros _; exact Hr].
      * split; [right; exists w; repeat split; assumption | ].
        split; [discriminate | ]. split; [reflexivity | ]. split; assumption.
  - destruct s as [st seen cs snd det]. unfold consistent in *. simpl in *.
    destruct Hinv as (H1 & H2 & H3 & H4 & H5).
    destruct snd; simpl; [ | repeat split; try assumption; apply H2; assumption].
    destruct (H2 eq_refl) as (Ha & Hr & Hsh).
    destruct H1 as [[Hc Hl] | (w & Hc & Hl & _)]; [ | congruence].
    split; [left; split; [exact Hc | discriminate] | ].
    split; [discriminate | ]. split; [exact H3 | ].
    split; [reflexivity | discriminate].
  - destruct s as [st seen cs snd det]. unfold consistent in *. simpl in *.
    destruct Hinv as (H1 & H2 & H3 & H4 & H5). subst det. simpl.
    repeat split; try assumption; apply H2; assumption.
Qed.

(** A click, once rendered, leaves one call under way at most: the button
    of a render that shows [loading] is disabled. *)
Lemma toggle_render_consistent (s : session) (text : jsstring) :
  consistent s ->
  consistent (stepSession engineMessage engineAccepts
                (stepSession engineMessage engineAccepts s (Toggle text)) Rendered).
Proof.
  intros Hinv.
  destruct (toggleDisabled (shown s)) eqn:Hd.
  { replace (stepSession engineMessage engineAccepts s (Toggle text)) with s
      by (simpl; rewrite Hd; reflexivity).
    apply render_consistent, Hinv. }
  destruct s as [st seen cs snd det]. unfold consistent in *. simpl in *.
  destruct Hinv as (H1 & H2 & H3 & H4 & H5).
  destruct H1 as [[Hc Hl] | (w & _ & _ & Hsh)];
    [ | rewrite Hsh in Hd; discriminate Hd].
  subst cs det.
  destruct seen; [ | discriminate Hd | ];
    destruct (audioSourceRef st) as [source | ] eqn:Hsrc; simpl;
    rewrite ?Hsrc; simpl.
  - split; [right; eexists; repeat split; reflexivity | ].
    split; [intros Hs; destruct (H2 Hs) as (_ & _ & Hsh); contradiction | ].
    split; [reflexivity | ]. split; [intros H; contradiction | discriminate].
  - split; [right; eexists; repeat split; reflexivity | ].
    split; [intros Hs; destruct (H2 Hs) as (_ & _ & Hsh); contradiction | ].
    split; [reflexivity | ]. split; [intros H; contradiction | discriminate].
  - destruct snd; simpl; rewrite ?Hsrc; simpl.
    + split; [left; split; [reflexivity | discriminate] | ].
      split; [discriminate | ]. split; [reflexivity | ].
      split; [reflexivity | discriminate].
    + split; [left; split; [reflexivity | exact Hl] | ].
      split; [discriminate | ]. split; [reflexivity | ].
      split; [exact H4 | intros _; discriminate].
  - split; [right; eexists; repeat split; reflexivity | ].
    split; [intros Hs; destruct (H2 Hs) as (_ & Hr & _); contradiction | ].
    split; [reflexivity | ]. split; [intros H; contradiction | discriminate].
Qed.

Lemma event_is_toggle (e : playbackEvent) :
  (exists text, e = Toggle text) \/ (forall text, e <> Toggle text).
Proof. destruct e; (left; eexists; reflexivity) || (right; discriminate). Qed.

Lemma fold_consistent (events : list playbackEvent) :
  forall s,
  togglesRendered events = true ->
  consistent s
  \/ (exists rest, events = Rendered :: rest
                   /\ consistent (stepSession engineMessage engineAccepts s Rendered)) ->
  consistent (fold_left (stepSession engineMessage engineAccepts) events s).
Proof.
  induction events as [|e events IH]; intros s Hr Hinv.
  - destruct Hinv as [H | (rest & Habs & _)]; [exact H | discriminate Habs].
  - destruct (event_is_toggle e) as [[text ->] | Hne].
    + destruct Hinv as [Hinv | (rest & Habs & _)]; [ | discriminate Habs].
      destruct events as [|e' rest]; [discriminate Hr | ].
      destruct e'; try discriminate Hr.
      apply IH; [exact Hr | ].
      right. exists rest. split; [reflexivity | ].
      apply toggle_render_consistent, Hinv.
    + assert (Hr' : togglesRendered events = true).
      { destruct e; try exact Hr. exfalso. exact (Hne text eq_refl). }
      cbn [fold_left]. apply IH; [exact Hr' | ]. left.
      destruct Hinv as [Hinv | (rest & [= -> ->] & Hinv)].
      * apply step_consistent; assumption.
      * exact Hinv.
Qed.

(** X6.  However clicks, renders, settling awaits and ending sources follow
    one another, through whichever render's handler a click comes: with no
    call of the handler under way the state is not [loading]; while it is
    [loading] no error is on display; and in [playing] a source is attached.
    As long as every click is rendered before the next event is handled, at
    most one call is under way at any time, the state is [loading] exactly
    while one is (from the click to the end of the call, across its
    awaits), an error is on display in [idle] only, and no started source
    is left sounding outside the ref. *)
Theorem playback_always_consistent (events : list playbackEvent) :
  let s := runSession engineMessage engineAccepts events in
  (calls s = [] -> audioState (cells s) <> Loading)
  /\ (audioState (cells s) = Loading -> ttsError (cells s) = None)
  /\ (audioState (cells s) = Playing -> audioSourceRef (cells s) <> None)
  /\ (togglesRendered events = true ->
      (length (calls s) <= 1)%nat
      /\ (audioState (cells s) = Loading <-> calls s <> [])
      /\ (ttsError (cells s) <> None -> audioState (cells s) = Idle)
      /\ detached s = 0%nat).
Proof.
  intros s.
  assert (Hs : sound s).
  { apply fold_sound. unfold sound. simpl.
    split; [discriminate | ]. split; discriminate. }
  destruct Hs as (U1 & U2 & U3).
  split; [exact U1 | ]. split; [exact U2 | ]. split; [exact U3 | ].
  intros Hr.
  assert (Hc : consistent s).
  { apply fold_consistent; [exact Hr | ]. left. unfold consistent. simpl.
    split; [left; split; [reflexivity | discriminate] | ].
    split; [discriminate | ]. split; [reflexivity | ].
    split; [intros H; contradiction | discriminate]. }
  destruct Hc as (H1 & _ & H3 & H4 & _).
  split; [ | split; [ | split; assumption]].
  - destruct H1 as [[Hc _] | (w & Hc & _)]; rewrite Hc; simpl; lia.
  - destruct H1 as [[Hc Hl] | (w & Hc & Hl & _)]; rewrite Hc.
    + split; [intros H; contradiction | intros H; contradiction].
    + split; [discriminate | intros _; exact Hl].
Qed.

End InterleavingFacts.

Lemma playback_always_consistent_witness :
  let t := Js.lit "Summary: shipping on Friday" in
  let ok := {| ResultDisplay.speech := Gemini.SpeechReplied (Some (Js.lit "AAD/fwCAAQA="));
               ResultDisplay.newContext := Js.Ok ResultDisplay.Running;
               ResultDisplay.resume := None;
               ResultDisplay.outputNode := None;
               ResultDisplay.sourceNode := None;
               ResultDisplay.start := None |} in
  let events := [ResultDisplay.Toggle t; ResultDisplay.Rendered;
                 ResultDisplay.Toggle t; ResultDisplay.Rendered;
                 ResultDisplay.Settle 0 ok; ResultDisplay.Rendered;
                 ResultDisplay.Settle 0 ok] in
  let s := ResultDisplay.runSession ResultDisplay.chromiumWording
             ResultDisplay.requiredOnly events in
  ResultDisplay.togglesRendered events = true
  /\ ResultDisplay.audioState (ResultDisplay.cells s) = ResultDisplay.Playing
  /\ ResultDisplay.calls s = []
  /\ ResultDisplay.speechRequests (ResultDisplay.cells s) = [t]
  /\ ResultDisplay.detached s = 0%nat.
Proof.
  intros t ok events s.
  split; [reflexivity | ]. split; [reflexivity | ]. split; [reflexivity | ].
  split; [reflexivity | ].
  exact (proj2 (proj2 (proj2
    (proj2 (proj2 (proj2 (playback_always_consistent ResultDisplay.chromiumWording
                            ResultDisplay.requiredOnly events))) eq_refl)))).
Defined.

(** Two clicks with no render between them go through the same handler:
    two requests go out and two calls are under way. *)
Lemma unrendered_toggle_requests_again :
  let t := Js.lit "Summary: shipping on Friday" in
  let events := [ResultDisplay.Toggle t; ResultDisplay.Toggle t] in
  let s := ResultDisplay.runSession ResultDisplay.chromiumWording
             ResultDisplay.requiredOnly events in
  ResultDisplay.togglesRendered events = false
  /\ length (ResultDisplay.calls s) = 2%nat
  /\ ResultDisplay.speechRequests (ResultDisplay.cells s) = [t; t].
Proof. repeat split. Qed.

(* ================================================================== *)
(** * Further properties of the result view                            *)
(* ================================================================== *)

Section ViewMoreFacts.
Import Js ResultDisplay.

Lemma Array_filter_length_le {A} (keep : A -> bool) (items : list A) :
  (length (Array_filter keep items) <= length items)%nat.
Proof.
  induction items as [|x items IH]; simpl; [lia | ].
  destruct (keep x); simpl; lia.
Qed.

Lemma Array_filter_all {A} (keep : A -> bool) (items : list A) :
  length (Array_filter keep items) = length items <->
  Forall (fun x => keep x = true) items.
Proof.
  induction items as [|x items IH]; simpl.
  - split; [constructor | reflexivity].
  - pose proof (Array_filter_length_le keep items) as Hle.
    destruct (keep x) eqn:E; simpl.
    + split.
      * intros H. constructor; [exact E | apply IH; lia].
      * intros H. inversion H; subst. f_equal. apply IH. assumption.
    + split; [lia | ]. intros H. inversion H; congruence.
Qed.

(** X8.  The three priority filters never show an item twice between them, and
    together they show the items whose priority is one of "High", "Medium"
    and "Low": their lengths add up to the number of such items.  So they
    add up to the whole list exactly when every item has one of the three
    priorities; an item with any other priority string appears under "All"
    only, styled with the neutral colour. *)
Theorem priority_filters_partition_known_items (result : SummaryResult) :
  (length (filteredActionItems result (Only High))
   + length (filteredActionItems result (Only Medium))
   + length (filteredActionItems result (Only Low))
   = length (Array_filter knownPriority (actionItems result)))%nat
  /\ ((length (filteredActionItems result (Only High))
       + length (filteredActionItems result (Only Medium))
       + length (filteredActionItems result (Only Low))
       = length (actionItems result))%nat
      <-> Forall (fun item => knownPriority item = true) (actionItems result))
  /\ (forall item, knownPriority item = false ->
        (forall p, ~ In item (filteredActionItems result (Only p)))
        /\ getPriorityColor (priority item)
           = lit "bg-slate-600/50 text-slate-400 border border-slate-600/50").
Proof.
  assert (Hcount :
    (length (filteredActionItems result (Only High))
     + length (filteredActionItems result (Only Medium))
     + length (filteredActionItems result (Only Low))
     = length (Array_filter knownPriority (actionItems result)))%nat).
  { unfold filteredActionItems, knownPriority. simpl priorityName.
    induction (actionItems result) as [|item items IH]; [reflexivity | ].
    simpl.
    destruct (str_eqb (priority item) (lit "High")) eqn:EH.
    - apply str_eqb_eq in EH. rewrite EH. simpl. lia.
    - destruct (str_eqb (priority item) (lit "Medium")) eqn:EM.
      + apply str_eqb_eq in EM. rewrite EM. simpl. lia.
      + destruct (str_eqb (priority item) (lit "Low")) eqn:EL; simpl; lia. }
  split; [exact Hcount | ]. split.
  - rewrite Hcount. apply Array_filter_all.
  - intros item Hk. unfold knownPriority in Hk.
    apply orb_false_iff in Hk. destruct Hk as [Hk HL].
    apply orb_false_iff in Hk. destruct Hk as [HH HM]. split.
    + intros p Hin. unfold filteredActionItems in Hin.
      pose proof (Array_filter_keeps
                    (fun it => str_eqb (priority it) (priorityName p))
                    (actionItems result)) as Hall.
      rewrite Forall_forall in Hall.
      specialize (Hall item (proj2 (list_elem_of_In _ _) Hin)). simpl in Hall.
      destruct p; simpl in Hall; congruence.
    + unfold getPriorityColor. rewrite HH, HM, HL. reflexivity.
Qed.

Lemma replaceWhiteSpace_one (r : Z) (s : jsstring) :
  replaceWhiteSpace [r] s = List.map (fun c => if isWhiteSpace c then r else c) s.
Proof.
  unfold replaceWhiteSpace. induction s as [|c s IH]; simpl; [reflexivity | ].
  rewrite IH. destruct (isWhiteSpace c); reflexivity.
Qed.

(** X9.  The name of the downloaded file is the title with every white-space
    character replaced by an underscore, one for one, followed by
    "_summary.md"; it holds no white space and is eleven characters longer
    than the title.  Every other character of the title is kept as it is. *)
Theorem download_name_has_no_white_space (result : SummaryResult) :
  downloadName result
  = List.map (fun c => if isWhiteSpace c then 95 else c) (title result)
    ++ lit "_summary.md"
  /\ Forall (fun c => isWhiteSpace c = false) (downloadName result)
  /\ length (downloadName result) = (length (title result) + 11)%nat.
Proof.
  unfold downloadName. change (lit "_") with [95]. rewrite replaceWhiteSpace_one.
  split; [reflexivity | ]. split.
  - apply Forall_app. split.
    + apply Forall_map, Forall_forall. intros c _.
      destruct (isWhiteSpace c) eqn:E; [reflexivity | exact E].
    + vm_compute. repeat constructor.
  - rewrite length_app, length_map. reflexivity.
Qed.

End ViewMoreFacts.

Section TrimEndFacts.
Import Js.

Lemma trimEnd_app_visible (x y : jsstring) (c : Z) :
  isWhiteSpace c = false -> trimEnd (x ++ c :: y) = x ++ c :: trimEnd y.
Proof.
  intros Hc. unfold trimEnd.
  rewrite rev_app_distr. simpl rev. rewrite <- app_assoc. simpl.
  rewrite (trimStart_app_visible (rev y) (rev x) c Hc).
  rewrite rev_app_distr. simpl rev. rewrite rev_involutive, <- app_assoc.
  reflexivity.
Qed.

Lemma trimEnd_blank (y : jsstring) : blank y -> trimEnd y = [].
Proof.
  intros H. unfold trimEnd.
  assert (E : trimStart (rev y) = []) by (apply trimStart_blank, Forall_rev, H).
  rewrite E. reflexivity.
Qed.

Lemma join_last (sep : jsstring) (c : Z) (parts : list jsstring) :
  parts <> [] ->
  Forall (fun p => exists x, p = x ++ [c]) parts ->
  exists x, join sep parts = x ++ [c].
Proof.
  induction parts as [|p parts IH]; [congruence | ].
  intros _ Hall. inversion Hall as [|? ? [x Hx] Hrest]; subst.
  destruct parts as [|q parts].
  - exists x. reflexivity.
  - destruct IH as [y Hy]; [discriminate | exact Hrest | ].
    exists ((x ++ [c]) ++ sep ++ y).
    change (join sep ((x ++ [c]) :: q :: parts))
      with ((x ++ [c]) ++ sep ++ join sep (q :: parts)).
    rewrite Hy, <- !app_assoc. reflexivity.
Qed.

End TrimEndFacts.

(* ================================================================== *)
(** * Further properties of the export and of displayed dates          *)
(* ================================================================== *)

Section ExportFacts.
Import Js Calendar ResultDisplay.
Variable LocalTZA : Z.
Variable otherFormats : jsstring -> option Z.

Lemma actionItemLine_last (item : ActionItem) :
  exists x, actionItemLine LocalTZA otherFormats item = x ++ [41].
Proof.
  unfold actionItemLine. change (lit ")") with [41].
  eexists. rewrite !app_assoc. reflexivity.
Qed.

(** X10.  The exported document is the filled template with nothing cut from what
    was filled in: [trim] removes the template's own leading line break and
    trailing indentation, and (when there are no action items) the line
    break after the last heading.  The document always starts with the
    title heading and, with action items, ends with the closing bracket of
    the last item's line. *)
Theorem export_document_keeps_content (result : SummaryResult) :
  exportDocument LocalTZA otherFormats result
  = lit "# Meeting Summary: " ++ title result ++ [10; 10] ++
    lit "## Short Summary" ++ [10] ++ shortSummary result ++ [10; 10] ++
    lit "## Detailed Summary" ++ [10] ++
    join [10] (List.map bullet (detailedSummary result)) ++ [10; 10] ++
    lit "## Discussion Breakdown" ++ [10] ++
    join [10; 10] (List.map discussionBlock (discussionBreakdown result)) ++
    [10; 10] ++
    lit "## Action Items" ++
    match actionItems result with
    | [] => []
    | _ :: _ =>
        [10] ++ join [10] (List.map (actionItemLine LocalTZA otherFormats)
                             (actionItems result))
    end.
Proof.
  set (lines := List.map (actionItemLine LocalTZA otherFormats) (actionItems result)).
  set (front :=
    lit "# Meeting Summary: " ++ title result ++ [10; 10] ++
    lit "## Short Summary" ++ [10] ++ shortSummary result ++ [10; 10] ++
    lit "## Detailed Summary" ++ [10] ++
    join [10] (List.map bullet (detailedSummary result)) ++ [10; 10] ++
    lit "## Discussion Breakdown" ++ [10] ++
    join [10; 10] (List.map discussionBlock (discussionBreakdown result)) ++
    [10; 10] ++ lit "## Action Item").
  set (tail := [10] ++ join [10] lines ++ [10] ++ lit "    ").
  assert (Hbody : exportDocument LocalTZA otherFormats result
                  = trim ([10] ++ front ++ 115 :: tail)).
  { unfold exportDocument, front, tail, lines. f_equal. f_equal.
    rewrite <- !app_assoc. reflexivity. }
  assert (Htail : trimEnd tail
                  = match actionItems result with
                    | [] => []
                    | _ :: _ => [10] ++ join [10] lines
                    end).
  { subst tail lines. destruct (actionItems result) as [|item rest].
    - apply trimEnd_blank. vm_compute. repeat constructor.
    - destruct (join_last [10] 41
                  (List.map (actionItemLine LocalTZA otherFormats) (item :: rest)))
        as [x Hx].
      + discriminate.
      + apply Forall_map, Forall_forall. intros it _. apply actionItemLine_last.
      + rewrite Hx.
        replace ([10] ++ (x ++ [41]) ++ [10] ++ lit "    ")
          with (([10] ++ x) ++ 41 :: ([10] ++ lit "    "))
          by (rewrite <- !app_assoc; reflexivity).
        rewrite (trimEnd_app_visible ([10] ++ x) _ 41 eq_refl).
        rewrite trimEnd_blank by (vm_compute; repeat constructor).
        rewrite <- !app_assoc. reflexivity. }
  rewrite Hbody. unfold trim.
  assert (Hstart : trimStart ([10] ++ front ++ 115 :: tail) = front ++ 115 :: tail)
    by reflexivity.
  rewrite Hstart, (trimEnd_app_visible front tail 115 eq_refl), Htail.
  unfold front. rewrite <- !app_assoc. reflexivity.
Qed.


End ExportFacts.


(* ================================================================== *)
(** * Base64: what the recorder sends and what the player decodes      *)
(* ================================================================== *)

Section Base64Facts.
Import Js ResultDisplay AudioInput.

(** Induction over a list three elements at a time. *)
Lemma triple_ind (P : list Z -> Prop) :
  P [] -> (forall a, P [a]) -> (forall a b, P [a; b]) ->
  (forall a b c l, P l -> P (a :: b :: c :: l)) ->
  forall l, P l.
Proof.
  intros H0 H1 H2 H3 l.
  assert (H : P l /\ (forall a, P (a :: l)) /\ (forall a b, P (a :: b :: l))).
  { induction l as [|c l (IH0 & IH1 & IH2)].
    - split; [exact H0 | split; [exact H1 | exact H2]].
    - split; [apply IH1 | split; [intros a; apply IH2 | ]].
      intros a b. apply H3, IH0. }
  exact (proj1 H).
Qed.

Lemma base64Value_Char (v : Z) : isSextet v -> base64Value (base64Char v) = Some v.
Proof.
  unfold isSextet, base64Value, base64Char. intros Hv.
  repeat match goal with
         | |- context [?a <? ?b] => destruct (Z.ltb_spec a b)
         | |- context [?a <=? ?b] => destruct (Z.leb_spec a b)
         | |- context [?a =? ?b] => destruct (Z.eqb_spec a b)
         end; simpl; try (f_equal; lia); try lia.
Qed.

Lemma base64Char_plain (v : Z) :
  isSextet v -> isAsciiWhitespace (base64Char v) = false /\ base64Char v <> 61.
Proof.
  unfold isSextet, isAsciiWhitespace, base64Char. intros Hv.
  repeat match goal with
         | |- context [?a <? ?b] => destruct (Z.ltb_spec a b)
         | |- context [?a =? ?b] => destruct (Z.eqb_spec a b)
         end; simpl; split; try reflexivity; try lia.
Qed.

Lemma bytesToSextets_range (bytes : list Z) :
  Forall isByte bytes -> Forall isSextet (bytesToSextets bytes).
Proof.
  unfold isByte, isSextet.
  induction bytes as [ | a | a b | a b c l IH] using triple_ind; intros H.
  - constructor.
  - inversion H; subst. simpl. repeat constructor; Z.div_mod_to_equations; lia.
  - inversion H as [|? ? Ha H']; inversion H'; subst. simpl.
    repeat constructor; Z.div_mod_to_equations; lia.
  - inversion H as [|? ? Ha H']; inversion H' as [|? ? Hb H''];
      inversion H'' as [|? ? Hc Hl]; subst.
    cbn [bytesToSextets]. repeat (constructor; [Z.div_mod_to_equations; lia | ]).
    apply IH, Hl.
Qed.

Lemma sextets_round_trip (bytes : list Z) :
  Forall isByte bytes -> sextetsToBytes (bytesToSextets bytes) = bytes.
Proof.
  unfold isByte.
  induction bytes as [ | a | a b | a b c l IH] using triple_ind; intros H.
  - reflexivity.
  - inversion H; subst. cbn [bytesToSextets sextetsToBytes].
    f_equal. Z.div_mod_to_equations; lia.
  - inversion H as [|? ? Ha H']; inversion H'; subst.
    cbn [bytesToSextets sextetsToBytes].
    f_equal; [ | f_equal]; Z.div_mod_to_equations; lia.
  - inversion H as [|? ? Ha H']; inversion H' as [|? ? Hb H''];
      inversion H'' as [|? ? Hc Hl]; subst.
    cbn [bytesToSextets sextetsToBytes]. rewrite (IH Hl).
    f_equal; [ | f_equal; [ | f_equal]]; Z.div_mod_to_equations; lia.
Qed.

Lemma base64Values_Chars (vs : list Z) :
  Forall isSextet vs -> base64Values (List.map base64Char vs) = Some vs.
Proof.
  induction 1 as [|v vs Hv _ IH]; simpl; [reflexivity | ].
  rewrite (base64Value_Char v Hv). simpl. rewrite IH. reflexivity.
Qed.

Lemma filter_all {A} (f : A -> bool) (l : list A) :
  Forall (fun x => f x = true) l -> List.filter f l = l.
Proof.
  induction 1 as [|x l Hx _ IH]; simpl; [reflexivity | ].
  rewrite Hx, IH. reflexivity.
Qed.

(** The lengths of the sextets and of the padding, by the number of bytes
    left over after the groups of three. *)
Lemma encoding_lengths (bytes : list Z) :
  let sextets := length (bytesToSextets bytes) in
  let padding := ((3 - length bytes mod 3) mod 3)%nat in
  (padding = 0 /\ sextets mod 4 = 0)%nat
  \/ (padding = 1 /\ sextets mod 4 = 3)%nat
  \/ (padding = 2 /\ sextets mod 4 = 2)%nat.
Proof.
  induction bytes as [ | a | a b | a b c l IH] using triple_ind.
  - left. split; reflexivity.
  - right. right. split; reflexivity.
  - right. left. split; reflexivity.
  - cbn [bytesToSextets length].
    replace (S (S (S (length l)))) with (length l + 1 * 3)%nat by lia.
    replace (S (S (S (S (length (bytesToSextets l))))))
      with (length (bytesToSextets l) + 1 * 4)%nat by lia.
    rewrite !Nat.Div0.mod_add. exact IH.
Qed.

Lemma not_padding_match {A} (x : Z) (a b : A) :
  x <> 61 -> match x with 61 => a | _ => b end = b.
Proof.
  intros H. destruct x as [|p|p]; try reflexivity.
  do 6 (destruct p as [p|p|]; try reflexivity). congruence.
Qed.

Lemma stripPadding_none (m : jsstring) :
  (length m mod 4 = 0)%nat ->
  (forall x r, rev m = x :: r -> x <> 61) ->
  stripPadding m = m.
Proof.
  intros Hl Hlast. unfold stripPadding. rewrite Hl. simpl.
  destruct (rev m) as [|x r] eqn:E; [reflexivity | ].
  specialize (Hlast x r eq_refl).
  destruct x as [|p|p]; try reflexivity.
  do 6 (destruct p as [p|p|]; try reflexivity). congruence.
Qed.

Lemma stripPadding_one (m : jsstring) :
  (length (m ++ [61%Z]) mod 4 = 0)%nat ->
  (forall x r, rev m = x :: r -> x <> 61) ->
  stripPadding (m ++ [61]) = m.
Proof.
  intros Hl Hlast. unfold stripPadding. rewrite Hl. simpl.
  rewrite rev_app_distr. simpl.
  destruct (rev m) as [|x r] eqn:E.
  - apply (f_equal (@rev Z)) in E. rewrite rev_involutive in E. subst m. reflexivity.
  - specialize (Hlast x r eq_refl).
    assert (Em : m = rev (x :: r)) by (rewrite <- E; symmetry; apply rev_involutive).
    destruct x as [|p|p]; try (symmetry; exact Em).
    do 6 (destruct p as [p|p|]; try (symmetry; exact Em)). congruence.
Qed.

Lemma stripPadding_two (m : jsstring) :
  (length (m ++ [61%Z; 61%Z]) mod 4 = 0)%nat ->
  stripPadding (m ++ [61; 61]) = m.
Proof.
  intros Hl. unfold stripPadding. rewrite Hl. simpl.
  rewrite rev_app_distr. simpl. apply rev_involutive.
Qed.

Lemma map_last_plain (vs : list Z) :
  Forall isSextet vs ->
  forall x r, rev (List.map base64Char vs) = x :: r -> x <> 61.
Proof.
  intros H x r E.
  assert (Hin : In x (List.map base64Char vs)).
  { apply in_rev. rewrite E. left. reflexivity. }
  apply in_map_iff in Hin. destruct Hin as (v & <- & Hv).
  rewrite Forall_forall in H.
  apply base64Char_plain, H, list_elem_of_In, Hv.
Qed.

(** [atob] undoes the base64 encoding of any sequence of bytes. *)
Lemma atob_base64Encode (bytes : list Z) :
  Forall isByte bytes -> atob (base64Encode bytes) = Some bytes.
Proof.
  intros Hb. pose proof (bytesToSextets_range bytes Hb) as Hs.
  unfold atob, base64Encode.
  set (m := List.map base64Char (bytesToSextets bytes)).
  assert (Hm : length m = length (bytesToSextets bytes)) by apply length_map.
  assert (Hplain : Forall (fun c => negb (isAsciiWhitespace c) = true) m).
  { subst m. apply Forall_map, Forall_forall. intros v Hv.
    rewrite Forall_forall in Hs.
    destruct (base64Char_plain v (Hs v Hv)) as [E _]. rewrite E. reflexivity. }
  assert (Hstrip :
    stripPadding
      (List.filter (fun c => negb (isAsciiWhitespace c))
         (m ++ repeat 61 ((3 - length bytes mod 3) mod 3)%nat)) = m
    /\ (length m mod 4 =? 1)%nat = false).
  { destruct (encoding_lengths bytes) as [[Hp Hl] | [[Hp Hl] | [Hp Hl]]];
      rewrite Hp; simpl repeat.
    - rewrite app_nil_r, (filter_all _ m Hplain). split.
      + apply stripPadding_none; [rewrite Hm; exact Hl | ].
        apply map_last_plain, Hs.
      + rewrite Hm, Hl. reflexivity.
    - rewrite filter_all
        by (apply Forall_app; split; [exact Hplain | repeat constructor]).
      split.
      + apply stripPadding_one.
        * rewrite length_app, Hm.
          rewrite <- Nat.Div0.add_mod_idemp_l, Hl. reflexivity.
        * apply map_last_plain, Hs.
      + rewrite Hm, Hl. reflexivity.
    - rewrite filter_all
        by (apply Forall_app; split; [exact Hplain | repeat constructor]).
      split.
      + apply stripPadding_two.
        rewrite length_app, Hm.
        rewrite <- Nat.Div0.add_mod_idemp_l, Hl. reflexivity.
      + rewrite Hm, Hl. reflexivity. }
  destruct Hstrip as [E1 E2]. cbv zeta. rewrite E1, E2.
  subst m. rewrite (base64Values_Chars _ Hs). simpl.
  rewrite (sextets_round_trip bytes Hb). reflexivity.
Qed.

Lemma indexOf_first (pre rest : jsstring) :
  Forall (fun c => c <> 44) pre ->
  indexOf 44 (pre ++ 44 :: rest) = Z.of_nat (length pre).
Proof.
  induction 1 as [|c pre Hc _ IH]; [reflexivity | ].
  cbn [app indexOf length]. rewrite IH.
  destruct (Z.eqb_spec c 44); [contradiction | ].
  destruct (Z.ltb_spec (Z.of_nat (length pre)) 0); lia.
Qed.

Lemma indexOf_absent (s : jsstring) :
  Forall (fun c => c <> 44) s -> indexOf 44 s = -1.
Proof.
  induction 1 as [|c s Hc _ IH]; [reflexivity | ].
  cbn [indexOf]. rewrite IH.
  destruct (Z.eqb_spec c 44); [contradiction | reflexivity].
Qed.

Lemma afterComma_first (pre rest : jsstring) :
  Forall (fun c => c <> 44) pre -> afterComma (pre ++ 44 :: rest) = rest.
Proof.
  intros H. unfold afterComma, substr. rewrite (indexOf_first pre rest H).
  destruct (Z.ltb_spec (Z.of_nat (length pre) + 1) 0); [lia | ].
  replace (Z.to_nat (Z.of_nat (length pre) + 1)) with (S (length pre)) by lia.
  change (pre ++ 44 :: rest) with (pre ++ [44] ++ rest).
  rewrite app_assoc.
  replace (S (length pre)) with (length (pre ++ [44]))
    by (rewrite length_app; simpl; lia).
  apply drop_app_length.
Qed.

(** X12.  [blobToBase64] hands on what follows the first comma of the data URL:
    the whole payload when the part before the payload's comma holds no
    comma of its own, and the whole string when there is no comma at all;
    a comma in the media type cuts the result short of the payload's
    start. *)
Theorem blobToBase64_cuts_at_first_comma (pre rest : jsstring) :
  Forall (fun c => c <> 44) pre ->
  blobToBase64 (ReadDone (pre ++ 44 :: rest)) = Ok rest
  /\ blobToBase64 (ReadDone pre) = Ok pre
  /\ blobToBase64 ReadFailed = Throw NotAnError.
Proof.
  intros H. repeat split.
  - unfold blobToBase64. rewrite (afterComma_first pre rest H). reflexivity.
  - unfold blobToBase64, afterComma, substr.
    rewrite (indexOf_absent pre H). reflexivity.
Qed.

(** X13.  The audio the recorder sends is the audio the player's [decode] reads:
    for any bytes and any media type without a comma, decoding what
    [blobToBase64] extracts from the blob's data URL gives the bytes
    back. *)
Theorem decode_inverts_blobToBase64
    (engineMessage : engineFault -> jsstring) (mediaType : jsstring) (bytes : list Z) :
  Forall isByte bytes ->
  Forall (fun c => c <> 44) mediaType ->
  exists base64,
    blobToBase64 (ReadDone (dataURL mediaType bytes)) = Ok base64
    /\ base64 = base64Encode bytes
    /\ decode engineMessage base64 = Ok bytes.
Proof.
  intros Hb Hm. exists (base64Encode bytes).
  assert (E : dataURL mediaType bytes
              = (lit "data:" ++ mediaType ++ lit ";base64") ++ 44 :: base64Encode bytes).
  { unfold dataURL. rewrite <- !app_assoc. reflexivity. }
  rewrite E. split; [ | split; [reflexivity | ]].
  - unfold blobToBase64. f_equal. apply afterComma_first.
    apply Forall_app. split; [vm_compute; repeat constructor; discriminate | ].
    apply Forall_app. split; [exact Hm | vm_compute; repeat constructor; discriminate].
  - unfold decode. rewrite (atob_base64Encode bytes Hb). f_equal.
    clear -Hb. induction Hb as [|b bytes Hbyte _ IH]; [reflexivity | ].
    simpl. rewrite IH. f_equal. unfold isByte in Hbyte. apply Z.mod_small. lia.
Qed.

End Base64Facts.

Lemma blobToBase64_cuts_at_first_comma_witness :
  AudioInput.blobToBase64
    (AudioInput.ReadDone (Js.lit "data:audio/webm;codecs=opus;base64" ++ 44 :: Js.lit "SGVsbG8="))
  = Js.Ok (Js.lit "SGVsbG8=").
Proof.
  apply (blobToBase64_cuts_at_first_comma (Js.lit "data:audio/webm;codecs=opus;base64")).
  vm_compute. repeat constructor; discriminate.
Defined.

Lemma decode_inverts_blobToBase64_witness :
  exists base64,
    AudioInput.blobToBase64
      (AudioInput.ReadDone (AudioInput.dataURL (Js.lit "audio/webm") [0; 255; 128; 7]))
    = Js.Ok base64
    /\ ResultDisplay.decode ResultDisplay.chromiumWording base64 = Js.Ok [0; 255; 128; 7].
Proof.
  destruct (decode_inverts_blobToBase64 ResultDisplay.chromiumWording
              (Js.lit "audio/webm") [0; 255; 128; 7]) as (b & H1 & _ & H2).
  - repeat constructor; unfold AudioInput.isByte; lia.
  - vm_compute. repeat constructor; discriminate.
  - exists b. split; assumption.
Defined.

(* ================================================================== *)
(** * Further properties of the audio decoding                         *)
(* ================================================================== *)

Section DecodeMoreFacts.
Import Js ResultDisplay.
Variable engineMessage : engineFault -> jsstring.
Variable engineAccepts : nat -> nat -> Z -> bool.

Lemma no_whole_frame (bytes numChannels : nat) :
  (0 < numChannels)%nat ->
  (bytes / 2 / numChannels =? 0)%nat = (bytes <? 2 * numChannels)%nat.
Proof.
  intros Hn. rewrite Nat.Div0.div_div.
  destruct (Nat.ltb_spec bytes (2 * numChannels)) as [H | H].
  - apply Nat.eqb_eq, Nat.div_small, H.
  - apply Nat.eqb_neq. intros H0. apply Nat.div_small_iff in H0; lia.
Qed.

(** X14.  [decodeAudioData] fails in two ways only.  An odd number of bytes
    gives the typed array's error, whatever the other parameters.  An even
    number gives [createBuffer]'s error when there is no channel, when the
    bytes hold no whole frame, or when channel count and sample rate are
    outside the ranges required of every engine and this engine refuses
    them.  In every other case a buffer comes back, at the sample rate asked
    for and with the channels asked for; within the required ranges that is
    so on every engine. *)
Theorem decodeAudioData_outcome
    (data : list Z) (sampleRate : Z) (numChannels : nat) :
  let frames := (length data / 2 / numChannels)%nat in
  let attempt := decodeAudioData engineMessage engineAccepts data sampleRate numChannels in
  (Nat.even (length data) = false ->
   attempt = Throw (engineError engineMessage OddByteLength))
  /\ (Nat.even (length data) = true ->
      if (numChannels =? 0)%nat || (length data <? 2 * numChannels)%nat
      then attempt = Throw (engineError engineMessage NotSupported)
      else if inRequiredRanges numChannels sampleRate
              || engineAccepts numChannels frames sampleRate
      then exists buffer,
          attempt = Ok buffer
          /\ buf_sampleRate buffer = sampleRate
          /\ length (buf_channels buffer) = numChannels
          /\ Forall (fun samples => length samples = frames) (buf_channels buffer)
      else attempt = Throw (engineError engineMessage NotSupported)).
Proof.
  intros frames attempt.
  split; intros He.
  - subst attempt. unfold decodeAudioData, Int16Array_of. rewrite He. reflexivity.
  - assert (E : attempt
                = if (numChannels =? 0)%nat || (length data <? 2 * numChannels)%nat
                     || negb (inRequiredRanges numChannels sampleRate
                              || engineAccepts numChannels frames sampleRate)
                  then Throw (engineError engineMessage NotSupported)
                  else Ok {| buf_sampleRate := sampleRate;
                             buf_channels :=
                               List.map (channelSamples (int16Elements data)
                                           numChannels frames)
                                        (seq 0 numChannels) |}).
    { subst attempt. unfold decodeAudioData, Int16Array_of. rewrite He.
      unfold mbind, result_bind, bind. cbv zeta. rewrite int16Elements_length.
      fold frames. unfold createBufferRefuses.
      destruct (Nat.eqb_spec numChannels 0) as [Hz | Hz]; [reflexivity | ].
      unfold frames at 1. rewrite no_whole_frame by lia. reflexivity. }
    clearbody attempt. subst attempt.
    destruct ((numChannels =? 0)%nat || (length data <? 2 * numChannels)%nat);
      [reflexivity | ].
    cbn [orb].
    destruct (inRequiredRanges numChannels sampleRate
              || engineAccepts numChannels frames sampleRate); [ | reflexivity].
    cbn [negb]. eexists. split; [reflexivity | ]. cbn [buf_sampleRate buf_channels].
    split; [reflexivity | ]. split; [rewrite length_map, length_seq; reflexivity | ].
    apply Forall_map, Forall_forall. intros c _. unfold channelSamples.
    rewrite length_map, length_seq. reflexivity.
Qed.

End DecodeMoreFacts.

Lemma decodeAudioData_outcome_witness :
  (exists buffer,
      ResultDisplay.decodeAudioData ResultDisplay.chromiumWording
        ResultDisplay.chromiumRanges [0; 128; 255; 127; 1; 0; 254; 255] 3000 2
      = Js.Ok buffer
      /\ length (ResultDisplay.buf_channels buffer) = 2%nat)
  /\ ResultDisplay.decodeAudioData ResultDisplay.chromiumWording
       ResultDisplay.requiredOnly [0; 128; 255; 127; 1; 0; 254; 255] 3000 2
     = Js.Throw (ResultDisplay.engineError ResultDisplay.chromiumWording
                   ResultDisplay.NotSupported)
  /\ ResultDisplay.decodeAudioData ResultDisplay.chromiumWording
       ResultDisplay.requiredOnly [0; 128; 255] 24000 1
     = Js.Throw (ResultDisplay.engineError ResultDisplay.chromiumWording
                   ResultDisplay.OddByteLength).
Proof.
  split; [ | split].
  - destruct (proj2 (decodeAudioData_outcome ResultDisplay.chromiumWording
                       ResultDisplay.chromiumRanges
                       [0; 128; 255; 127; 1; 0; 254; 255] 3000 2) eq_refl)
      as (buffer & H1 & _ & H3 & _).
    exists buffer. split; [exact H1 | exact H3].
  - exact (proj2 (decodeAudioData_outcome ResultDisplay.chromiumWording
                    ResultDisplay.requiredOnly
                    [0; 128; 255; 127; 1; 0; 254; 255] 3000 2) eq_refl).
  - exact (proj1 (decodeAudioData_outcome ResultDisplay.chromiumWording
                    ResultDisplay.requiredOnly [0; 128; 255] 24000 1) eq_refl).
Defined.

(* ================================================================== *)
(** * The audio input (AudioInput.tsx)                                 *)
(* ================================================================== *)

Section CaptureFacts.
Import Js AudioInput.

Lemma startsWith_spec (s prefix : jsstring) :
  startsWith s prefix = true <-> exists rest, s = prefix ++ rest.
Proof.
  revert s. induction prefix as [|p prefix IH]; intros s.
  - split; [intros _; exists s; reflexivity | intros _; destruct s; reflexivity].
  - destruct s as [|c s].
    + split; [discriminate | intros [rest H]; discriminate].
    + cbn [startsWith]. rewrite andb_true_iff, Z.eqb_eq, IH. split.
      * intros [-> [rest ->]]. exists rest. reflexivity.
      * intros [rest [= -> ->]]. split; [reflexivity | exists rest; reflexivity].
Qed.

(** X15.  A file whose type starts with "audio/" goes to transcription: the
    component shows the transcribing state with no error, and [processAudio]
    gets the file and its type.  Any other file is refused with an error
    message, nothing is transcribed and the transcribing flag stays as it
    was. *)
Theorem audio_file_accepted_or_refused (file : blob) (st : state) :
  ((exists rest, blob_type file = lit "audio/" ++ rest)
   /\ snd (handleAudioFile file st) = Some (file, blob_type file)
   /\ isTranscribing (fst (handleAudioFile file st)) = true
   /\ error (fst (handleAudioFile file st)) = None)
  \/ ((forall rest, blob_type file <> lit "audio/" ++ rest)
      /\ snd (handleAudioFile file st) = None
      /\ isTranscribing (fst (handleAudioFile file st)) = isTranscribing st
      /\ error (fst (handleAudioFile file st))
         = Some (lit "Please upload a valid audio file.")).
Proof.
  unfold handleAudioFile.
  destruct (startsWith (blob_type file) (lit "audio/")) eqn:E.
  - left. split; [apply startsWith_spec, E | repeat split].
  - right. split; [ | repeat split].
    intros rest H.
    assert (startsWith (blob_type file) (lit "audio/") = true)
      by (apply startsWith_spec; exists rest; exact H).
    congruence.
Qed.

(** X16.  However the transcription of a blob ends, the component is no longer
    transcribing and the recording cells are untouched.  When the blob was
    read and the gateway answered with text, [onTranscriptionComplete] is
    called with the trimmed text and no error is set, and the application
    then holds that text as its transcript, on the text tab, under the file
    name "audio_transcription.txt", with result and error cleared.  When the
    blob could not be read the error is the generic one, and when the
    gateway failed it is the gateway's; the callback is not called. *)
Theorem transcription_ends_one_of_three_ways
    (read : readOutcome) (reply : Gemini.transcriptionReply) (st : state)
    (app : App.state) :
  let st1 := processAudio st in
  let st' := fst (processAudio_settled read reply st1) in
  let called := snd (processAudio_settled read reply st1) in
  isTranscribing st1 = true
  /\ isTranscribing st' = false
  /\ isRecording st' = isRecording st
  /\ audioChunksRef st' = audioChunksRef st
  /\ match read, reply with
     | ReadFailed, _ => called = None /\ error st' = Some unknownError
     | ReadDone _, Gemini.TranscriptionReplied (Some raw) =>
         called = Some (trim raw) /\ error st' = None
         /\ App.transcript (App.handleTranscriptionComplete (trim raw) app) = trim raw
         /\ App.activeInputTab (App.handleTranscriptionComplete (trim raw) app)
            = App.TextTab
         /\ App.fileName (App.handleTranscriptionComplete (trim raw) app)
            = lit "audio_transcription.txt"
         /\ App.summaryResult (App.handleTranscriptionComplete (trim raw) app) = None
         /\ App.error (App.handleTranscriptionComplete (trim raw) app) = None
     | ReadDone _, _ =>
         called = None /\ error st' = Some Gemini.transcriptionFailure
     end.
Proof.
  destruct read as [ | url]; [ | destruct reply as [e | [raw | ]]];
    simpl; repeat split; reflexivity.
Qed.

(** X17.  Stopping is idempotent: a second [handleStopRecording] or [cleanup]
    changes nothing the first has not already done, so the stream and the
    interval are released at most once.  After [handleStopRecording] the
    component is not recording, its timer is cleared and reads zero and its
    recorder, if any, does not record; after [cleanup] the stream is
    released as well. *)
Theorem stopping_is_idempotent (st : state) :
  handleStopRecording (handleStopRecording st) = handleStopRecording st
  /\ cleanup (cleanup st) = cleanup st
  /\ isRecording (handleStopRecording st) = false
  /\ timerIntervalRef (handleStopRecording st) = false
  /\ recordingTime (handleStopRecording st) = 0
  /\ streamRef (cleanup st) = false
  /\ timerIntervalRef (cleanup st) = false
  /\ recordingTime (cleanup st) = 0
  /\ match mediaRecorderRef (cleanup st), mediaRecorderRef (handleStopRecording st) with
     | Some r1, Some r2 => rec_recording r1 = false /\ rec_recording r2 = false
     | None, None => mediaRecorderRef st = None
     | _, _ => False
     end.
Proof.
  unfold handleStopRecording, cleanup, stopRecorder, stopTimer.
  destruct st as [rec tr time err drag [[[|] mime]|] chunks [|] [|] ls lt];
    simpl; repeat split; reflexivity.
Qed.



End CaptureFacts.


(* ================================================================== *)
(** * The recording clock (formatTime)                                 *)
(* ================================================================== *)

Section ClockFacts.
Import Js AudioInput.

Lemma digits_fuel_value (fuel : nat) :
  forall n acc, 0 <= n < 2 ^ Z.of_nat fuel ->
  fold_left (fun a c => 10 * a + (c - 48)) (digits_fuel fuel n acc) 0
  = fold_left (fun a c => 10 * a + (c - 48)) acc n.
Proof.
  induction fuel as [|fuel IH]; intros n acc Hn.
  - simpl in *. assert (n = 0) by lia. subst. reflexivity.
  - cbn [digits_fuel]. cbv zeta.
    destruct (Z.eqb_spec (n / 10) 0) as [E | E].
    + simpl. f_equal. Z.div_mod_to_equations. lia.
    + rewrite IH.
      * simpl. f_equal. Z.div_mod_to_equations. lia.
      * rewrite Nat2Z.inj_succ, Z.pow_succ_r in Hn by lia.
        Z.div_mod_to_equations. lia.
Qed.

Lemma digits_fuel_digits (fuel : nat) :
  forall n acc, 0 <= n ->
  Forall (fun c => isDecimalDigit c = true) acc ->
  Forall (fun c => isDecimalDigit c = true) (digits_fuel fuel n acc).
Proof.
  induction fuel as [|fuel IH]; intros n acc Hn Hacc; [exact Hacc | ].
  cbn [digits_fuel]. cbv zeta.
  assert (Hd : isDecimalDigit (48 + n mod 10) = true).
  { unfold isDecimalDigit. apply andb_true_iff.
    rewrite !Z.leb_le. Z.div_mod_to_equations. lia. }
  destruct (n / 10 =? 0).
  - constructor; assumption.
  - apply IH; [Z.div_mod_to_equations; lia | constructor; assumption].
Qed.

Lemma decimal_value (n : Z) : 0 <= n -> digitsValue (decimal n) = n.
Proof.
  intros Hn. unfold digitsValue, decimal. rewrite digits_fuel_value; [reflexivity | ].
  destruct (Z.eq_dec n 0) as [-> | Hne]; [simpl; lia | ].
  rewrite Nat2Z.inj_succ, Z2Nat.id by apply Z.log2_nonneg.
  pose proof (Z.log2_spec n ltac:(lia)). lia.
Qed.

Lemma decimal_digits (n : Z) :
  0 <= n -> Forall (fun c => isDecimalDigit c = true) (decimal n).
Proof. intros Hn. apply digits_fuel_digits; [exact Hn | constructor]. Qed.

Lemma decimal_one_digit (n : Z) : 0 <= n < 10 -> decimal n = [48 + n].
Proof.
  intros Hn. unfold decimal. cbn [digits_fuel]. cbv zeta.
  rewrite Z.div_small, Z.mod_small by lia. reflexivity.
Qed.

Lemma decimal_two_digits (n : Z) :
  10 <= n < 100 -> decimal n = [48 + n / 10; 48 + n mod 10].
Proof.
  intros Hn. unfold decimal.
  assert (Hl : 3 <= Z.log2 n) by (apply Z.log2_le_pow2; simpl; lia).
  destruct (Z.to_nat (Z.log2 n)) as [|k] eqn:E; [lia | ].
  cbn [digits_fuel]. cbv zeta.
  destruct (Z.eqb_spec (n / 10) 0) as [E0 | E0];
    [Z.div_mod_to_equations; lia | ].
  rewrite (Z.div_small (n / 10) 10), (Z.mod_small (n / 10) 10)
    by (Z.div_mod_to_equations; lia).
  reflexivity.
Qed.

Lemma numberToString_safe (n : Z) :
  0 <= n <= MAX_SAFE_INTEGER -> numberToString n = Some (decimal n).
Proof.
  intros Hn. unfold numberToString, isSafeInteger.
  destruct (Z.leb_spec (Z.abs n) MAX_SAFE_INTEGER); [ | lia].
  destruct (Z.ltb_spec n 0); [lia | reflexivity].
Qed.

(** The padded decimal form of a number below a hundred: two digits that
    read back as the number. *)
Lemma padded_two_digits (n : Z) :
  0 <= n < 100 ->
  padStart 2 48 (decimal n) = [48 + n / 10; 48 + n mod 10].
Proof.
  intros Hn. destruct (Z_lt_ge_dec n 10) as [Hs | Hb].
  - rewrite decimal_one_digit by lia.
    rewrite Z.div_small by lia. rewrite Z.mod_small by lia. reflexivity.
  - rewrite decimal_two_digits by lia. reflexivity.
Qed.

(** X19.  For a time that is a safe integer and not negative, the recording
    clock reads minutes, a colon and seconds: exactly two digits of
    seconds, and two digits of minutes for a time of less than a hundred
    minutes, five characters in all, which read back as the time.  From a
    hundred minutes on the minutes take more than two digits. *)
Theorem formatTime_reads_back (seconds : Z) :
  0 <= seconds <= MAX_SAFE_INTEGER ->
  exists mm ss,
    formatTime seconds = Some (mm ++ [58] ++ ss)
    /\ length ss = 2%nat
    /\ Forall (fun c => isDecimalDigit c = true) (mm ++ ss)
    /\ digitsValue ss = seconds mod 60
    /\ digitsValue mm = seconds / 60
    /\ 60 * digitsValue mm + digitsValue ss = seconds
    /\ (2 <= length mm)%nat
    /\ (seconds < 6000 -> length mm = 2%nat).
Proof.
  intros Hs. unfold MAX_SAFE_INTEGER in Hs.
  assert (Hss : 0 <= seconds mod 60 < 100) by (Z.div_mod_to_equations; lia).
  assert (Hm : 0 <= seconds / 60) by (Z.div_mod_to_equations; lia).
  assert (Hform : formatTime seconds
                  = Some (padStart 2 48 (decimal (seconds / 60)) ++ [58]
                          ++ padStart 2 48 (decimal (seconds mod 60)))).
  { unfold formatTime, isSafeInteger, MAX_SAFE_INTEGER.
    destruct (Z.leb_spec (Z.abs seconds) 9007199254740991); [ | lia].
    rewrite Z.rem_mod_nonneg by lia.
    rewrite !numberToString_safe
      by (unfold MAX_SAFE_INTEGER; Z.div_mod_to_equations; lia).
    reflexivity. }
  pose proof (padded_two_digits (seconds mod 60) Hss) as Ess.
  exists (padStart 2 48 (decimal (seconds / 60))),
         (padStart 2 48 (decimal (seconds mod 60))).
  assert (Lss : length (padStart 2 48 (decimal (seconds mod 60))) = 2%nat)
    by (rewrite Ess; reflexivity).
  assert (Vss : digitsValue (padStart 2 48 (decimal (seconds mod 60)))
                = seconds mod 60).
  { rewrite Ess. unfold digitsValue. simpl. Z.div_mod_to_equations. lia. }
  assert (Dss : Forall (fun c => isDecimalDigit c = true)
                  (padStart 2 48 (decimal (seconds mod 60)))).
  { rewrite Ess. unfold isDecimalDigit.
    repeat constructor; apply andb_true_iff; rewrite !Z.leb_le;
      Z.div_mod_to_equations; lia. }
  assert (Mm : digitsValue (padStart 2 48 (decimal (seconds / 60)))
               = seconds / 60
               /\ Forall (fun c => isDecimalDigit c = true)
                    (padStart 2 48 (decimal (seconds / 60)))
               /\ (2 <= length (padStart 2 48 (decimal (seconds / 60))))%nat
               /\ (seconds < 6000 ->
                   length (padStart 2 48 (decimal (seconds / 60))) = 2%nat)).
  { destruct (Z_lt_ge_dec (seconds / 60) 100) as [Hlt | Hge].
    - rewrite (padded_two_digits (seconds / 60)) by lia.
      unfold digitsValue, isDecimalDigit. simpl.
      split; [Z.div_mod_to_equations; lia | ].
      split; [ | split; [lia | reflexivity]].
      repeat constructor; apply andb_true_iff; rewrite !Z.leb_le;
        Z.div_mod_to_equations; lia.
    - unfold padStart.
      assert (Hv : digitsValue (decimal (seconds / 60)) = seconds / 60)
        by (apply decimal_value; lia).
      assert (Hd := decimal_digits (seconds / 60) Hm).
      assert (Hlen : (3 <= length (decimal (seconds / 60)))%nat).
      { destruct (decimal (seconds / 60)) as [|a [|b [|c r]]] eqn:E;
          try (simpl; lia); exfalso; unfold digitsValue in Hv; simpl in Hv.
        - lia.
        - inversion Hd as [|? ? Ha _]; subst. unfold isDecimalDigit in Ha.
          apply andb_true_iff in Ha. rewrite !Z.leb_le in Ha. lia.
        - inversion Hd as [|? ? Ha Hd']; inversion Hd' as [|? ? Hb _]; subst.
          unfold isDecimalDigit in Ha, Hb.
          apply andb_true_iff in Ha, Hb. rewrite !Z.leb_le in Ha, Hb. lia. }
      replace (2 - length (decimal (seconds / 60)))%nat with 0%nat by lia.
      simpl. split; [exact Hv | ]. split; [exact Hd | ].
      split; [lia | ]. intros Hlt. exfalso. Z.div_mod_to_equations. lia. }
  destruct Mm as (Vm & Dm & Lm & Lm2).
  split; [exact Hform | ]. split; [exact Lss | ].
  split; [apply Forall_app; split; assumption | ].
  split; [exact Vss | ]. split; [exact Vm | ].
  split; [rewrite Vss, Vm; Z.div_mod_to_equations; lia | ].
  split; [exact Lm | exact Lm2].
Qed.

End ClockFacts.

Lemma formatTime_reads_back_witness :
  AudioInput.formatTime 125 = Some (Js.lit "02:05")
  /\ exists mm ss,
    AudioInput.formatTime 125 = Some (mm ++ [58] ++ ss)
    /\ 60 * Js.digitsValue mm + Js.digitsValue ss = 125.
Proof.
  split; [reflexivity | ].
  destruct (formatTime_reads_back 125 ltac:(unfold Js.MAX_SAFE_INTEGER; lia))
    as (mm & ss & H1 & _ & _ & _ & _ & H2 & _).
  exists mm, ss. split; assumption.
Defined.
